(** * typescript-runtime: the validators and sanitizers emitted by [generate]

    [src/lib/generator.ts] turns a map of named [Type]s into the text of a
    module that holds, for every name, a frozen binding
    [{ name, schema, create, validate }].  The statements below are about
    what that emitted code does when it runs.  Each template of the
    generator is embedded as the function computed by the text it emits:

    - [generateTypeValidator] : the statements emitted for a type, run on a
      value; they complete, or throw;
    - [generateTypeSanitizer] : the expression emitted for a type, evaluated
      on a value; it allocates the objects and arrays it builds;
    - [validate], [create]    : the two methods of a named binding.

    Conventions of the embedding.

    - Values are finite trees: [undefined], [null], booleans, numbers
      (integers stand for them; the emitted code only tests their tag and
      compares them to literals), strings, arrays, plain objects and the
      functions that objects inherit.  Arrays and objects carry the
      identity of the allocation they came from, so that "the same object"
      can be told from "an equal object".  Objects hold data properties;
      a read of a name that is no own property goes on to the prototype,
      where the host says what it finds ([prototype] of [Host]).
      [Object.keys] lists array indices first, in ascending order, and the
      other keys in the order of their insertion.
    - A thrown value is a [ValidationError] or something else
      ([ReferenceError], [TypeError], the [null] thrown by an empty union).
    - Named types may refer to each other in cycles, so every function
      takes fuel; [OutOfFuel] stands for a call chain that does not end.
    - Identifiers are resolved as the emitted text binds them.  The name
      [allowAdditionalProperties] is bound by the parameter list of
      [validate] only: checks pasted into [create] (the sanitizer of a
      union pastes them) read a name that nothing binds, which throws a
      [ReferenceError].  In [for (const item of item)] the loop variable
      is declared, not yet initialised, while the iterated expression is
      evaluated, which throws a [ReferenceError] too; so does the loop
      over the keys of an object whose local is named [key], and the one
      of an object whose local is named [allowedKeys] goes over the keys
      of the set.  A name that the map does not hold is bound by the
      emitted module, by the host, or by nothing.  The other ways in
      which a name of the map can be captured are not followed: the
      statements that depend on them assume [hygienic].
    - The emitted module is assumed to parse, as [generate] hands it to
      the formatter: property and type names are identifiers, the label
      [union] is not nested in itself within one method, and the message
      emitted for a literal keeps its quotes balanced (it does for
      booleans and numbers).
    - [JSON.stringify] is a parameter of the development, for the
      literals the generator prints and for the values [fail] prints;
      [render_literal] and [render] are the ones of the examples. *)

From Stdlib Require Import String Ascii List ZArith Bool Arith Lia.
From Stdlib Require Import Decimal DecimalString.
Import ListNotations.
Local Open Scope string_scope.
Set Warnings "-register-all".

(** ** The Type model *)

(** The discriminants [kind] that occur in the sources. *)
Inductive Kind : Set :=
| KAlias | KAny | KArray | KBoolean | KLiteral | KNull | KNumber
| KObject | KString | KUndefined | KUnion.

(** [value: boolean | number | string] of a literal type. *)
Inductive Literal : Set :=
| LBoolean (b : bool)
| LNumber (n : Z)
| LString (s : string).

Record ObjectProperty_ (T : Set) : Set :=
  { type : T; required : bool }.
Arguments type {T} _.
Arguments required {T} _.

(** The shapes [generator.ts] dispatches on: one constructor per [case] of
    its [switch (type.kind)] statements, with the fields each case reads
    ([type.name], [type.type], [type.value], [type.properties],
    [type.types]). *)
Inductive Ty : Set :=
| TAlias (name : string)
| TAny
| TArray (elem : Ty)
| TBoolean
| TLiteral (value : Literal)
| TNull
| TNumber
| TObject (properties : list (string * ObjectProperty_ Ty))
| TString
| TUndefined
| TUnion (types : list Ty).

Abbreviation ObjectProperty := (ObjectProperty_ Ty).

Definition kind (t : Ty) : Kind :=
  match t with
  | TAlias _ => KAlias
  | TAny => KAny
  | TArray _ => KArray
  | TBoolean => KBoolean
  | TLiteral _ => KLiteral
  | TNull => KNull
  | TNumber => KNumber
  | TObject _ => KObject
  | TString => KString
  | TUndefined => KUndefined
  | TUnion _ => KUnion
  end.

(** The cases of [switch (type.kind)] in [generateTypeValidator] (and in
    the three other compilers), in source order; anything else reaches
    [assertNever]. *)
Definition generator_kinds : list Kind :=
  [KAlias; KAny; KArray; KBoolean; KLiteral; KNull; KNumber; KObject;
   KString; KUndefined; KUnion].

(** The variants of [export type Type] in the types module, in source
    order. *)
Definition declared_kinds : list Kind :=
  [KAlias; KAny; KBoolean; KLiteral; KNull; KNumber; KObject; KString;
   KUndefined; KUnion].

(** ** Run-time values *)

Inductive value : Set :=
| VUndefined
| VNull
| VBoolean (b : bool)
| VNumber (n : Z)
| VString (s : string)
| VArray (id : nat) (items : list value)
| VObject (id : nat) (entries : list (string * value))
| VFunction (name : string).

(** The kinds of values whose property reads go on to a prototype. *)
Inductive Class : Set :=
| CBoolean | CNumber | CString | CArray | CObject | CFunction.

Definition class_of (x : value) : option Class :=
  match x with
  | VUndefined | VNull => None
  | VBoolean _ => Some CBoolean
  | VNumber _ => Some CNumber
  | VString _ => Some CString
  | VArray _ _ => Some CArray
  | VObject _ _ => Some CObject
  | VFunction _ => Some CFunction
  end.

(** What the emitted code and the generator take from where they run:
    [toLowerCase] is the method of strings [variableNameFromPath] calls;
    [prototype c name] is the function that a read of [name] finds on the
    prototype chain of a value of class [c] ([toString], [constructor],
    [map], ...), if there is one; [global name] tells whether the host
    binds the identifier [name] ([Date], [Object], ...). *)
Record Host : Type :=
  { toLowerCase : string -> string;
    prototype : Class -> string -> option string;
    global : string -> bool }.

Inductive Thrown : Set :=
| ValidationError (message : string)
| ReferenceError (name : string)
| TypeError
| ThrownNull.

Inductive outcome (A : Type) : Type :=
| Return (a : A)
| Throw (e : Thrown)
| OutOfFuel.
Arguments Return {A} a.
Arguments Throw {A} e.
Arguments OutOfFuel {A}.

Definition bind {A B} (c : outcome A) (k : A -> outcome B) : outcome B :=
  match c with
  | Return a => k a
  | Throw e => Throw e
  | OutOfFuel => OutOfFuel
  end.

(** An outcome with the text of a [ValidationError] forgotten. *)
Definition blur {A} (o : outcome A) : outcome A :=
  match o with
  | Throw (ValidationError _) => Throw (ValidationError EmptyString)
  | _ => o
  end.

Definition map_outcome {A B} (f : A -> B) (o : outcome A) : outcome B :=
  match o with
  | Return a => Return (f a)
  | Throw e => Throw e
  | OutOfFuel => OutOfFuel
  end.

Notation "x <- c ;; k" := (bind c (fun x => k))
  (at level 61, c at next level, right associativity).
Notation "c ;;; k" := (bind c (fun _ => k))
  (at level 61, right associativity).

(** [i.toString(10)] *)
Definition toString (i : nat) : string :=
  NilEmpty.string_of_uint (Nat.to_uint i).

(** [path.join(".")] *)
Definition join (path : list string) : string := String.concat "." path.

Definition newline : string := String (ascii_of_nat 10) EmptyString.

(** The index an array-index property key denotes. *)
Definition index_of_key (key : string) : option nat :=
  match NilEmpty.uint_of_string key with
  | Some u =>
      let n := Nat.of_uint u in
      if String.eqb (toString n) key then Some n else None
  | None => None
  end.

Fixpoint lookup {A} (key : string) (l : list (string * A)) : option A :=
  match l with
  | [] => None
  | (k, a) :: rest => if String.eqb k key then Some a else lookup key rest
  end.

(** The own property [name] of [x]. *)
Definition own_property (x : value) (name : string) : option value :=
  match x with
  | VString s =>
      if String.eqb name "length" then Some (VNumber (Z.of_nat (String.length s)))
      else match index_of_key name with
           | Some i => match String.get i s with
                       | Some c => Some (VString (String c EmptyString))
                       | None => None
                       end
           | None => None
           end
  | VArray _ items =>
      if String.eqb name "length" then Some (VNumber (Z.of_nat (List.length items)))
      else match index_of_key name with
           | Some i => nth_error items i
           | None => None
           end
  | VObject _ entries => lookup name entries
  | _ => None
  end.

(** [x["name"]]: the own property, or else what the prototype chain
    holds under the name, or else [undefined]. *)
Definition get (host : Host) (x : value) (name : string) : outcome value :=
  match class_of x with
  | None => Throw TypeError
  | Some c =>
      match own_property x name with
      | Some v => Return v
      | None =>
          match prototype host c name with
          | Some f => Return (VFunction f)
          | None => Return VUndefined
          end
      end
  end.

(** The array index a property key is, if it is one: a canonical numeral
    below [2^32 - 1]. *)
Definition array_index (key : string) : option N :=
  match NilEmpty.uint_of_string key with
  | Some u =>
      let n := N.of_uint u in
      if String.eqb (NilEmpty.string_of_uint (N.to_uint n)) key
         && N.ltb n 4294967295%N
      then Some n else None
  | None => None
  end.

Fixpoint insert_index (k : N * string) (l : list (N * string))
    : list (N * string) :=
  match l with
  | [] => [k]
  | k' :: rest =>
      if N.ltb (fst k) (fst k') then k :: l else k' :: insert_index k rest
  end.

(** The order in which the own keys of an object are listed: the array
    indices first, ascending, then the other names as they were added. *)
Definition ordered_keys (names : list string) : list string :=
  (map snd
       (fold_right insert_index []
          (flat_map (fun k => match array_index k with
                              | Some n => [(n, k)]
                              | None => []
                              end) names))
   ++ filter (fun k => match array_index k with
                       | Some _ => false
                       | None => true
                       end) names)%list.

(** [Object.keys(x)] *)
Definition keys (x : value) : outcome (list string) :=
  match x with
  | VUndefined | VNull => Throw TypeError
  | VBoolean _ | VNumber _ | VFunction _ => Return []
  | VString s => Return (map toString (seq 0 (String.length s)))
  | VArray _ items => Return (map toString (seq 0 (List.length items)))
  | VObject _ entries => Return (ordered_keys (map fst entries))
  end.

(** [typeof(x) !== 'object' || x === null], negated *)
Definition is_object (x : value) : bool :=
  match x with
  | VArray _ _ | VObject _ _ => true
  | _ => false
  end.

(** [Array.isArray(x)] *)
Definition isArray (x : value) : bool :=
  match x with
  | VArray _ _ => true
  | _ => false
  end.

Definition is_undefined (x : value) : bool :=
  match x with
  | VUndefined => true
  | _ => false
  end.

(** [x !== literal], negated *)
Definition equals_literal (x : value) (l : Literal) : bool :=
  match x, l with
  | VBoolean a, LBoolean b => Bool.eqb a b
  | VNumber a, LNumber b => Z.eqb a b
  | VString a, LString b => String.eqb a b
  | _, _ => false
  end.

(** ** Identity, shape and well-formedness *)

(** Which allocation an object or array is. *)
Definition identity (v : value) : option nat :=
  match v with
  | VArray id _ | VObject id _ => Some id
  | _ => None
  end.

(** Every object and array of [v] was allocated before [s]. *)
Fixpoint allocated (s : nat) (v : value) : bool :=
  match v with
  | VArray id items => Nat.ltb id s && forallb (allocated s) items
  | VObject id entries =>
      Nat.ltb id s && forallb (fun kv => allocated s (snd kv)) entries
  | _ => true
  end.

(** The value with the identities forgotten; two values are deeply equal
    when they agree up to identities. *)
Fixpoint erase (v : value) : value :=
  match v with
  | VArray _ items => VArray 0 (map erase items)
  | VObject _ entries =>
      VObject 0 (map (fun kv => (fst kv, erase (snd kv))) entries)
  | _ => v
  end.

Definition erase_entries (entries : list (string * value)) : list (string * value) :=
  map (fun kv => (fst kv, erase (snd kv))) entries.

Definition same (a b : value) : Prop := erase a = erase b.

Definition own_keys (v : value) : list string :=
  match v with
  | VObject _ entries => map fst entries
  | _ => []
  end.

Fixpoint distinct (names : list string) : bool :=
  match names with
  | [] => true
  | n :: rest => negb (existsb (String.eqb n) rest) && distinct rest
  end.

(** A [Record<string, ObjectProperty>] has each key once. *)
Fixpoint well_formed (t : Ty) : bool :=
  match t with
  | TArray elem => well_formed elem
  | TObject properties =>
      distinct (map fst properties)
      && forallb (fun p => well_formed (type (snd p))) properties
  | TUnion members => forallb well_formed members
  | _ => true
  end.

Definition well_formed_types (types : list (string * Ty)) : bool :=
  forallb (fun nt => well_formed (snd nt)) types.


(** A declared property is copied when it is required or when the input
    holds something other than [undefined] under its name. *)
Definition copied (p : ObjectProperty) (x : value) : bool :=
  required p || negb (is_undefined x).

(** ** The emitted code *)

(** How the text being run refers to the value it checks: the parameter
    [__value__]; a text that reads the identifier [item] (the loop
    variable, or an accessor [item["name"]] on a local of that name); or
    an accessor [local["name"]] on another local. *)
Inductive ValueExpr : Set :=
| EValue
| EItem
| EAccessor.

(** What the identifier [allowAdditionalProperties] denotes where the
    emitted statements stand: inside [validate] it is the destructured
    option, inside [create] nothing binds it. *)
Inductive Scope : Set :=
| InValidate (allowAdditionalProperties : option bool)
| InCreate.

Definition read_allowAdditionalProperties (scope : Scope) : outcome (option bool) :=
  match scope with
  | InValidate a => Return a
  | InCreate => Throw (ReferenceError "allowAdditionalProperties")
  end.

(** [!allowAdditionalProperties] *)
Definition falsy (a : option bool) : bool :=
  match a with
  | Some true => false
  | _ => true
  end.

Record ErrorCatcher : Set := { error : string }.

(** [createErrorCatcher()] *)
Definition createErrorCatcher : ErrorCatcher := {| error := EmptyString |}.

Record ValidateOptions : Set :=
  { errorCatcher : option ErrorCatcher;
    allowAdditionalProperties : option bool }.

(** [= {}] *)
Definition no_options : ValidateOptions :=
  {| errorCatcher := None; allowAdditionalProperties := None |}.

(** [for (const x of xs) { body }] *)
Fixpoint for_of {A} (body : A -> outcome unit) (xs : list A) : outcome unit :=
  match xs with
  | [] => Return tt
  | x :: rest => body x ;;; for_of body rest
  end.

(** The members of a union, each in its own [try]: the first that
    completes leaves the labelled block, a [ValidationError] is kept in
    [error] and the next member is tried, anything else is thrown again;
    after the last member, [throw error]. *)
Fixpoint try_members (member : nat -> Ty -> outcome unit)
    (i : nat) (error : option string) (types : list Ty) : outcome unit :=
  match types with
  | [] =>
      match error with
      | Some message => Throw (ValidationError message)
      | None => Throw ThrownNull
      end
  | subtype :: rest =>
      match member i subtype with
      | Return _ => Return tt
      | Throw (ValidationError message) =>
          try_members member (S i) (Some message) rest
      | Throw e => Throw e
      | OutOfFuel => OutOfFuel
      end
  end.

(** The body of [validate] around the emitted statements:
    [try { ...; return true } catch (e) { ... }]. *)
Definition validate_body (statements : outcome unit)
    (errorCatcher : option ErrorCatcher) : outcome bool * option ErrorCatcher :=
  match statements with
  | Return _ => (Return true, errorCatcher)
  | Throw (ValidationError message) =>
      match errorCatcher with
      | Some _ => (Return false, Some {| error := message |})
      | None => (Throw (ValidationError message), None)
      end
  | Throw e => (Throw e, errorCatcher)
  | OutOfFuel => (OutOfFuel, errorCatcher)
  end.

(** The sanitizer allocates: a computation takes the next free identity and
    gives back the next one along with its outcome. *)
Definition M (A : Type) : Type := nat -> outcome A * nat.

Definition ret {A} (a : A) : M A := fun s => (Return a, s).

Definition lift {A} (c : outcome A) : M A := fun s => (c, s).

Definition bindM {A B} (c : M A) (k : A -> M B) : M B :=
  fun s =>
    match c s with
    | (Return a, s') => k a s'
    | (Throw e, s') => (Throw e, s')
    | (OutOfFuel, s') => (OutOfFuel, s')
    end.

(** [{}] and the array [map] builds: a new identity. *)
Definition alloc : M nat := fun s => (Return s, S s).

Notation "x <~ c ;; k" := (bindM c (fun x => k))
  (at level 61, c at next level, right associativity).

(** [xs.map(item => f(item))] after the result array is allocated. *)
Fixpoint mapM {A B} (f : A -> M B) (xs : list A) : M (list B) :=
  match xs with
  | [] => ret []
  | x :: rest => y <~ f x ;; ys <~ mapM f rest ;; ret (y :: ys)
  end.

(** [o["name"] = x] on the entries of a plain object. *)
Fixpoint set (name : string) (x : value) (entries : list (string * value))
    : list (string * value) :=
  match entries with
  | [] => [(name, x)]
  | (k, y) :: rest =>
      if String.eqb k name then (k, x) :: rest else (k, y) :: set name x rest
  end.

(** The statements emitted for the properties of an object, run in order on
    the entries of the object under construction. *)
Fixpoint assign_properties (statement : string * ObjectProperty -> list (string * value) -> M (list (string * value)))
    (properties : list (string * ObjectProperty))
    (sanitized : list (string * value)) : M (list (string * value)) :=
  match properties with
  | [] => ret sanitized
  | p :: rest =>
      sanitized' <~ statement p sanitized ;;
      assign_properties statement rest sanitized'
  end.

(** The members of a union in the sanitizer, each in its own [try]: the
    first whose statements and [return] complete gives the result, a
    [ValidationError] is ignored and the next member is tried, anything
    else is thrown again; after the last member the function ends without
    [return]. *)
Fixpoint sanitize_members (member : nat -> Ty -> M value)
    (i : nat) (types : list Ty) : M value :=
  match types with
  | [] => ret VUndefined
  | subtype :: rest =>
      fun s =>
        match member i subtype s with
        | (Return r, s') => (Return r, s')
        | (Throw (ValidationError _), s') =>
            sanitize_members member (S i) rest s'
        | (Throw e, s') => (Throw e, s')
        | (OutOfFuel, s') => (OutOfFuel, s')
        end
  end.

(** ** Further notions for the properties of the emitted code *)

(** The checks completed, or failed with a [ValidationError]. *)
Definition clean (o : outcome unit) : Prop :=
  o = Return tt \/ exists m, o = Throw (ValidationError m).

(** [m] begins with [p]. *)
Definition begins_with (p m : string) : Prop := exists rest, m = p ++ rest.

(** No alias in the type. *)
Fixpoint alias_free (t : Ty) : bool :=
  match t with
  | TAlias _ => false
  | TArray elem => alias_free elem
  | TObject properties => forallb (fun p => alias_free (type (snd p))) properties
  | TUnion members => forallb alias_free members
  | _ => true
  end.

(** The number of objects and arrays of a value, and the size of a type. *)
Fixpoint size (v : value) : nat :=
  match v with
  | VArray _ items => S (list_sum (map size items))
  | VObject _ entries => S (list_sum (map (fun kv => size (snd kv)) entries))
  | _ => 0
  end.

Fixpoint type_size (t : Ty) : nat :=
  match t with
  | TArray elem => S (type_size elem)
  | TObject properties =>
      S (list_sum (map (fun p => type_size (type (snd p))) properties))
  | TUnion members => S (list_sum (map type_size members))
  | _ => 0
  end.

(** [variableNameFromPath(path)]; [toLowerCase] is the method of strings. *)
Definition variableNameFromPath (toLowerCase : string -> string)
    (path : list string) : string :=
  let name := String.concat "_" path in
  match name with
  | EmptyString => toLowerCase EmptyString
  | String c rest => toLowerCase (String c EmptyString) ++ rest
  end.

(** ** The names of the emitted text *)

(** The paths of the object types inside [t], as the templates extend
    [path]: at each of them the validator declares the local
    [variableNameFromPath(path)], and the sanitizer that local and the
    one with [_sanitized] appended. *)
Fixpoint object_paths (t : Ty) (path : list string) : list (list string) :=
  match t with
  | TArray elem => object_paths elem (path ++ ["__item__"])%list
  | TObject properties =>
      path :: flat_map (fun p => object_paths (type (snd p)) (path ++ [fst p])%list)
                       properties
  | TUnion members =>
      (fix each (i : nat) (members : list Ty) : list (list string) :=
         match members with
         | [] => []
         | m :: rest =>
             (object_paths m (path ++ [toString i]) ++ each (S i) rest)%list
         end) 0 members
  | _ => []
  end.

Definition locals (toLowerCase : string -> string) (t : Ty) (path : list string)
    : list string :=
  flat_map (fun p => let l := variableNameFromPath toLowerCase p in
                     [l; l ++ "_sanitized"])
           (object_paths t path).

(** The property names declared inside [t], and the names [t] refers to. *)
Fixpoint declared_names (t : Ty) : list string :=
  match t with
  | TArray elem => declared_names elem
  | TObject properties =>
      flat_map (fun p => fst p :: declared_names (type (snd p))) properties
  | TUnion members => flat_map declared_names members
  | _ => []
  end.

Fixpoint aliases (t : Ty) : list string :=
  match t with
  | TAlias name => [name]
  | TArray elem => aliases elem
  | TObject properties => flat_map (fun p => aliases (type (snd p))) properties
  | TUnion members => flat_map aliases members
  | _ => []
  end.

Definition mem (name : string) (names : list string) : bool :=
  existsb (String.eqb name) names.

(** The identifiers that the emitted module binds at its top or in the
    bodies of [validate], [create] and [fail], or reads from the host. *)
Definition emitted_names : list string :=
  ["__value__"; "errorCatcher"; "allowAdditionalProperties"; "allowedKeys";
   "key"; "item"; "error"; "e"; "fail"; "message"; "value"; "debugValue";
   "ValidationError"; "createErrorCatcher"; "ErrorCatcher"; "Type";
   "ValidateOptions"; "Schema"; "ObjectSchemaProperty";
   "undefined"; "Array"; "Object"; "Set"; "JSON"; "Error"].

(** The locals of [t] at [path] clash with nothing the text around them
    reads: they differ from each other, from the emitted names and from
    the names in [reads]. *)
Definition names_apart (toLowerCase : string -> string) (reads : list string)
    (t : Ty) (path : list string) : bool :=
  forallb (fun l => negb (mem l (emitted_names ++ reads)%list))
          (locals toLowerCase t path).

(** No object type inside [t] has the local [key]. *)
Definition keyless (toLowerCase : string -> string) (t : Ty) (path : list string)
    : bool :=
  forallb (fun p => negb (String.eqb (variableNameFromPath toLowerCase p) "key"))
          (object_paths t path).

(** The parameters and loop variables in whose scope the emitted checks
    stand. *)
Definition parameters : list string :=
  ["__value__"; "errorCatcher"; "allowAdditionalProperties"; "allowedKeys";
   "key"; "item"; "e"].

(** No name of the type map is captured in the emitted module: the locals
    of every type differ from each other and from every identifier the
    module reads, no type is named like something the module declares or
    takes from the host, no property is named [__proto__] (an assignment
    to it sets no own property), and no alias refers to a parameter. *)
Definition hygienic (toLowerCase : string -> string)
    (types : list (string * Ty)) : bool :=
  let reads := (map fst types ++ flat_map (fun nt => aliases (snd nt)) types)%list in
  distinct (map fst types)
  && forallb (fun nt =>
                negb (mem (fst nt) emitted_names)
                && distinct (locals toLowerCase (snd nt) [fst nt])
                && names_apart toLowerCase reads (snd nt) [fst nt]
                && negb (mem "__proto__" (declared_names (snd nt)))
                && negb (existsb (fun a => mem a parameters) (aliases (snd nt))))
             types.

(** No property declared inside [t], or in the map, is named like a
    member that plain objects inherit. *)
Definition names_own (host : Host) (t : Ty) : bool :=
  forallb (fun n => match prototype host CObject n with
                    | Some _ => false
                    | None => true
                    end)
          (declared_names t).

Definition own_names (host : Host) (types : list (string * Ty)) : bool :=
  forallb (fun nt => names_own host (snd nt)) types.

(** ** Unions that [create] can sanitize *)

(** No object type and no alias inside [t]: the checks of [t] do not read
    [allowAdditionalProperties]. *)
Fixpoint scope_free (t : Ty) : bool :=
  match t with
  | TAlias _ | TObject _ => false
  | TArray elem => scope_free elem
  | TUnion members => forallb scope_free members
  | _ => true
  end.

(** Every union inside [t] has members of that kind only. *)
Fixpoint unions_scope_free (t : Ty) : bool :=
  match t with
  | TArray elem => unions_scope_free elem
  | TObject properties =>
      forallb (fun p => unions_scope_free (type (snd p))) properties
  | TUnion members => forallb scope_free members
  | _ => true
  end.

(** [names] are types of the map whose unions are of that kind and which
    refer to each other only. *)
Definition closed (types : list (string * Ty)) (names : list string) : bool :=
  forallb (fun n => match lookup n types with
                    | Some t =>
                        unions_scope_free t
                        && forallb (fun a => mem a names) (aliases t)
                    | None => false
                    end)
          names.

(** ** Data of the examples *)

(** A host: upper-case ASCII letters are lowered; objects inherit the
    members of [Object.prototype], arrays those of [Array.prototype] as
    well (the accessor [__proto__] is no function and is left out);
    some of the standard globals. *)
Definition lower (c : ascii) : ascii :=
  let n := nat_of_ascii c in
  if Nat.leb 65 n && Nat.leb n 90 then ascii_of_nat (n + 32) else c.

Fixpoint lower_case (s : string) : string :=
  match s with
  | EmptyString => EmptyString
  | String c rest => String (lower c) (lower_case rest)
  end.

Definition Object_prototype : list string :=
  ["constructor"; "hasOwnProperty"; "isPrototypeOf"; "propertyIsEnumerable";
   "toLocaleString"; "toString"; "valueOf"; "__defineGetter__";
   "__defineSetter__"; "__lookupGetter__"; "__lookupSetter__"].

Definition Array_prototype : list string :=
  ["at"; "concat"; "copyWithin"; "entries"; "every"; "fill"; "filter"; "find";
   "findIndex"; "findLast"; "findLastIndex"; "flat"; "flatMap"; "forEach";
   "includes"; "indexOf"; "join"; "keys"; "lastIndexOf"; "map"; "pop"; "push";
   "reduce"; "reduceRight"; "reverse"; "shift"; "slice"; "some"; "sort";
   "splice"; "toReversed"; "toSorted"; "toSpliced"; "unshift"; "values";
   "with"].

Definition node : Host :=
  {| toLowerCase := lower_case;
     prototype := fun c name =>
       match c with
       | CArray =>
           if mem name Array_prototype then Some ("Array.prototype." ++ name)
           else if mem name Object_prototype then Some ("Object.prototype." ++ name)
           else None
       | _ =>
           if mem name Object_prototype then Some ("Object.prototype." ++ name)
           else None
       end;
     global := fun name =>
       mem name ["globalThis"; "undefined"; "NaN"; "Infinity"; "Object";
                 "Function"; "Array"; "Boolean"; "Number"; "String"; "Symbol";
                 "BigInt"; "Date"; "RegExp"; "Error"; "TypeError";
                 "ReferenceError"; "RangeError"; "SyntaxError"; "Promise";
                 "Map"; "Set"; "WeakMap"; "WeakSet"; "JSON"; "Math"; "Reflect";
                 "Proxy"; "parseInt"; "parseFloat"; "isNaN"; "isFinite";
                 "console"; "process"; "require"; "module"; "exports"] |}.


(** [JSON.stringify(value)] on literals and [JSON.stringify(value, null,
    2)] on the values of the examples, as [fail] prints them: [undefined]
    when the value has no JSON text.  The general statements hold for
    every rendering. *)
Definition char (n : nat) : string := String (ascii_of_nat n) EmptyString.

Definition hex (n : nat) : string :=
  match n with
  | 10 => "a" | 11 => "b" | 12 => "c" | 13 => "d" | 14 => "e" | 15 => "f"
  | _ => toString n
  end.

Definition escape_char (c : ascii) : string :=
  let n := nat_of_ascii c in
  if Nat.eqb n 34 then char 92 ++ char 34
  else if Nat.eqb n 92 then char 92 ++ char 92
  else if Nat.eqb n 8 then char 92 ++ "b"
  else if Nat.eqb n 12 then char 92 ++ "f"
  else if Nat.eqb n 10 then char 92 ++ "n"
  else if Nat.eqb n 13 then char 92 ++ "r"
  else if Nat.eqb n 9 then char 92 ++ "t"
  else if Nat.ltb n 32 then char 92 ++ "u00" ++ hex (n / 16) ++ hex (n mod 16)
  else String c EmptyString.

Fixpoint escape (s : string) : string :=
  match s with
  | EmptyString => EmptyString
  | String c rest => escape_char c ++ escape rest
  end.

Definition quoted (s : string) : string := char 34 ++ escape s ++ char 34.

Definition render_literal (l : Literal) : string :=
  match l with
  | LBoolean true => "true"
  | LBoolean false => "false"
  | LNumber n => NilZero.string_of_int (Z.to_int n)
  | LString s => quoted s
  end.

(** One array or object, its lines indented by two more spaces. *)
Definition block (indent l r : string) (lines : list string) : string :=
  match lines with
  | [] => l ++ r
  | _ =>
      l ++ newline ++ indent ++ "  "
        ++ String.concat ("," ++ newline ++ indent ++ "  ") lines
        ++ newline ++ indent ++ r
  end.

Fixpoint render_json (indent : string) (v : value) : option string :=
  match v with
  | VUndefined | VFunction _ => None
  | VNull => Some "null"
  | VBoolean true => Some "true"
  | VBoolean false => Some "false"
  | VNumber n => Some (NilZero.string_of_int (Z.to_int n))
  | VString s => Some (quoted s)
  | VArray _ items =>
      Some (block indent "[" "]"
              (map (fun x => match render_json (indent ++ "  ") x with
                             | Some t => t
                             | None => "null"
                             end) items))
  | VObject _ entries =>
      let rendered :=
        map (fun kv => (fst kv, render_json (indent ++ "  ") (snd kv))) entries in
      Some (block indent "{" "}"
              (flat_map (fun k => match lookup k rendered with
                                  | Some (Some t) => [quoted k ++ ": " ++ t]
                                  | _ => []
                                  end)
                        (ordered_keys (map fst entries))))
  end.

Definition render (v : value) : string :=
  match render_json EmptyString v with
  | Some t => t
  | None => "undefined"
  end.

Definition required_ (t : Ty) : ObjectProperty := {| type := t; required := true |}.
Definition optional_ (t : Ty) : ObjectProperty := {| type := t; required := false |}.

(** [union(boolean, number)], [object{a: required, b: optional}], a union
    with an object member, an array and an array of arrays. *)
Definition example_types : list (string * Ty) :=
  [("BooleanOrNumber", TUnion [TBoolean; TNumber]);
   ("AB", TObject [("a", required_ TNumber); ("b", optional_ TNumber)]);
   ("ObjectOrString", TUnion [TObject [("a", required_ TNumber)]; TString]);
   ("Numbers", TArray TNumber);
   ("Grid", TArray (TArray TNumber))].

(** [{a: 1, b: 2, c: 3}], [{a: 1, b: undefined}], [{a: 1}] *)
Definition abc : value :=
  VObject 0 [("a", VNumber 1); ("b", VNumber 2); ("c", VNumber 3)].
Definition a_b_undefined : value :=
  VObject 0 [("a", VNumber 1); ("b", VUndefined)].
Definition a_only : value := VObject 0 [("a", VNumber 1)].

Definition with_catcher (a : option bool) : ValidateOptions :=
  {| errorCatcher := Some createErrorCatcher; allowAdditionalProperties := a |}.

(** [{ allowAdditionalProperties: true }], as [create] passes it. *)
Definition allowing : ValidateOptions :=
  {| errorCatcher := None; allowAdditionalProperties := Some true |}.

(** Named types that refer to each other, an empty union, and an alias of
    a name that is not in the map. *)
Definition more_types : list (string * Ty) :=
  [("Id", TAlias "AB");
   ("AB", TObject [("a", required_ TNumber); ("b", optional_ TNumber)]);
   ("List", TUnion [TNull;
                    TObject [("head", required_ TNumber);
                             ("tail", required_ (TAlias "List"))]]);
   ("Texts", TUnion [TString; TArray TString]);
   ("Dangling", TAlias "Missing")].

(** Properties named like members that every object inherits; the
    objects [{toString: undefined}] and [{}]. *)
Definition inherited_types : list (string * Ty) :=
  [("Text", TObject [("toString", optional_ TString)]);
   ("Made", TObject [("constructor", optional_ TAny)])].

Definition explicit : value := VObject 0 [("toString", VUndefined)].
Definition empty : value := VObject 0 [].

(** [{head: 1, tail: {head: 2, tail: null}}] *)
Definition one_two : value :=
  VObject 0 [("head", VNumber 1);
             ("tail", VObject 1 [("head", VNumber 2); ("tail", VNull)])].

Section Generated.

(** Where the generator and the emitted module run. *)
Variable host : Host.

(** [JSON.stringify(type.value)] and the [debugValue] computed by [fail]
    ([JSON.stringify(value, null, 2)], or the value coerced to a string). *)
Variable JSON_stringify : Literal -> string.
Variable debugValue : value -> string.

(** The argument of [generate]. *)
Variable types : list (string * Ty).

(** [function fail(message, value): never] *)
Definition fail {A} (message : string) (v : value) : outcome A :=
  Throw (ValidationError (message ++ ":" ++ newline ++ debugValue v)).

(** The declarations of the emitted module besides the named types. *)
Definition module_names : list string :=
  ["fail"; "ValidationError"; "createErrorCatcher"].

(** The identifier [name], which is no type of the map, is bound all the
    same: by the emitted module or by the host.  What it is bound to has
    no method [validate] or [create]. *)
Definition bound_elsewhere (name : string) : bool :=
  mem name ("undefined" :: module_names) || global host name.

(** [Name.validate(...)] or [Name.create(...)] when the map has no type
    [Name]: a [ReferenceError] when nothing binds the identifier, a
    [TypeError] when the call is made on what the module or the host
    binds it to. *)
Definition unbound {A} (name : string) : outcome A :=
  if bound_elsewhere name then Throw TypeError
  else Throw (ReferenceError name).

(** [Name.validate(x, { allowAdditionalProperties })] in the emitted
    checks when the map has no type [Name]: the arguments are evaluated
    before the call is made, and after the method is read off [Name].
    [Name] is taken to be none of the [parameters]. *)
Definition call_unbound (scope : Scope) (name : string) : outcome unit :=
  if String.eqb name "undefined" then Throw TypeError
  else if bound_elsewhere name then
    read_allowAdditionalProperties scope ;;; Throw TypeError
  else Throw (ReferenceError name).

Arguments unbound : simpl never.
Arguments call_unbound : simpl never.

(** [const local = x; if (!allowAdditionalProperties) { const allowedKeys
    = new Set([...]); for (const key of Object.keys(local)) if
    (!allowedKeys.has(key)) fail(...) }], where [local] is
    [variableNameFromPath(path)].  When the local is itself named [key],
    the loop reads its own variable before it is initialised; when it is
    named [allowedKeys], the loop goes over the keys of the set, which
    has none. *)
Definition check_keys (a : option bool) (path : list string)
    (properties : list (string * ObjectProperty)) (v : value) : outcome unit :=
  if falsy a then
    let local := variableNameFromPath (toLowerCase host) path in
    if String.eqb local "key" then Throw (ReferenceError "key")
    else if String.eqb local "allowedKeys" then Return tt
    else
      ks <- keys v ;;
      for_of (fun key =>
                if existsb (String.eqb key) (map fst properties) then Return tt
                else fail (join path ++ " does not allow key " ++ key) v)
             ks
  else Return tt.

(** The text [local["name"]] for a property of the object at [path]. *)
Definition accessor (path : list string) : ValueExpr :=
  if String.eqb (variableNameFromPath (toLowerCase host) path) "item"
  then EItem else EAccessor.

(** The checks emitted for one declared property; [checks] stands for the
    statements emitted for its type. *)
Definition check_property
    (checks : Ty -> ValueExpr -> list string -> value -> outcome unit)
    (path : list string) (v : value) (p : string * ObjectProperty) : outcome unit :=
  x <- get host v (fst p) ;;
  if required (snd p) then
    checks (type (snd p)) (accessor path) (path ++ [fst p])%list x
  else if negb (is_undefined x) then
    checks (type (snd p)) (accessor path) (path ++ [fst p])%list x
  else Return tt.

(** [generateTypeValidator(type, value, path)], run with [value] denoting
    [v]; [validate] is the method of the named binding. *)
Fixpoint generateTypeValidator (fuel : nat) (scope : Scope) (t : Ty)
    (e : ValueExpr) (path : list string) (v : value) {struct fuel} : outcome unit :=
  match fuel with
  | O => OutOfFuel
  | S fuel' =>
      match t with
      | TAlias name =>
          match lookup name types with
          | None => call_unbound scope name
          | Some _ =>
              a <- read_allowAdditionalProperties scope ;;
              fst (validate fuel' name v
                     {| errorCatcher := None; allowAdditionalProperties := a |}) ;;;
              Return tt
          end
      | TAny => Return tt
      | TArray elem =>
          match v with
          | VArray _ items =>
              match e with
              | EItem => Throw (ReferenceError "item")
              | _ =>
                  for_of (generateTypeValidator fuel' scope elem EItem
                            (path ++ ["__item__"])) items
              end
          | _ => fail (join path ++ " is not an array") v
          end
      | TBoolean =>
          match v with
          | VBoolean _ => Return tt
          | _ => fail (join path ++ " is not a boolean") v
          end
      | TLiteral l =>
          if equals_literal v l then Return tt
          else fail (join path ++ " must equal " ++ JSON_stringify l) v
      | TNull =>
          match v with
          | VNull => Return tt
          | _ => fail (join path ++ " is not null") v
          end
      | TNumber =>
          match v with
          | VNumber _ => Return tt
          | _ => fail (join path ++ " is not a number") v
          end
      | TObject properties =>
          if negb (is_object v) then fail (join path ++ " is not an object") v
          else
            a <- read_allowAdditionalProperties scope ;;
            check_keys a path properties v ;;;
            for_of (check_property (generateTypeValidator fuel' scope) path v)
                   properties
      | TString =>
          match v with
          | VString _ => Return tt
          | _ => fail (join path ++ " is not a string") v
          end
      | TUndefined =>
          match v with
          | VUndefined => Return tt
          | _ => fail (join path ++ " is not undefined") v
          end
      | TUnion members =>
          try_members (fun i subtype =>
                         generateTypeValidator fuel' scope subtype e
                           (path ++ [toString i]) v)
                      0 None members
      end
  end

with validate (fuel : nat) (name : string) (v : value)
    (options : ValidateOptions) {struct fuel}
    : outcome bool * option ErrorCatcher :=
  match fuel with
  | O => (OutOfFuel, errorCatcher options)
  | S fuel' =>
      match lookup name types with
      | None => (unbound name, errorCatcher options)
      | Some t =>
          validate_body
            (generateTypeValidator fuel'
               (InValidate (allowAdditionalProperties options)) t EValue [name] v)
            (errorCatcher options)
      end
  end.

(** The statement emitted for one declared property, run on the entries of
    the object under construction; [sanitizer] stands for the expression
    emitted for its type. *)
Definition assign_property
    (sanitizer : Ty -> ValueExpr -> list string -> value -> M value)
    (path : list string) (v : value) (p : string * ObjectProperty)
    (sanitized : list (string * value)) : M (list (string * value)) :=
  x <~ lift (get host v (fst p)) ;;
  if required (snd p) then
    x' <~ sanitizer (type (snd p)) (accessor path) (path ++ [fst p])%list x ;;
    ret (set (fst p) x' sanitized)
  else if negb (is_undefined x) then
    x' <~ sanitizer (type (snd p)) (accessor path) (path ++ [fst p])%list x ;;
    ret (set (fst p) x' sanitized)
  else ret sanitized.

(** [try { checks; return sanitizer }] for one member of a union. *)
Definition sanitize_member (checks : outcome unit) (sanitizer : M value) : M value :=
  _ <~ lift checks ;; sanitizer.

(** [generateTypeSanitizer(type, value, path)], evaluated with [value]
    denoting [v]; [create] is the method of the named binding.  The
    expression always stands inside [create]. *)
Fixpoint generateTypeSanitizer (fuel : nat) (t : Ty) (e : ValueExpr)
    (path : list string) (v : value) {struct fuel} : M value :=
  match fuel with
  | O => lift OutOfFuel
  | S fuel' =>
      match t with
      | TAlias name => create fuel' name v
      | TAny => ret v
      | TArray elem =>
          match v with
          | VArray _ items =>
              id <~ alloc ;;
              items' <~ mapM (generateTypeSanitizer fuel' elem EItem
                                (path ++ ["__item__"])) items ;;
              ret (VArray id items')
          | _ => lift (Throw TypeError)
          end
      | TBoolean => ret v
      | TLiteral _ => ret v
      | TNull => ret v
      | TNumber => ret v
      | TObject properties =>
          id <~ alloc ;;
          sanitized <~
            assign_properties
              (assign_property (generateTypeSanitizer fuel') path v)
              properties [] ;;
          ret (VObject id sanitized)
      | TString => ret v
      | TUndefined => ret v
      | TUnion members =>
          sanitize_members
            (fun i subtype =>
               sanitize_member
                 (generateTypeValidator fuel' InCreate subtype e
                    (path ++ [toString i]) v)
                 (generateTypeSanitizer fuel' subtype e (path ++ [toString i]) v))
            0 members
      end
  end

with create (fuel : nat) (name : string) (v : value) {struct fuel} : M value :=
  match fuel with
  | O => lift OutOfFuel
  | S fuel' =>
      match lookup name types with
      | None => lift (unbound name)
      | Some t =>
          valid <~ lift (fst (validate fuel' name v allowing)) ;;
          if negb valid then lift (Throw (ValidationError EmptyString))
          else generateTypeSanitizer fuel' t EValue [name] v
      end
  end.


(** From [t], following aliases and the members of unions only, at most
    [k] aliases are passed before a type of another kind is reached. *)
Fixpoint resolves (k : nat) : Ty -> bool :=
  fix go (t : Ty) : bool :=
    match t with
    | TAlias name =>
        match k with
        | O => false
        | S k' =>
            match lookup name types with
            | Some t' => resolves k' t'
            | None => true
            end
        end
    | TUnion members => forallb go members
    | _ => true
    end.

(** [t] and every type inside it resolve within [k] aliases. *)
Fixpoint grounded (k : nat) (t : Ty) : bool :=
  resolves k t
  && match t with
     | TArray elem => grounded k elem
     | TObject properties => forallb (fun p => grounded k (type (snd p))) properties
     | TUnion members => forallb (grounded k) members
     | _ => true
     end.

Definition grounded_types (k : nat) : bool :=
  forallb (fun nt => grounded k (snd nt)) types.

(** The checks of [t] end on [v], given enough fuel. *)
Definition ends (v : value) (t : Ty) : Prop :=
  exists fuel, forall scope e path,
    generateTypeValidator fuel scope t e path v <> OutOfFuel.


(** The reconstruction that the specification describes, to compare
    [generateTypeSanitizer] with: [spec_sanitized s t v r] when [r] is [v]
    rebuilt along [t], every array and object that is built being new
    (its identity is [s] or later).  Primitives and [any] are returned
    unchanged; an array is a new array of the rebuilt elements; an object
    is a new object that holds, in declared order, the declared
    properties that are required or that the input holds, each rebuilt
    along its own type; an alias is rebuilt as its target, a union as one
    of its members. *)
Definition kept (v : value) (p : string * ObjectProperty) : bool :=
  match get host v (fst p) with
  | Return x => copied (snd p) x
  | _ => false
  end.

Inductive spec_sanitized (s : nat) : Ty -> value -> value -> Prop :=
| spec_alias name t v r :
    lookup name types = Some t -> spec_sanitized s t v r ->
    spec_sanitized s (TAlias name) v r
| spec_any v : spec_sanitized s TAny v v
| spec_boolean v : spec_sanitized s TBoolean v v
| spec_literal l v : spec_sanitized s (TLiteral l) v v
| spec_null v : spec_sanitized s TNull v v
| spec_number v : spec_sanitized s TNumber v v
| spec_string v : spec_sanitized s TString v v
| spec_undefined v : spec_sanitized s TUndefined v v
| spec_array elem id items id' items' :
    s <= id' ->
    Forall2 (spec_sanitized s elem) items items' ->
    spec_sanitized s (TArray elem) (VArray id items) (VArray id' items')
| spec_object properties v id' entries :
    s <= id' ->
    Forall2 (fun p kx =>
               fst kx = fst p
               /\ exists x, get host v (fst p) = Return x
                            /\ spec_sanitized s (type (snd p)) x (snd kx))
            (filter (kept v) properties) entries ->
    spec_sanitized s (TObject properties) v (VObject id' entries)
| spec_union members m v r :
    In m members -> spec_sanitized s m v r ->
    spec_sanitized s (TUnion members) v r.

(** The unions inside [t] have members without objects and aliases, and
    [t] refers to [names] only. *)
Definition within (names : list string) (t : Ty) : bool :=
  unions_scope_free t && forallb (fun a => mem a names) (aliases t).

(** ** Names that the map does not hold *)

Lemma unbound_Throw {A} name :
  exists e, @unbound A name = Throw e /\ forall m, e <> ValidationError m.
Proof.
  unfold unbound. destruct (bound_elsewhere name); eexists; split;
    try reflexivity; discriminate.
Qed.

Lemma call_unbound_Throw scope name :
  exists e, call_unbound scope name = Throw e
            /\ forall m, e <> ValidationError m.
Proof.
  unfold call_unbound. destruct (String.eqb name "undefined").
  - eexists; split; [reflexivity|discriminate].
  - destruct (bound_elsewhere name).
    + destruct scope; eexists; split; try reflexivity; discriminate.
    + eexists; split; [reflexivity|discriminate].
Qed.

Lemma call_unbound_scope name a :
  call_unbound InCreate name = call_unbound (InValidate a) name
  \/ call_unbound InCreate name
     = Throw (ReferenceError "allowAdditionalProperties").
Proof.
  unfold call_unbound. destruct (String.eqb name "undefined"); auto.
  destruct (bound_elsewhere name); auto.
Qed.

(** Closes a goal whose hypothesis has a call on an unbound name complete
    or fail with a [ValidationError]. *)
Ltac unbound_fault :=
  match goal with
  | H : context [call_unbound ?s ?n] |- _ =>
      let e := fresh "e" in let Hu := fresh "Hu" in let Hne := fresh "Hne" in
      destruct (call_unbound_Throw s n) as (e & Hu & Hne);
      rewrite Hu in H; simpl in H;
      solve [discriminate | inversion H; subst; exfalso; eapply Hne; reflexivity]
  | H : context [@unbound ?A ?n] |- _ =>
      let e := fresh "e" in let Hu := fresh "Hu" in let Hne := fresh "Hne" in
      destruct (@unbound_Throw A n) as (e & Hu & Hne);
      rewrite Hu in H; simpl in H;
      solve [discriminate | inversion H; subst; exfalso; eapply Hne; reflexivity]
  end.

(** ** Unions in the validator *)

Lemma try_members_first (member : nat -> Ty -> outcome unit) before :
  forall i error t after,
    (forall j u, nth_error before j = Some u ->
                 exists m, member (i + j) u = Throw (ValidationError m)) ->
    member (i + length before) t = Return tt ->
    try_members member i error (before ++ t :: after) = Return tt.
Proof.
  induction before as [|b before IH]; intros i error t after Hfail Hok; simpl in *.
  - rewrite Nat.add_0_r in Hok. now rewrite Hok.
  - destruct (Hfail 0 b eq_refl) as [m Hm].
    rewrite Nat.add_0_r in Hm. rewrite Hm.
    apply IH.
    + intros j u Hj. specialize (Hfail (S j) u Hj).
      now rewrite Nat.add_succ_r in Hfail.
    + now rewrite Nat.add_succ_r in Hok.
Qed.


(** A fault that is not a [ValidationError] ends the union at once. *)
Lemma try_members_fault (member : nat -> Ty -> outcome unit) before :
  forall i error t after e,
    (forall j u, nth_error before j = Some u ->
                 exists m, member (i + j) u = Throw (ValidationError m)) ->
    member (i + length before) t = Throw e ->
    (forall m, e <> ValidationError m) ->
    try_members member i error (before ++ t :: after) = Throw e.
Proof.
  induction before as [|b before IH]; intros i error t after e Hfail Hthrow Hne; simpl in *.
  - rewrite Nat.add_0_r in Hthrow. rewrite Hthrow.
    destruct e; try reflexivity. now elim (Hne message).
  - destruct (Hfail 0 b eq_refl) as [m Hm].
    rewrite Nat.add_0_r in Hm. rewrite Hm.
    apply IH; auto.
    + intros j u Hj. specialize (Hfail (S j) u Hj).
      now rewrite Nat.add_succ_r in Hfail.
    + now rewrite Nat.add_succ_r in Hthrow.
Qed.

(** ** Outcomes, loops and entries *)

Lemma blur_Return {A} (o : outcome A) (a : A) :
  blur o = Return a <-> o = Return a.
Proof. destruct o as [b|[]|]; simpl; split; intro H; try discriminate; auto. Qed.

Lemma blur_ValidationError {A} (o : outcome A) m :
  blur o = Throw (ValidationError m) -> exists m', o = Throw (ValidationError m').
Proof. destruct o as [b|[]|]; simpl; intro H; try discriminate; eauto. Qed.

Lemma blur_fail {A} m v m' v' : blur (@fail A m v) = blur (@fail A m' v').
Proof. reflexivity. Qed.

Lemma for_of_Return {A} (body : A -> outcome unit) xs :
  for_of body xs = Return tt <-> Forall (fun x => body x = Return tt) xs.
Proof.
  induction xs as [|x xs IH]; simpl.
  - split; auto.
  - split.
    + intro H. destruct (body x) as [[]| |] eqn:E; simpl in H; try discriminate.
      constructor; auto. now apply IH.
    + intro H. inversion H as [|? ? Hx Hxs]; subst. rewrite Hx. simpl. now apply IH.
Qed.

Lemma for_of_Throw {A} (body : A -> outcome unit) xs e :
  for_of body xs = Throw e -> exists x, In x xs /\ body x = Throw e.
Proof.
  induction xs as [|x xs IH]; simpl; intro H; try discriminate.
  destruct (body x) as [[]| |] eqn:E; simpl in H; try discriminate.
  - destruct (IH H) as [y [Hy Hb]]. eauto.
  - inversion H; subst. eauto.
Qed.

Lemma for_of_blur {A B} (f : A -> outcome unit) (g : B -> outcome unit)
    (h : A -> B) xs :
  (forall x, In x xs -> blur (g (h x)) = blur (f x)) ->
  blur (for_of g (map h xs)) = blur (for_of f xs).
Proof.
  induction xs as [|x xs IH]; simpl; intro H; auto.
  assert (Hx := H x (or_introl eq_refl)).
  assert (Hxs := IH (fun y Hy => H y (or_intror Hy))).
  destruct (f x) as [[]|[]|], (g (h x)) as [[]|[]|]; simpl in *;
    try discriminate; auto.
Qed.

Lemma for_of_blur_ext {A} (f g : A -> outcome unit) xs :
  (forall x, In x xs -> blur (g x) = blur (f x)) ->
  blur (for_of g xs) = blur (for_of f xs).
Proof.
  intro H. rewrite <- (map_id xs) at 1.
  apply (for_of_blur f g (fun x => x)). exact H.
Qed.

Lemma try_members_Return (member : nat -> Ty -> outcome unit) members :
  forall i error,
    try_members member i error members = Return tt ->
    exists before t after,
      members = (before ++ t :: after)%list
      /\ (forall j u, nth_error before j = Some u ->
                      exists m, member (i + j) u = Throw (ValidationError m))
      /\ member (i + length before) t = Return tt.
Proof.
  induction members as [|t members IH]; intros i error H; simpl in H.
  - destruct error; discriminate.
  - destruct (member i t) as [[]|[m| | |]|] eqn:E; try discriminate.
    + exists [], t, members. simpl. rewrite Nat.add_0_r. repeat split; auto.
      intros [|j] u Hj; discriminate.
    + destruct (IH _ _ H) as (before & t' & after & -> & Hfail & Hok).
      exists (t :: before), t', after. simpl. repeat split.
      * intros [|j] u Hj; simpl in Hj.
        -- inversion Hj; subst. rewrite Nat.add_0_r. eauto.
        -- rewrite Nat.add_succ_r. now apply Hfail.
      * now rewrite Nat.add_succ_r.
Qed.

Lemma try_members_ValidationError (member : nat -> Ty -> outcome unit) members :
  forall i error m,
    try_members member i error members = Throw (ValidationError m) ->
    forall j u, nth_error members j = Some u ->
                exists m', member (i + j) u = Throw (ValidationError m').
Proof.
  induction members as [|t members IH]; intros i error m H j u Hj.
  - destruct j; discriminate.
  - simpl in H.
    destruct (member i t) as [[]|[m0| | |]|] eqn:E; try discriminate.
    destruct j as [|j]; simpl in Hj.
    + inversion Hj; subst. rewrite Nat.add_0_r. eauto.
    + rewrite Nat.add_succ_r. eapply (IH (S i)); eauto.
Qed.

Lemma try_members_blur (m1 m2 : nat -> Ty -> outcome unit) members :
  (forall i t, In t members -> blur (m1 i t) = blur (m2 i t)) ->
  forall i e1 e2, (e1 = None <-> e2 = None) ->
    blur (try_members m1 i e1 members) = blur (try_members m2 i e2 members).
Proof.
  induction members as [|t members IH]; intros H i e1 e2 He; simpl.
  - destruct e1, e2; simpl; auto.
    + destruct He as [_ He]. now specialize (He eq_refl).
    + destruct He as [He _]. now specialize (He eq_refl).
  - assert (Ht := H i t (or_introl eq_refl)).
    destruct (m1 i t) as [[]|[]|], (m2 i t) as [[]|[]|]; simpl in *;
      try discriminate; auto.
    apply IH.
    + intros; apply H; now right.
    + split; discriminate.
Qed.

Lemma lookup_set_same name x entries :
  lookup name (set name x entries) = Some x.
Proof.
  induction entries as [|[k y] entries IH]; simpl.
  - now rewrite String.eqb_refl.
  - destruct (String.eqb k name) eqn:E; simpl; rewrite E; auto.
Qed.

Lemma lookup_set_other name x entries n :
  n <> name -> lookup n (set name x entries) = lookup n entries.
Proof.
  intro Hn. induction entries as [|[k y] entries IH]; simpl.
  - destruct (String.eqb name n) eqn:E; auto.
    apply String.eqb_eq in E. congruence.
  - destruct (String.eqb k name) eqn:E; simpl.
    + apply String.eqb_eq in E; subst.
      destruct (String.eqb name n) eqn:E'; auto.
      apply String.eqb_eq in E'. congruence.
    + now rewrite IH.
Qed.

Lemma lookup_None {A} n (l : list (string * A)) :
  lookup n l = None <-> ~ In n (map fst l).
Proof.
  induction l as [|[k a] l IH]; simpl.
  - tauto.
  - destruct (String.eqb k n) eqn:E.
    + apply String.eqb_eq in E. subst. split; [discriminate | tauto].
    + apply String.eqb_neq in E. rewrite IH. tauto.
Qed.

Lemma lookup_In {A} n (a : A) (l : list (string * A)) :
  lookup n l = Some a -> In (n, a) l.
Proof.
  induction l as [|[k b] l IH]; simpl; try discriminate.
  destruct (String.eqb k n) eqn:E.
  - apply String.eqb_eq in E. intro H; inversion H; subst. now left.
  - intro H. right. now apply IH.
Qed.

Lemma insert_index_In x k l :
  In x (insert_index k l) <-> x = k \/ In x l.
Proof.
  induction l as [|k' l IH]; simpl.
  - intuition.
  - destruct (N.ltb (fst k) (fst k')); simpl; [intuition|].
    rewrite IH. intuition.
Qed.

Lemma sorted_In x l : In x (fold_right insert_index [] l) <-> In x l.
Proof.
  induction l as [|k l IH]; simpl; [tauto|].
  rewrite insert_index_In, IH. intuition.
Qed.

(** [Object.keys] lists every own key, whatever the order. *)
Lemma ordered_keys_In k names : In k (ordered_keys names) <-> In k names.
Proof.
  unfold ordered_keys. rewrite in_app_iff, in_map_iff, filter_In. split.
  - intros [((n & k') & <- & H) | [H _]]; auto.
    apply sorted_In, in_flat_map in H. destruct H as (k0 & Hk0 & H).
    destruct (array_index k0); simpl in H; [|tauto].
    destruct H as [H|[]]. inversion H; subst. exact Hk0.
  - intro H. destruct (array_index k) as [n|] eqn:E.
    + left. exists (n, k). split; auto.
      apply sorted_In, in_flat_map. exists k. split; auto.
      rewrite E. now left.
    + right. auto.
Qed.

(** What a loop over keys comes to, up to the text of the failure. *)
Lemma for_of_keys_blur (reject : string -> outcome unit) (declared : string -> bool) ks :
  (forall k, exists m, reject k = Throw (ValidationError m)) ->
  blur (for_of (fun k => if declared k then Return tt else reject k) ks)
  = if forallb declared ks then Return tt
    else Throw (ValidationError EmptyString).
Proof.
  intro Hr. induction ks as [|k ks IH]; simpl; auto.
  destruct (declared k); simpl; auto.
  destruct (Hr k) as [m ->]. reflexivity.
Qed.

Lemma forallb_ext_In {A} (f : A -> bool) l l' :
  (forall x, In x l <-> In x l') -> forallb f l = forallb f l'.
Proof.
  intro H. destruct (forallb f l') eqn:E.
  - apply forallb_forall. intros x Hx. rewrite forallb_forall in E.
    apply E, H, Hx.
  - destruct (forallb f l) eqn:E'; auto.
    rewrite forallb_forall in E'.
    assert (forallb f l' = true); [|congruence].
    apply forallb_forall. intros x Hx. apply E', H, Hx.
Qed.

Lemma keys_set name x entries :
  forall k, In k (map fst (set name x entries)) <->
            k = name \/ In k (map fst entries).
Proof.
  induction entries as [|[k0 y] entries IH]; intro k; simpl.
  - intuition.
  - destruct (String.eqb k0 name) eqn:E; simpl.
    + apply String.eqb_eq in E. subst. intuition.
    + rewrite IH. intuition.
Qed.

Lemma distinct_NoDup names : distinct names = true <-> NoDup names.
Proof.
  induction names as [|n names IH]; simpl.
  - split; auto using NoDup_nil.
  - rewrite andb_true_iff, negb_true_iff, IH. split.
    + intros [Hn Hd]. constructor; auto.
      intro Hin. assert (existsb (String.eqb n) names = true).
      { apply existsb_exists. exists n. split; auto. apply String.eqb_refl. }
      congruence.
    + intro H. inversion H as [|? ? Hn Hd]; subst. split; auto.
      destruct (existsb (String.eqb n) names) eqn:E; auto.
      apply existsb_exists in E. destruct E as [y [Hy Hyn]].
      apply String.eqb_eq in Hyn. subst. contradiction.
Qed.

(** ** Values up to identity *)

Lemma same_refl v : same v v.
Proof. reflexivity. Qed.

Lemma same_sym a b : same a b -> same b a.
Proof. unfold same; congruence. Qed.

Lemma same_trans a b c : same a b -> same b c -> same a c.
Proof. unfold same; congruence. Qed.

Lemma is_undefined_erase v : is_undefined (erase v) = is_undefined v.
Proof. now destruct v. Qed.

Lemma is_object_erase v : is_object (erase v) = is_object v.
Proof. now destruct v. Qed.

Lemma equals_literal_erase v l : equals_literal (erase v) l = equals_literal v l.
Proof. now destruct v. Qed.

Lemma same_undefined a b : same a b -> is_undefined a = is_undefined b.
Proof.
  intro H. rewrite <- (is_undefined_erase a), <- (is_undefined_erase b).
  now rewrite H.
Qed.

Lemma lookup_erase n entries :
  lookup n (erase_entries entries) = option_map erase (lookup n entries).
Proof.
  induction entries as [|[k x] entries IH]; simpl; auto.
  destruct (String.eqb k n); auto.
Qed.

Lemma keys_erase v : keys (erase v) = keys v.
Proof.
  destruct v; simpl; auto.
  - now rewrite length_map.
  - f_equal. rewrite map_map. reflexivity.
Qed.

Lemma class_of_erase v : class_of (erase v) = class_of v.
Proof. now destruct v. Qed.

Lemma nth_error_erase i items :
  nth_error (map erase items) i = option_map erase (nth_error items i).
Proof.
  revert i. induction items as [|x items IH]; intros [|i]; simpl; auto.
Qed.

Lemma own_property_erase v n :
  own_property (erase v) n = option_map erase (own_property v n).
Proof.
  destruct v; simpl; auto.
  - destruct (String.eqb n "length"); auto.
    destruct (index_of_key n); auto.
    destruct (String.get n0 s); auto.
  - rewrite length_map.
    destruct (String.eqb n "length"); auto.
    destruct (index_of_key n); auto.
    apply nth_error_erase.
  - fold (erase_entries entries). apply lookup_erase.
Qed.

Lemma get_erase v n : get host (erase v) n = map_outcome erase (get host v n).
Proof.
  unfold get. rewrite class_of_erase, own_property_erase.
  destruct (class_of v) as [c|]; auto.
  destruct (own_property v n); simpl; auto.
  destruct (prototype host c n); auto.
Qed.

Lemma erase_set name x entries :
  erase_entries (set name x entries) = set name (erase x) (erase_entries entries).
Proof.
  induction entries as [|[k y] entries IH]; simpl; auto.
  destruct (String.eqb k name); simpl; auto. now rewrite IH.
Qed.

Lemma validate_body_blur (o o' : outcome unit) :
  blur o = blur o' ->
  blur (fst (validate_body o None)) = blur (fst (validate_body o' None)).
Proof.
  destruct o as [[]|[]|], o' as [[]|[]|]; simpl; intro H;
    try discriminate; auto; now inversion H.
Qed.

(** The checks do not look at identities: on a deeply equal value they end
    the same way, up to the text of the failure. *)
Lemma validator_validate_erase fuel :
  (forall scope t e path v,
      blur (generateTypeValidator fuel scope t e path (erase v))
      = blur (generateTypeValidator fuel scope t e path v))
  /\ (forall name v a,
         blur (fst (validate fuel name (erase v)
                      {| errorCatcher := None; allowAdditionalProperties := a |}))
         = blur (fst (validate fuel name v
                        {| errorCatcher := None; allowAdditionalProperties := a |}))).
Proof.
  induction fuel as [|fuel [IHg IHv]]; [split; reflexivity|].
  split.
  - intros scope t e path v. destruct t; simpl.
    + (* alias *)
      destruct (lookup name types); auto.
      destruct scope as [a|]; simpl; auto.
      specialize (IHv name v a).
      destruct (fst (validate fuel name (erase v) _)) as [?|[]|];
      destruct (fst (validate fuel name v _)) as [?|[]|];
        simpl in *; try discriminate; auto; congruence.
    + reflexivity.
    + (* array *)
      destruct v; simpl; auto.
      destruct e; auto; apply for_of_blur; intros; apply IHg.
    + destruct v; reflexivity.
    + rewrite equals_literal_erase. destruct (equals_literal v value0); reflexivity.
    + destruct v; reflexivity.
    + destruct v; reflexivity.
    + (* object *)
      rewrite is_object_erase.
      destruct (is_object v) eqn:Hobj; simpl; auto.
      destruct scope as [a|]; simpl; auto.
      assert (Hk : blur (check_keys a path properties (erase v))
                   = blur (check_keys a path properties v)).
      { unfold check_keys. destruct (falsy a); auto. cbv zeta.
        destruct (String.eqb _ "key"); auto.
        destruct (String.eqb _ "allowedKeys"); auto.
        rewrite keys_erase. destruct (keys v) as [ks| |]; simpl; auto.
        apply for_of_blur_ext. intros k _.
        repeat match goal with
               | |- context [if ?c then _ else _] => destruct c
               end; reflexivity. }
      assert (Hp : blur (for_of (check_property (generateTypeValidator fuel (InValidate a)) path (erase v)) properties)
                   = blur (for_of (check_property (generateTypeValidator fuel (InValidate a)) path v) properties)).
      { apply for_of_blur_ext. intros p _.
        unfold check_property. rewrite get_erase.
        destruct (get host v (fst p)) as [x| |]; simpl; auto.
        rewrite is_undefined_erase.
        destruct (required (snd p)); [apply IHg|].
        destruct (is_undefined x); simpl; auto. }
      destruct (check_keys a path properties (erase v)) as [[]|[]|];
      destruct (check_keys a path properties v) as [[]|[]|];
        simpl in *; try discriminate; auto.
    + destruct v; reflexivity.
    + destruct v; reflexivity.
    + (* union *)
      apply try_members_blur; [|tauto].
      intros; apply IHg.
  - intros name v a. simpl.
    destruct (lookup name types); auto.
    apply validate_body_blur, IHg.
Qed.

Lemma validator_erase fuel scope t e path v :
  blur (generateTypeValidator fuel scope t e path (erase v))
  = blur (generateTypeValidator fuel scope t e path v).
Proof. apply validator_validate_erase. Qed.

Lemma validator_same fuel scope t e path v v' :
  same v v' ->
  blur (generateTypeValidator fuel scope t e path v)
  = blur (generateTypeValidator fuel scope t e path v').
Proof.
  intro H. rewrite <- (validator_erase fuel scope t e path v),
             <- (validator_erase fuel scope t e path v').
  now rewrite H.
Qed.

(** ** The sanitizer's loops *)

Lemma mapM_Return {A B} (f : A -> M B) xs :
  forall s ys s',
    mapM f xs s = (Return ys, s') ->
    Forall2 (fun x y => exists s1 s2, f x s1 = (Return y, s2)) xs ys.
Proof.
  induction xs as [|x xs IH]; intros s ys s' H; simpl in H.
  - inversion H; subst. constructor.
  - unfold bindM in H at 1.
    destruct (f x s) as [[y| |] s1] eqn:E; try discriminate.
    unfold bindM in H at 1.
    destruct (mapM f xs s1) as [[ys'| |] s2] eqn:E'; try discriminate.
    inversion H; subst. constructor; eauto.
Qed.

Lemma mapM_total {A B} (f : A -> M B) (R : B -> A -> Prop) xs :
  Forall (fun x => forall s, exists y s', f x s = (Return y, s') /\ R y x) xs ->
  forall s, exists ys s', mapM f xs s = (Return ys, s') /\ Forall2 R ys xs.
Proof.
  induction 1 as [|x xs Hx Hxs IH]; intro s; simpl.
  - exists [], s. split; [reflexivity | constructor].
  - destruct (Hx s) as (y & s1 & Ey & Ry).
    destruct (IH s1) as (ys & s2 & Eys & Rys).
    exists (y :: ys), s2. unfold bindM. rewrite Ey, Eys. split; auto.
Qed.

Lemma Forall2_same_erase ys xs :
  Forall2 same ys xs -> map erase ys = map erase xs.
Proof. induction 1; simpl; auto. unfold same in *. congruence. Qed.

(** What a union of the sanitizer returns: the value of the first member
    that gets as far as [return], all members before it having thrown a
    [ValidationError]; or [undefined] when every member has. *)
Lemma sanitize_members_Return (member : nat -> Ty -> M value) members :
  forall i s r s',
    sanitize_members member i members s = (Return r, s') ->
    (exists before t after sj,
        members = (before ++ t :: after)%list
        /\ (forall j u, nth_error before j = Some u ->
                        exists m sa sb, member (i + j) u sa = (Throw (ValidationError m), sb))
        /\ member (i + length before) t sj = (Return r, s'))
    \/ (r = VUndefined
        /\ forall j u, nth_error members j = Some u ->
                       exists m sa sb, member (i + j) u sa = (Throw (ValidationError m), sb)).
Proof.
  induction members as [|t members IH]; intros i s r s' H; simpl in H.
  - inversion H; subst. right. split; auto. intros [|j] u Hj; discriminate.
  - destruct (member i t s) as [[r0|[m| | |]|] s1] eqn:E; try discriminate.
    + inversion H; subst. left. exists [], t, members, s. simpl.
      rewrite Nat.add_0_r. repeat split; auto.
      intros [|j] u Hj; discriminate.
    + destruct (IH _ _ _ _ H) as
        [(before & t' & after & sj & -> & Hfail & Hok) | [-> Hall]].
      * left. exists (t :: before), t', after, sj. simpl. repeat split.
        -- intros [|j] u Hj; simpl in Hj.
           ++ inversion Hj; subst. rewrite Nat.add_0_r. eauto.
           ++ rewrite Nat.add_succ_r. now apply Hfail.
        -- now rewrite Nat.add_succ_r.
      * right. split; auto. intros [|j] u Hj; simpl in Hj.
        -- inversion Hj; subst. rewrite Nat.add_0_r. eauto.
        -- rewrite Nat.add_succ_r. now apply Hall.
Qed.

Lemma sanitize_members_first (member : nat -> Ty -> M value) before :
  forall i t after s r s',
    (forall j u sa, nth_error before j = Some u ->
                    exists m, member (i + j) u sa = (Throw (ValidationError m), sa)) ->
    member (i + length before) t s = (Return r, s') ->
    sanitize_members member i (before ++ t :: after) s = (Return r, s').
Proof.
  induction before as [|b before IH]; intros i t after s r s' Hfail Hok; simpl in *.
  - rewrite Nat.add_0_r in Hok. now rewrite Hok.
  - destruct (Hfail 0 b s eq_refl) as [m Hm].
    rewrite Nat.add_0_r in Hm. rewrite Hm.
    apply IH.
    + intros j u sa Hj. specialize (Hfail (S j) u sa Hj).
      now rewrite Nat.add_succ_r in Hfail.
    + now rewrite Nat.add_succ_r in Hok.
Qed.

Lemma sanitize_member_Return checks sanitizer s r s' :
  sanitize_member checks sanitizer s = (Return r, s') <->
  checks = Return tt /\ sanitizer s = (Return r, s').
Proof.
  unfold sanitize_member, bindM, lift.
  destruct checks as [[]| |]; split; intro H; try discriminate; try tauto.
  - now destruct H.
  - now destruct H.
Qed.

Lemma sanitize_member_ValidationError checks sanitizer s m s' :
  sanitize_member checks sanitizer s = (Throw (ValidationError m), s') ->
  checks = Throw (ValidationError m)
  \/ (checks = Return tt /\ sanitizer s = (Throw (ValidationError m), s')).
Proof.
  unfold sanitize_member, bindM, lift.
  destruct checks as [[]| |]; intro H; try discriminate; auto.
  inversion H; subst. now left.
Qed.

(** ** Checks run inside [create] *)

(** A [ValidationError] raised by checks that stand inside [create] was
    raised without reading [allowAdditionalProperties]: the same checks
    inside [validate] cannot complete. *)
Lemma create_scope_failure fs :
  forall t e path v m,
    generateTypeValidator fs InCreate t e path v = Throw (ValidationError m) ->
    forall fv a, generateTypeValidator fv (InValidate a) t e path v <> Return tt.
Proof.
  induction fs as [|fs IH]; intros t e path v m H fv a; [discriminate|].
  destruct fv as [|fv]; [discriminate|].
  destruct t; simpl in *; try discriminate.
  - destruct (lookup name types); [discriminate|unbound_fault].
  - destruct v; try discriminate.
    destruct e; try discriminate.
    + apply for_of_Throw in H. destruct H as [x [Hx Hb]].
      rewrite for_of_Return, Forall_forall. intro Hall.
      exact (IH _ _ _ _ _ Hb fv a (Hall x Hx)).
    + apply for_of_Throw in H. destruct H as [x [Hx Hb]].
      rewrite for_of_Return, Forall_forall. intro Hall.
      exact (IH _ _ _ _ _ Hb fv a (Hall x Hx)).
  - destruct v; discriminate.
  - destruct (equals_literal v value0); discriminate.
  - destruct v; discriminate.
  - destruct v; discriminate.
  - destruct (is_object v); discriminate.
  - destruct v; discriminate.
  - destruct v; discriminate.
  - intro Hok. apply try_members_Return in Hok.
    destruct Hok as (before & t & after & -> & _ & Hok).
    destruct (try_members_ValidationError _ _ _ _ _ H (length before) t) as [m' Hm'].
    { rewrite nth_error_app2, Nat.sub_diag; auto. }
    exact (IH _ _ _ _ _ Hm' fv a Hok).
Qed.

(** Checks that complete inside [create] never met an object or an alias:
    the sanitizer then returns the value, rebuilt where it is an array. *)
Lemma create_scope_sanitizer f :
  forall t e path v,
    generateTypeValidator f InCreate t e path v = Return tt ->
    forall s, exists r s',
      generateTypeSanitizer f t e path v s = (Return r, s') /\ same r v.
Proof.
  induction f as [|f IH]; intros t e path v H s; [discriminate|].
  destruct t; simpl in *; try (exists v, s; split; [reflexivity | apply same_refl]).
  - destruct (lookup name types); [discriminate|unbound_fault].
  - destruct v; try discriminate.
    assert (Hall : Forall (fun x => generateTypeValidator f InCreate t EItem
                                      (path ++ ["__item__"]) x = Return tt) items).
    { destruct e; try discriminate; now apply for_of_Return. }
    destruct (mapM_total
                (generateTypeSanitizer f t EItem (path ++ ["__item__"])) same items)
      with (s := S s) as (ys & s' & E & Hsame).
    { apply Forall_forall. intros x Hx s0. apply IH.
      rewrite Forall_forall in Hall. now apply Hall. }
    exists (VArray s ys), s'. unfold bindM, alloc, ret. rewrite E. split; auto.
    unfold same. simpl. f_equal. now apply Forall2_same_erase.
  - destruct (is_object v); discriminate.
  - apply try_members_Return in H.
    destruct H as (before & t & after & -> & Hfail & Hok).
    destruct (IH _ _ _ _ Hok s) as (r & s' & E & Hsame).
    exists r, s'. split; auto.
    apply sanitize_members_first.
    + intros j u sa Hj. destruct (Hfail j u Hj) as [m Hm].
      exists m. unfold sanitize_member, bindM, lift. now rewrite Hm.
    + apply sanitize_member_Return. auto.
Qed.

(** ** The properties of a sanitized object *)

Section Properties.

Variable sanitizer : Ty -> ValueExpr -> list string -> value -> M value.
Variable path : list string.
Variable v : value.

Lemma assign_property_Return p acc s acc' s' :
  assign_property sanitizer path v p acc s = (Return acc', s') ->
  exists x, get host v (fst p) = Return x
    /\ ((copied (snd p) x = true
         /\ exists x', sanitizer (type (snd p)) (accessor path) (path ++ [fst p]) x s
                       = (Return x', s')
                       /\ acc' = set (fst p) x' acc)
        \/ (copied (snd p) x = false /\ acc' = acc /\ s' = s)).
Proof.
  unfold assign_property, bindM, lift, ret, copied.
  destruct (get host v (fst p)) as [x| |]; try discriminate.
  intro H. exists x. split; auto.
  destruct (required (snd p)); simpl.
  - left. split; auto.
    destruct (sanitizer _ _ _ x s) as [[x'| |] s1]; try discriminate.
    inversion H; subst. eauto.
  - destruct (is_undefined x); simpl in *.
    + right. inversion H; subst. auto.
    + left. split; auto.
      destruct (sanitizer _ _ _ x s) as [[x'| |] s1]; try discriminate.
      inversion H; subst. eauto.
Qed.

Lemma assign_properties_cons p properties acc s out s' :
  assign_properties (assign_property sanitizer path v) (p :: properties) acc s
  = (Return out, s') ->
  exists acc1 s1,
    assign_property sanitizer path v p acc s = (Return acc1, s1)
    /\ assign_properties (assign_property sanitizer path v) properties acc1 s1
       = (Return out, s').
Proof.
  simpl. unfold bindM at 1.
  destruct (assign_property sanitizer path v p acc s) as [[acc1| |] s1];
    try discriminate.
  eauto.
Qed.

(** A name that is not declared keeps what it had. *)
Lemma assign_properties_frame properties :
  forall acc s out s',
    assign_properties (assign_property sanitizer path v) properties acc s
    = (Return out, s') ->
    forall n, ~ In n (map fst properties) -> lookup n out = lookup n acc.
Proof.
  induction properties as [|p properties IH]; intros acc s out s' H n Hn.
  - simpl in H. inversion H; subst. reflexivity.
  - apply assign_properties_cons in H. destruct H as (acc1 & s1 & H1 & H2).
    simpl in Hn. rewrite (IH _ _ _ _ H2 n) by tauto.
    apply assign_property_Return in H1.
    destruct H1 as (x & _ & [(_ & x' & _ & ->) | (_ & -> & _)]); auto.
    apply lookup_set_other. intro; subst; tauto.
Qed.

(** A declared name holds the sanitized value of what the input has under
    it when the property is copied, and keeps what it had otherwise. *)
Lemma assign_properties_declared properties :
  NoDup (map fst properties) ->
  forall acc s out s',
    assign_properties (assign_property sanitizer path v) properties acc s
    = (Return out, s') ->
    forall p, In p properties ->
      exists x, get host v (fst p) = Return x
        /\ if copied (snd p) x
           then exists x' sa sb,
               sanitizer (type (snd p)) (accessor path) (path ++ [fst p]) x sa
               = (Return x', sb)
               /\ lookup (fst p) out = Some x'
           else lookup (fst p) out = lookup (fst p) acc.
Proof.
  induction properties as [|q properties IH]; intros Hnd acc s out s' H p Hp.
  - destruct Hp.
  - simpl in Hnd. inversion Hnd as [|? ? Hq Hnd']; subst.
    apply assign_properties_cons in H. destruct H as (acc1 & s1 & H1 & H2).
    destruct Hp as [->|Hp].
    + pose proof (assign_properties_frame _ _ _ _ _ H2 _ Hq) as Hframe.
      apply assign_property_Return in H1.
      destruct H1 as (x & Hx & [(Hc & x' & Hs & ->) | (Hc & -> & _)]);
        exists x; split; auto; rewrite Hc.
      * exists x', s, s1. split; auto.
        rewrite Hframe. apply lookup_set_same.
      * exact Hframe.
    + destruct (IH Hnd' _ _ _ _ H2 p Hp) as (x & Hx & Hrest).
      exists x. split; auto.
      destruct (copied (snd p) x); auto.
      rewrite Hrest.
      apply assign_property_Return in H1.
      destruct H1 as (y & _ & [(_ & y' & _ & ->) | (_ & -> & _)]); auto.
      apply lookup_set_other. intro E.
      apply Hq. rewrite <- E. now apply in_map.
Qed.

(** The keys of the result: those it had, and the declared names that were
    copied. *)
Lemma assign_properties_keys properties :
  forall acc s out s',
    assign_properties (assign_property sanitizer path v) properties acc s
    = (Return out, s') ->
    forall k, In k (map fst out) <->
              In k (map fst acc)
              \/ exists p x, In p properties /\ fst p = k
                             /\ get host v k = Return x /\ copied (snd p) x = true.
Proof.
  induction properties as [|q properties IH]; intros acc s out s' H k.
  - simpl in H. inversion H; subst. split; auto.
    intros [Hk | (p & x & [] & _)]; auto.
  - apply assign_properties_cons in H. destruct H as (acc1 & s1 & H1 & H2).
    rewrite (IH _ _ _ _ H2 k).
    apply assign_property_Return in H1.
    destruct H1 as (x & Hx & [(Hc & x' & Hs & ->) | (Hc & -> & _)]).
    + rewrite keys_set. split.
      * intros [[-> | Hk] | (p & y & Hp & Hk & Hy & Hcy)]; auto.
        -- right. exists q, x. simpl. auto.
        -- right. exists p, y. simpl. auto.
      * intros [Hk | (p & y & [-> | Hp] & Hk & Hy & Hcy)]; auto.
        right. exists p, y. auto.
    + split.
      * intros [Hk | (p & y & Hp & Hk & Hy & Hcy)]; auto.
        right. exists p, y. simpl. auto.
      * intros [Hk | (p & y & [-> | Hp] & Hk & Hy & Hcy)]; auto.
        -- subst k. rewrite Hx in Hy. inversion Hy; subst. congruence.
        -- right. exists p, y. auto.
Qed.

End Properties.

(** ** Reading a completed run back *)

Lemma validate_Return_true fuel name v a :
  fst (validate fuel name v
         {| errorCatcher := None; allowAdditionalProperties := a |}) = Return true
  <-> exists f t,
      fuel = S f /\ lookup name types = Some t
      /\ generateTypeValidator f (InValidate a) t EValue [name] v = Return tt.
Proof.
  split.
  - destruct fuel as [|f]; simpl; [discriminate|].
    destruct (lookup name types) as [t|] eqn:E; simpl;
      [|intro; unbound_fault].
    destruct (generateTypeValidator f (InValidate a) t EValue [name] v)
      as [[]|[]|] eqn:Ev; simpl; try discriminate.
    intros _. exists f, t. auto.
  - intros (f & t & -> & E & Ev). simpl. rewrite E. simpl. now rewrite Ev.
Qed.

Lemma validator_alias_Return f a name e path v :
  generateTypeValidator (S f) (InValidate a) (TAlias name) e path v = Return tt
  <-> fst (validate f name v
             {| errorCatcher := None; allowAdditionalProperties := a |}) = Return true.
Proof.
  destruct f as [|f0]; simpl.
  - destruct (lookup name types); split; try discriminate; intro; unbound_fault.
  - destruct (lookup name types) as [t|]; simpl;
      [|split; intro; unbound_fault].
    destruct (generateTypeValidator f0 (InValidate a) t EValue [name] v)
      as [[]|[]|]; simpl; split; try discriminate; auto.
Qed.

Lemma validator_array_Return f scope elem e path v :
  generateTypeValidator (S f) scope (TArray elem) e path v = Return tt
  <-> exists id items,
      v = VArray id items /\ e <> EItem
      /\ Forall (fun x => generateTypeValidator f scope elem EItem
                            (path ++ ["__item__"]) x = Return tt) items.
Proof.
  simpl. split.
  - destruct v; try discriminate. intro H. exists id, items.
    destruct e; try discriminate; repeat split; try discriminate;
      now apply for_of_Return.
  - intros (id & items & -> & He & Hall).
    destruct e; try congruence; now apply for_of_Return.
Qed.

Lemma validator_object_Return f properties e path v :
  generateTypeValidator (S f) (InValidate (Some true)) (TObject properties) e path v
  = Return tt
  <-> is_object v = true
      /\ Forall (fun p => check_property
                            (generateTypeValidator f (InValidate (Some true)))
                            path v p = Return tt) properties.
Proof.
  simpl. destruct (is_object v); simpl.
  - rewrite for_of_Return. tauto.
  - split; [discriminate | intros [H _]; discriminate].
Qed.

Lemma create_Return fuel name v s r s' :
  create fuel name v s = (Return r, s')
  <-> exists f t,
      fuel = S f /\ lookup name types = Some t
      /\ fst (validate f name v allowing) = Return true
      /\ generateTypeSanitizer f t EValue [name] v s = (Return r, s').
Proof.
  split.
  - destruct fuel as [|f]; simpl; [discriminate|].
    destruct (lookup name types) as [t|] eqn:E;
      [|unfold lift; intro; unbound_fault].
    unfold bindM, lift.
    destruct (fst (validate f name v _)) as [[]| |] eqn:Ev; simpl; try discriminate.
    intro H. exists f, t. auto.
  - intros (f & t & -> & E & Ev & H). simpl. rewrite E.
    unfold bindM, lift. rewrite Ev. exact H.
Qed.

Lemma sanitizer_array_Return f elem e path v s r s' :
  generateTypeSanitizer (S f) (TArray elem) e path v s = (Return r, s')
  <-> exists id items items',
      v = VArray id items /\ r = VArray s items'
      /\ mapM (generateTypeSanitizer f elem EItem (path ++ ["__item__"])) items (S s)
         = (Return items', s').
Proof.
  simpl. split.
  - destruct v; try discriminate. unfold bindM, alloc, ret.
    destruct (mapM _ items (S s)) as [[items'| |] s1] eqn:E; try discriminate.
    intro H. inversion H; subst. exists id, items, items'. auto.
  - intros (id & items & items' & -> & -> & E).
    unfold bindM, alloc, ret. now rewrite E.
Qed.

Lemma sanitizer_object_Return f properties e path v s r s' :
  generateTypeSanitizer (S f) (TObject properties) e path v s = (Return r, s')
  <-> exists sanitized,
      r = VObject s sanitized
      /\ assign_properties (assign_property (generateTypeSanitizer f) path v)
           properties [] (S s)
         = (Return sanitized, s').
Proof.
  simpl. unfold bindM, alloc, ret. split.
  - destruct (assign_properties _ properties [] (S s)) as [[sanitized| |] s1] eqn:E;
      try discriminate.
    intro H. inversion H; subst. exists sanitized. auto.
  - intros (sanitized & -> & E). now rewrite E.
Qed.

Lemma check_property_Return checks path v p :
  check_property checks path v p = Return tt
  <-> exists x, get host v (fst p) = Return x
      /\ (copied (snd p) x = true ->
          checks (type (snd p)) (accessor path) (path ++ [fst p])%list x = Return tt).
Proof.
  unfold check_property, copied.
  destruct (get host v (fst p)) as [x| |]; simpl.
  - split.
    + intro H. exists x. split; auto.
      destruct (required (snd p)); simpl; auto.
      destruct (is_undefined x); simpl; auto. discriminate.
    + intros (y & Hy & H). inversion Hy; subst.
      destruct (required (snd p)); simpl in *; auto.
      destruct (is_undefined y); simpl in *; auto.
  - split; [discriminate | intros (y & Hy & _); discriminate].
  - split; [discriminate | intros (y & Hy & _); discriminate].
Qed.

Lemma get_object id entries n :
  prototype host CObject n = None ->
  get host (VObject id entries) n
  = Return (match lookup n entries with Some x => x | None => VUndefined end).
Proof. unfold get. simpl. intros ->. now destruct (lookup n entries). Qed.

Lemma names_own_object properties :
  names_own host (TObject properties) = true ->
  forall p, In p properties ->
    prototype host CObject (fst p) = None
    /\ names_own host (type (snd p)) = true.
Proof.
  unfold names_own. simpl. rewrite forallb_forall. intros H p Hp. split.
  - specialize (H (fst p)).
    destruct (prototype host CObject (fst p)); auto.
    assert (false = true); [|discriminate].
    apply H, in_flat_map. exists p. split; auto. now left.
  - apply forallb_forall. intros n Hn. apply H, in_flat_map.
    exists p. split; auto. now right.
Qed.

Lemma names_own_member members :
  names_own host (TUnion members) = true ->
  forall m, In m members -> names_own host m = true.
Proof.
  unfold names_own. simpl. rewrite forallb_forall. intros H m Hm.
  apply forallb_forall. intros n Hn. apply H, in_flat_map. eauto.
Qed.

Lemma names_own_lookup name t :
  own_names host types = true ->
  lookup name types = Some t -> names_own host t = true.
Proof.
  unfold own_names. rewrite forallb_forall. intros H E.
  apply lookup_In in E. exact (H _ E).
Qed.

Lemma well_formed_object properties :
  well_formed (TObject properties) = true ->
  NoDup (map fst properties)
  /\ forall p, In p properties -> well_formed (type (snd p)) = true.
Proof.
  simpl. rewrite andb_true_iff, distinct_NoDup, forallb_forall. auto.
Qed.

(** Sanitizing a sanitized object again: every declared property is copied
    or left out as the first time. *)
Lemma assign_properties_again
    (san1 san2 : Ty -> ValueExpr -> list string -> value -> M value)
    path v r final properties :
  (forall n, In n (map fst properties) ->
             get host r n
             = Return (match lookup n final with Some x => x | None => VUndefined end)) ->
  (forall p x x' sa sb,
      In p properties -> get host v (fst p) = Return x -> copied (snd p) x = true ->
      san1 (type (snd p)) (accessor path) (path ++ [fst p])%list x sa = (Return x', sb) ->
      (is_undefined x = false -> is_undefined x' = false)
      /\ forall s, exists x'' s',
          san2 (type (snd p)) (accessor path) (path ++ [fst p])%list x' s = (Return x'', s')
          /\ same x'' x') ->
  NoDup (map fst properties) ->
  forall acc acc' s1 s1',
    assign_properties (assign_property san1 path v) properties acc s1
    = (Return final, s1') ->
    (forall n, In n (map fst properties) -> lookup n acc = None) ->
    erase_entries acc' = erase_entries acc ->
    forall s2, exists out' s2',
      assign_properties (assign_property san2 path r) properties acc' s2
      = (Return out', s2')
      /\ erase_entries out' = erase_entries final.
Proof.
  induction properties as [|q properties IH];
    intros Hr Hsan Hnd acc acc' s1 s1' H Hfresh Hacc s2.
  - simpl in H. inversion H; subst. exists acc', s2. auto.
  - simpl in Hnd. inversion Hnd as [|? ? Hq Hnd']; subst.
    apply assign_properties_cons in H. destruct H as (acc1 & s1a & H1 & H2).
    pose proof (assign_properties_frame _ _ _ _ _ _ _ _ H2 _ Hq) as Hframe.
    apply assign_property_Return in H1.
    destruct H1 as (x & Hx & [(Hc & x' & Hs & ->) | (Hc & -> & ->)]).
    + rewrite lookup_set_same in Hframe.
      destruct (Hsan q x x' s1 s1a (or_introl eq_refl) Hx Hc Hs) as [Hund Hagain].
      destruct (Hagain s2) as (x'' & s2a & Hs2 & Hsame).
      destruct (IH (fun n Hn => Hr n (or_intror Hn))
                   (fun p y y' sa sb Hp => Hsan p y y' sa sb (or_intror Hp)) Hnd'
                   (set (fst q) x' acc) (set (fst q) x'' acc') s1a s1' H2)
        with (s2 := s2a) as (out' & s2' & Hout & Herase).
      * intros n Hn. rewrite lookup_set_other; [apply Hfresh; now right|].
        intro; subst; contradiction.
      * rewrite !erase_set. unfold same in Hsame. now rewrite Hsame, Hacc.
      * exists out', s2'. split; auto.
        simpl. unfold bindM at 1.
        assert (E : assign_property san2 path r q acc' s2
                    = (Return (set (fst q) x'' acc'), s2a)).
        { unfold assign_property, bindM, lift, ret.
          rewrite Hr, Hframe by now left. unfold copied in Hc.
          destruct (required (snd q)); simpl in *.
          - now rewrite Hs2.
          - apply negb_true_iff in Hc. rewrite (Hund Hc). simpl. now rewrite Hs2. }
        now rewrite E.
    + rewrite (Hfresh (fst q) (or_introl eq_refl)) in Hframe.
      destruct (IH (fun n Hn => Hr n (or_intror Hn))
                   (fun p y y' sa sb Hp => Hsan p y y' sa sb (or_intror Hp)) Hnd'
                   acc acc' s1 s1' H2)
        with (s2 := s2) as (out' & s2' & Hout & Herase); auto.
      { intros n Hn. apply Hfresh. now right. }
      exists out', s2'. split; auto.
      simpl. unfold bindM at 1.
      assert (E : assign_property san2 path r q acc' s2 = (Return acc', s2)).
      { unfold assign_property, bindM, lift, ret.
        rewrite Hr, Hframe by now left. unfold copied in Hc.
        apply orb_false_iff in Hc. destruct Hc as [Hreq Hund].
        rewrite Hreq. simpl. auto. }
      now rewrite E.
Qed.

(** ** Sanitizing twice *)

Lemma well_formed_lookup name t :
  well_formed_types types = true ->
  lookup name types = Some t -> well_formed t = true.
Proof.
  unfold well_formed_types. rewrite forallb_forall. intros H E.
  apply lookup_In in E. exact (H _ E).
Qed.

(** For a value that passed the checks of [t] with additional properties
    allowed and that the sanitizer of [t] turned into [r]: [r] passes the
    same checks, [r] is [undefined] only if the value was, and the
    sanitizer turns [r] into a value deeply equal to [r]. *)
Lemma sanitized_again :
  well_formed_types types = true ->
  own_names host types = true ->
  forall fs fv t e path v s r s',
    well_formed t = true ->
    names_own host t = true ->
    generateTypeValidator fv (InValidate (Some true)) t e path v = Return tt ->
    generateTypeSanitizer fs t e path v s = (Return r, s') ->
    generateTypeValidator fv (InValidate (Some true)) t e path r = Return tt
    /\ (is_undefined v = false -> is_undefined r = false)
    /\ forall s2, exists r' s2',
        generateTypeSanitizer fs t e path r s2 = (Return r', s2') /\ same r' r.
Proof.
  intros Hwf Hown.
  induction fs as [fs IH] using lt_wf_ind.
  intros fv t e path v s r s' Ht Hn Hv Hs.
  destruct fs as [|fs]; [discriminate|].
  destruct fv as [|fv]; [discriminate|].
  assert (Hprim : generateTypeSanitizer (S fs) t e path v s = (Return v, s) ->
                  (forall x s0, generateTypeSanitizer (S fs) t e path x s0 = (Return x, s0)) ->
                  generateTypeValidator (S fv) (InValidate (Some true)) t e path r = Return tt
                  /\ (is_undefined v = false -> is_undefined r = false)
                  /\ forall s2, exists r' s2',
                      generateTypeSanitizer (S fs) t e path r s2 = (Return r', s2')
                      /\ same r' r).
  { intros E Hid. rewrite E in Hs. inversion Hs; subst.
    repeat split; auto. intro s2. exists r, s2. split; auto. apply same_refl. }
  destruct t; try (apply Hprim; reflexivity); clear Hprim.
  - (* alias *)
    apply validator_alias_Return in Hv.
    pose proof Hv as Hv0. apply validate_Return_true in Hv0.
    destruct Hv0 as (fv0 & t & -> & Et & Hv0).
    change (create fs name v s = (Return r, s')) in Hs.
    apply create_Return in Hs.
    destruct Hs as (fs0 & t' & -> & Et' & Hval & Hs).
    rewrite Et in Et'. inversion Et'; subst t'.
    apply validate_Return_true in Hval.
    destruct Hval as (fs1 & t' & -> & Et'' & Hval).
    rewrite Et in Et''. inversion Et''; subst t'.
    pose proof (well_formed_lookup _ _ Hwf Et) as Hwt.
    pose proof (names_own_lookup _ _ Hown Et) as Hnt.
    destruct (IH (S fs1) ltac:(lia) fv0 _ _ _ _ _ _ _ Hwt Hnt Hv0 Hs) as (H1 & H2 & H3).
    destruct (IH (S fs1) ltac:(lia) fs1 _ _ _ _ _ _ _ Hwt Hnt Hval Hs) as (H1' & _ & _).
    split; [|split; auto].
    + apply validator_alias_Return, validate_Return_true. exists fv0, t. auto.
    + intro s2. destruct (H3 s2) as (r' & s2' & E & Hsame).
      exists r', s2'. split; auto.
      change (create (S (S fs1)) name r s2 = (Return r', s2')).
      apply create_Return. exists (S fs1), t. repeat split; auto.
      apply validate_Return_true. exists fs1, t. auto.
  - (* array *)
    apply validator_array_Return in Hv.
    destruct Hv as (id & items & -> & He & Hall).
    apply sanitizer_array_Return in Hs.
    destruct Hs as (id' & items0 & items' & Ev & -> & Hmap).
    inversion Ev; subst id' items0. simpl in Ht.
    pose proof (mapM_Return _ _ _ _ _ Hmap) as Hrel.
    assert (Hitems : Forall (fun y =>
              generateTypeValidator fv (InValidate (Some true)) t EItem
                (path ++ ["__item__"]) y = Return tt
              /\ forall s2, exists y' s2',
                  generateTypeSanitizer fs t EItem (path ++ ["__item__"]) y s2
                  = (Return y', s2') /\ same y' y) items').
    { clear Hmap Ev. revert Hall.
      induction Hrel as [|x y xs ys (sa & sb & Hxy) Hrel IHrel]; intro Hall.
      - constructor.
      - inversion Hall as [|? ? Hx Hxs]; subst.
        constructor; [|now apply IHrel].
        destruct (IH fs ltac:(lia) fv _ _ _ _ _ _ _ Ht Hn Hx Hxy) as (H1 & _ & H3).
        auto. }
    split; [|split; auto].
    + apply validator_array_Return. exists s, items'. repeat split; auto.
      eapply Forall_impl; [|exact Hitems]. simpl. tauto.
    + intro s2.
      destruct (mapM_total
                  (generateTypeSanitizer fs t EItem (path ++ ["__item__"])) same items')
        with (s := S s2) as (ys & s2' & E & Hsame).
      { eapply Forall_impl; [|exact Hitems]. simpl. tauto. }
      exists (VArray s2 ys), s2'. split.
      * apply sanitizer_array_Return. exists s, items', ys. auto.
      * unfold same. simpl. f_equal. now apply Forall2_same_erase.
  - (* object *)
    apply validator_object_Return in Hv. destruct Hv as [Hobj Hall].
    apply sanitizer_object_Return in Hs. destruct Hs as (final & -> & Hassign).
    apply well_formed_object in Ht. destruct Ht as [Hnd Hwp].
    pose proof (names_own_object _ Hn) as Hnp.
    rewrite Forall_forall in Hall.
    assert (Hprop : forall p x x' sa sb,
               In p properties -> get host v (fst p) = Return x ->
               copied (snd p) x = true ->
               generateTypeSanitizer fs (type (snd p)) (accessor path)
                 (path ++ [fst p]) x sa = (Return x', sb) ->
               generateTypeValidator fv (InValidate (Some true)) (type (snd p))
                 (accessor path) (path ++ [fst p]) x' = Return tt
               /\ (is_undefined x = false -> is_undefined x' = false)
               /\ forall s2, exists x'' s2',
                   generateTypeSanitizer fs (type (snd p)) (accessor path)
                     (path ++ [fst p]) x' s2 = (Return x'', s2')
                   /\ same x'' x').
    { intros p x x' sa sb Hp Hx Hc Hsan.
      pose proof (Hall p Hp) as Hcheck.
      apply check_property_Return in Hcheck.
      destruct Hcheck as (y & Hy & Hcheck).
      rewrite Hx in Hy. inversion Hy; subst y.
      exact (IH fs ltac:(lia) fv _ _ _ _ _ _ _ (Hwp p Hp) (proj2 (Hnp p Hp))
               (Hcheck Hc) Hsan). }
    split; [|split; [reflexivity|]].
    + apply validator_object_Return. split; auto.
      apply Forall_forall. intros p Hp.
      apply check_property_Return. rewrite get_object by apply (Hnp p Hp).
      destruct (assign_properties_declared _ _ _ _ Hnd _ _ _ _ Hassign p Hp)
        as (x & Hx & Hcase).
      destruct (copied (snd p) x) eqn:Hc.
      * destruct Hcase as (x' & sa & sb & Hsan & ->).
        exists x'. split; auto. intros _.
        exact (proj1 (Hprop p x x' sa sb Hp Hx Hc Hsan)).
      * rewrite Hcase. simpl. exists VUndefined. split; auto.
        unfold copied in *. apply orb_false_iff in Hc. destruct Hc as [-> _].
        discriminate.
    + intro s2.
      destruct (assign_properties_again
                  (generateTypeSanitizer fs) (generateTypeSanitizer fs)
                  path v (VObject s final) final properties)
        with (acc := @nil (string * value)) (acc' := @nil (string * value))
             (s1 := S s) (s1' := s') (s2 := S s2)
        as (out' & s2' & Hout & Herase); auto.
      { intros n Hin. apply get_object. apply in_map_iff in Hin.
        destruct Hin as (p & <- & Hp). apply (Hnp p Hp). }
      { intros p x x' sa sb Hp Hx Hc Hsan.
        destruct (Hprop p x x' sa sb Hp Hx Hc Hsan) as (_ & H2 & H3). auto. }
      exists (VObject s2 out'), s2'. split.
      * apply sanitizer_object_Return. exists out'. auto.
      * unfold same. simpl. f_equal. exact Herase.
  - (* union *)
    simpl in Hs, Hv.
    apply sanitize_members_Return in Hs.
    destruct Hs as [(before & t & after & sj & -> & Hfail & Hok) | [-> Hall]].
    + apply sanitize_member_Return in Hok. destruct Hok as [Htrial Hsan].
      destruct (create_scope_sanitizer _ _ _ _ _ Htrial sj) as (r0 & s0 & E & Hsame).
      rewrite Hsan in E. inversion E; subst r0 s0.
      split; [|split].
      * apply blur_Return.
        rewrite (validator_same (S fv) _ (TUnion (before ++ t :: after)) e path r v Hsame).
        apply blur_Return. exact Hv.
      * intro Hu. now rewrite (same_undefined _ _ Hsame).
      * intro s2.
        assert (Htrial' : generateTypeValidator fs InCreate t e
                            (path ++ [toString (0 + length before)]) r = Return tt).
        { apply blur_Return. rewrite (validator_same fs _ t e _ r v Hsame).
          now apply blur_Return. }
        destruct (create_scope_sanitizer _ _ _ _ _ Htrial' s2) as (r' & s2' & E' & Hsame').
        exists r', s2'. split; auto.
        change (sanitize_members
                  (fun i subtype =>
                     sanitize_member
                       (generateTypeValidator fs InCreate subtype e (path ++ [toString i]) r)
                       (generateTypeSanitizer fs subtype e (path ++ [toString i]) r))
                  0 (before ++ t :: after) s2 = (Return r', s2')).
        apply sanitize_members_first.
        -- intros j u sa Hj. destruct (Hfail j u Hj) as (m & sa' & sb' & Hm).
           apply sanitize_member_ValidationError in Hm.
           destruct Hm as [Hm | [Hok' Hbad]].
           ++ assert (Hb : blur (generateTypeValidator fs InCreate u e
                                   (path ++ [toString (0 + j)]) r)
                           = Throw (ValidationError EmptyString)).
              { rewrite (validator_same fs _ u e _ r v Hsame), Hm. reflexivity. }
              apply blur_ValidationError in Hb. destruct Hb as [m' Hm'].
              exists m'. unfold sanitize_member, bindM, lift. now rewrite Hm'.
           ++ destruct (create_scope_sanitizer _ _ _ _ _ Hok' sa') as (? & ? & E0 & _).
              rewrite Hbad in E0. discriminate.
        -- apply sanitize_member_Return. auto.
    + exfalso. apply try_members_Return in Hv.
      destruct Hv as (before & t & after & -> & _ & Hok).
      destruct (Hall (length before) t) as (m & sa & sb & Hm).
      { rewrite nth_error_app2, Nat.sub_diag; auto. }
      apply sanitize_member_ValidationError in Hm.
      destruct Hm as [Hm | [Hok' Hbad]].
      * exact (create_scope_failure _ _ _ _ _ _ Hm _ _ Hok).
      * destruct (create_scope_sanitizer _ _ _ _ _ Hok' sa) as (? & ? & E0 & _).
        rewrite Hbad in E0. discriminate.
Qed.

Lemma create_again :
  well_formed_types types = true ->
  own_names host types = true ->
  forall fuel name v s r s',
    create fuel name v s = (Return r, s') ->
    forall s2, exists r' s2',
      create fuel name r s2 = (Return r', s2') /\ same r' r.
Proof.
  intros Hwf Hown fuel name v s r s' H s2.
  apply create_Return in H. destruct H as (f & t & -> & Et & Hval & Hs).
  pose proof Hval as Hval'. apply validate_Return_true in Hval'.
  destruct Hval' as (f0 & t' & -> & Et' & Hv).
  rewrite Et in Et'. inversion Et'; subst t'.
  destruct (sanitized_again Hwf Hown _ _ _ _ _ _ _ _ _
              (well_formed_lookup _ _ Hwf Et) (names_own_lookup _ _ Hown Et)
              Hv Hs) as (H1 & _ & H3).
  destruct (H3 s2) as (r' & s2' & E & Hsame).
  exists r', s2'. split; auto.
  apply create_Return. exists (S f0), t. repeat split; auto.
  apply validate_Return_true. exists f0, t. auto.
Qed.

(** ** [create] on an object type *)

Lemma allocated_identity s v : allocated s v = true -> identity v <> Some s.
Proof.
  destruct v; simpl; try discriminate;
    rewrite andb_true_iff, Nat.ltb_lt; intros [H _] E;
    inversion E; lia.
Qed.

Lemma create_object fuel name properties v s r s' :
  lookup name types = Some (TObject properties) ->
  create fuel name v s = (Return r, s') ->
  exists f sanitized,
    fuel = S (S f)
    /\ r = VObject s sanitized
    /\ assign_properties (assign_property (generateTypeSanitizer f) [name] v)
         properties [] (S s)
       = (Return sanitized, s').
Proof.
  intros Et H. apply create_Return in H.
  destruct H as (f & t & -> & Et' & _ & Hs).
  rewrite Et in Et'. inversion Et'; subst t.
  destruct f as [|f]; [discriminate|].
  apply sanitizer_object_Return in Hs. destruct Hs as (sanitized & -> & Hs).
  exists f, sanitized. auto.
Qed.

(** ** An optional property that holds [undefined] *)

Lemma get_explicit_undefined id before n after k :
  prototype host CObject n = None ->
  ~ In n (map fst after) ->
  get host (VObject id (before ++ (n, VUndefined) :: after)) k
  = get host (VObject id (before ++ after)) k.
Proof.
  intros Hp Hn. unfold get. simpl.
  induction before as [|[k0 x0] before IH]; simpl.
  - destruct (String.eqb n k) eqn:E; auto.
    apply String.eqb_eq in E. subst k.
    apply lookup_None in Hn. now rewrite Hn, Hp.
  - destruct (String.eqb k0 k); auto.
Qed.

Lemma for_of_ext {A} (f g : A -> outcome unit) xs :
  (forall x, f x = g x) -> for_of f xs = for_of g xs.
Proof. intro H. induction xs; simpl; auto. now rewrite H, IHxs. Qed.

Lemma assign_properties_ext
    (f g : string * ObjectProperty -> list (string * value) -> M (list (string * value)))
    properties :
  (forall p acc s, f p acc s = g p acc s) ->
  forall acc s, assign_properties f properties acc s
                = assign_properties g properties acc s.
Proof.
  intro H. induction properties as [|p properties IH]; intros acc s; simpl; auto.
  unfold bindM. rewrite H.
  destruct (g p acc s) as [[acc'| |] s1]; auto.
Qed.

Lemma check_keys_explicit_undefined a path properties id before n after :
  In n (map fst properties) ->
  blur (check_keys a path properties (VObject id (before ++ (n, VUndefined) :: after)))
  = blur (check_keys a path properties (VObject id (before ++ after))).
Proof.
  intro Hn. unfold check_keys. destruct (falsy a); auto. cbv zeta.
  destruct (String.eqb _ "key"); auto.
  destruct (String.eqb _ "allowedKeys"); auto.
  cbn [keys bind].
  rewrite !(for_of_keys_blur
              (fun key => fail (join path ++ " does not allow key " ++ key) _)
              (fun key => existsb (String.eqb key) (map fst properties)))
    by (intro k; eexists; reflexivity).
  rewrite !(forallb_ext_In _ _ _ (fun x => ordered_keys_In x _)).
  rewrite !map_app, !forallb_app. cbn [map forallb fst].
  assert (E : existsb (String.eqb n) (map fst properties) = true).
  { apply existsb_exists. exists n. split; auto. apply String.eqb_refl. }
  now rewrite E.
Qed.

Lemma validator_explicit_undefined f scope properties e path id before n after :
  prototype host CObject n = None ->
  In n (map fst properties) -> ~ In n (map fst after) ->
  blur (generateTypeValidator f scope (TObject properties) e path
          (VObject id (before ++ (n, VUndefined) :: after)))
  = blur (generateTypeValidator f scope (TObject properties) e path
            (VObject id (before ++ after))).
Proof.
  intros Hp Hn Ha. destruct f as [|f]; auto.
  cbn [generateTypeValidator is_object negb].
  destruct scope as [a|]; auto. cbn [read_allowAdditionalProperties bind].
  pose proof (check_keys_explicit_undefined a path properties id before n after Hn) as Hk.
  rewrite (for_of_ext
             (check_property (generateTypeValidator f (InValidate a)) path
                (VObject id (before ++ (n, VUndefined) :: after)))
             (check_property (generateTypeValidator f (InValidate a)) path
                (VObject id (before ++ after)))).
  - destruct (check_keys a path properties (VObject id (before ++ (n, VUndefined) :: after)))
      as [[]|[]|];
    destruct (check_keys a path properties (VObject id (before ++ after)))
      as [[]|[]|]; simpl in *; try discriminate; auto.
  - intro p. unfold check_property.
    now rewrite get_explicit_undefined.
Qed.

Lemma sanitizer_explicit_undefined f properties e path id before n after s :
  prototype host CObject n = None ->
  ~ In n (map fst after) ->
  generateTypeSanitizer f (TObject properties) e path
    (VObject id (before ++ (n, VUndefined) :: after)) s
  = generateTypeSanitizer f (TObject properties) e path
      (VObject id (before ++ after)) s.
Proof.
  intros Hp Ha. destruct f as [|f]; auto.
  cbn [generateTypeSanitizer]. unfold bindM, alloc.
  rewrite (assign_properties_ext
             (assign_property (generateTypeSanitizer f) path
                (VObject id (before ++ (n, VUndefined) :: after)))
             (assign_property (generateTypeSanitizer f) path
                (VObject id (before ++ after)))); auto.
  intros p acc s0. unfold assign_property.
  now rewrite get_explicit_undefined.
Qed.

(** ** The methods of a named binding *)

Lemma validate_entrypoint fuel name t v options :
  lookup name types = Some t ->
  let statements :=
    generateTypeValidator fuel (InValidate (allowAdditionalProperties options))
      t EValue [name] v in
  let result := validate (S fuel) name v options in
  (statements = Return tt -> result = (Return true, errorCatcher options))
  /\ (forall m, statements = Throw (ValidationError m) ->
        match errorCatcher options with
        | Some _ => result = (Return false, Some {| error := m |})
        | None => result = (Throw (ValidationError m), None)
        end)
  /\ (forall e, statements = Throw e -> (forall m, e <> ValidationError m) ->
        result = (Throw e, errorCatcher options))
  /\ (statements = OutOfFuel -> result = (OutOfFuel, errorCatcher options)).
Proof.
  intros Et statements result. subst result. simpl. rewrite Et.
  fold statements. repeat split.
  - intros ->. reflexivity.
  - intros m ->. simpl. destruct (errorCatcher options); reflexivity.
  - intros e -> He. destruct e; try reflexivity. now elim (He message).
  - intros ->. reflexivity.
Qed.

Lemma validate_true_catcher fuel name v options :
  fst (validate fuel name v options) = Return true ->
  snd (validate fuel name v options) = errorCatcher options.
Proof.
  destruct fuel as [|fuel]; simpl; [discriminate|].
  destruct (lookup name types) as [t|]; [|intro; unbound_fault].
  destruct (generateTypeValidator fuel _ t EValue [name] v) as [[]|[]|];
    simpl; try discriminate; auto.
  destruct (errorCatcher options); simpl; discriminate.
Qed.

Lemma create_validation_failure fuel name v s e :
  fst (validate fuel name v allowing) = Throw e ->
  create (S fuel) name v s = (Throw e, s).
Proof.
  simpl. destruct (lookup name types) as [t|] eqn:Et.
  - unfold bindM, lift. now intros ->.
  - destruct fuel as [|fuel]; simpl; [discriminate|]. rewrite Et. simpl.
    unfold lift, unbound. destruct (bound_elsewhere name); congruence.
Qed.


(** ** Unions *)


Lemma sanitize_members_trials (trial : nat -> Ty -> outcome unit)
    (sanitizer : nat -> Ty -> M value) :
  (forall i t s, trial i t = Return tt ->
                 exists r s', sanitizer i t s = (Return r, s')) ->
  forall members i s r s',
    sanitize_members (fun i t => sanitize_member (trial i t) (sanitizer i t))
      i members s = (Return r, s') ->
    (exists before t after,
        members = (before ++ t :: after)%list
        /\ (forall j u, nth_error before j = Some u ->
                        exists m, trial (i + j) u = Throw (ValidationError m))
        /\ trial (i + length before) t = Return tt
        /\ sanitizer (i + length before) t s = (Return r, s'))
    \/ (r = VUndefined /\ s' = s
        /\ forall j u, nth_error members j = Some u ->
                       exists m, trial (i + j) u = Throw (ValidationError m)).
Proof.
  intro Htotal.
  induction members as [|t members IH]; intros i s r s' H; simpl in H.
  - inversion H; subst. right. repeat split; auto.
    intros [|j] u Hj; discriminate.
  - destruct (sanitize_member (trial i t) (sanitizer i t) s)
      as [[r0|[m| | |]|] s1] eqn:E; try discriminate.
    + inversion H; subst. apply sanitize_member_Return in E.
      left. exists [], t, members. simpl. rewrite Nat.add_0_r.
      repeat split; try tauto.
      intros [|j] u Hj; discriminate.
    + assert (Hm : trial i t = Throw (ValidationError m) /\ s1 = s).
      { pose proof E as E'. apply sanitize_member_ValidationError in E'.
        destruct E' as [E' | [Hok Hbad]].
        - split; auto. unfold sanitize_member, bindM, lift in E.
          rewrite E' in E. now inversion E.
        - destruct (Htotal _ _ s Hok) as (? & ? & E0).
          rewrite Hbad in E0. discriminate. }
      destruct Hm as [Hm ->].
      destruct (IH _ _ _ _ H) as
        [(before & t' & after & -> & Hfail & Hok & Hsan) | (-> & -> & Hall)].
      * left. exists (t :: before), t', after. simpl.
        rewrite !Nat.add_succ_r. repeat split; auto.
        intros [|j] u Hj; simpl in Hj.
        -- inversion Hj; subst. rewrite Nat.add_0_r. eauto.
        -- rewrite Nat.add_succ_r. now apply Hfail.
      * right. repeat split; auto. intros [|j] u Hj; simpl in Hj.
        -- inversion Hj; subst. rewrite Nat.add_0_r. eauto.
        -- rewrite Nat.add_succ_r. now apply Hall.
Qed.

Lemma union_sanitizer fuel e path v :
  let trial i u :=
    generateTypeValidator fuel InCreate u e (path ++ [toString i]) v in
  let sanitizer i u :=
    generateTypeSanitizer fuel u e (path ++ [toString i]) v in
  (forall before t after s r s',
      (forall j u, nth_error before j = Some u ->
                   exists m, trial j u = Throw (ValidationError m)) ->
      trial (length before) t = Return tt ->
      sanitizer (length before) t s = (Return r, s') ->
      generateTypeSanitizer (S fuel) (TUnion (before ++ t :: after)) e path v s
      = (Return r, s'))
  /\ (forall members s r s',
        generateTypeSanitizer (S fuel) (TUnion members) e path v s = (Return r, s') ->
        (exists before t after,
            members = (before ++ t :: after)%list
            /\ (forall j u, nth_error before j = Some u ->
                            exists m, trial j u = Throw (ValidationError m))
            /\ trial (length before) t = Return tt
            /\ sanitizer (length before) t s = (Return r, s'))
        \/ (r = VUndefined /\ s' = s
            /\ forall j u, nth_error members j = Some u ->
                           exists m, trial j u = Throw (ValidationError m))).
Proof.
  intros trial sanitizer. split.
  - intros before t after s r s' Hfail Hok Hsan. simpl.
    apply sanitize_members_first.
    + intros j u sa Hj. destruct (Hfail j u Hj) as [m Hm].
      exists m. unfold sanitize_member, bindM, lift. subst trial.
      cbn [Nat.add] in *. now rewrite Hm.
    + apply sanitize_member_Return. auto.
  - intros members s r s' H. simpl in H.
    apply (sanitize_members_trials trial sanitizer) in H; auto.
    intros i t s0 Hok.
    destruct (create_scope_sanitizer _ _ _ _ _ Hok s0) as (r0 & s0' & E & _).
    eauto.
Qed.

(** ** Objects *)

Lemma create_object_spec fuel name properties v s r s' :
  lookup name types = Some (TObject properties) ->
  NoDup (map fst properties) ->
  create fuel name v s = (Return r, s') ->
  (exists sanitized, r = VObject s sanitized)
  /\ (allocated s v = true -> identity r <> identity v)
  /\ (forall k, In k (own_keys r) -> In k (map fst properties))
  /\ (forall p, In p properties ->
        exists x, get host v (fst p) = Return x
          /\ (In (fst p) (own_keys r) <-> copied (snd p) x = true)).
Proof.
  intros Et Hnd H.
  destruct (create_object _ _ _ _ _ _ _ Et H) as (f & sanitized & -> & -> & Hassign).
  repeat split.
  - eauto.
  - intros Hv E. apply (allocated_identity s v Hv). now rewrite <- E.
  - intros k Hk. simpl in Hk.
    apply (assign_properties_keys _ _ _ _ _ _ _ _ Hassign) in Hk.
    destruct Hk as [[] | (p & x & Hp & <- & _)]. now apply in_map.
  - intros p Hp.
    destruct (assign_properties_declared _ _ _ _ Hnd _ _ _ _ Hassign p Hp)
      as (x & Hx & Hcase).
    exists x. split; auto.
    destruct (copied (snd p) x) eqn:Hc.
    + split; auto. intros _.
      simpl. apply (assign_properties_keys _ _ _ _ _ _ _ _ Hassign).
      right. exists p, x. auto.
    + split; [|discriminate]. intro Hin. exfalso.
      simpl in *. apply lookup_None in Hcase. exact (Hcase Hin).
Qed.

Lemma optional_undefined_skipped checks path v (p : string * ObjectProperty) :
  required (snd p) = false ->
  get host v (fst p) = Return VUndefined ->
  check_property checks path v p = Return tt.
Proof. unfold check_property. now intros -> ->. Qed.

Lemma optional_undefined_absent fuel name properties id before n after options :
  lookup name types = Some (TObject properties) ->
  prototype host CObject n = None ->
  In n (map fst properties) -> ~ In n (map fst after) ->
  let v := VObject id (before ++ (n, VUndefined) :: after) in
  let v' := VObject id (before ++ after) in
  (fst (validate fuel name v options) = Return true
   <-> fst (validate fuel name v' options) = Return true)
  /\ forall s r s',
      create fuel name v s = (Return r, s')
      <-> create fuel name v' s = (Return r, s').
Proof.
  intros Et Hp Hn Ha v v'.
  assert (Hval : forall f o,
             fst (validate f name v o) = Return true
             <-> fst (validate f name v' o) = Return true).
  { intros f o. destruct f as [|f]; simpl; [tauto|]. rewrite Et.
    pose proof (validator_explicit_undefined f
                  (InValidate (allowAdditionalProperties o)) properties
                  EValue [name] id before n after Hp Hn Ha) as Hb.
    fold v v' in Hb.
    destruct (generateTypeValidator f _ (TObject properties) EValue [name] v)
      as [[]|[]|];
    destruct (generateTypeValidator f _ (TObject properties) EValue [name] v')
      as [[]|[]|]; simpl in *; try discriminate; try tauto;
    destruct (errorCatcher o); simpl; split; discriminate. }
  split; [apply Hval|].
  intros s r s'. rewrite !create_Return.
  split; intros (f & t & -> & Et' & Hv & Hs); exists f, t;
    repeat split; auto; try (now apply Hval);
    rewrite Et in Et'; inversion Et'; subst t.
  - unfold v, v' in *.
    now rewrite <- (sanitizer_explicit_undefined f properties EValue [name]
                      id before n after s Hp Ha).
  - unfold v, v' in *.
    now rewrite (sanitizer_explicit_undefined f properties EValue [name]
                   id before n after s Hp Ha).
Qed.

(** ** Arrays *)

Lemma array_validation fuel scope elem e path v :
  (isArray v = false ->
   generateTypeValidator (S fuel) scope (TArray elem) e path v
   = fail (join path ++ " is not an array") v)
  /\ (forall id items, v = VArray id items -> e <> EItem ->
        generateTypeValidator (S fuel) scope (TArray elem) e path v
        = for_of (generateTypeValidator fuel scope elem EItem
                    (path ++ ["__item__"])) items)
  /\ (forall id items, v = VArray id items -> e = EItem ->
        generateTypeValidator (S fuel) scope (TArray elem) e path v
        = Throw (ReferenceError "item")).
Proof.
  repeat split.
  - destruct v; simpl; try reflexivity. discriminate.
  - intros id items -> He. simpl. destruct e; congruence.
  - intros id items -> ->. reflexivity.
Qed.

(** ** More fuel *)

Lemma for_of_more {A} (f g : A -> outcome unit) xs :
  (forall x o, f x = o -> o <> OutOfFuel -> g x = o) ->
  forall o, for_of f xs = o -> o <> OutOfFuel -> for_of g xs = o.
Proof.
  intro H. induction xs as [|x xs IH]; intros o Ho Hne; simpl in *; auto.
  destruct (f x) as [[]|e|] eqn:E; simpl in Ho.
  - rewrite (H x (Return tt) E) by discriminate. simpl. now apply IH.
  - rewrite (H x (Throw e) E) by discriminate. exact Ho.
  - congruence.
Qed.

Lemma try_members_more (m1 m2 : nat -> Ty -> outcome unit) members :
  (forall i t o, m1 i t = o -> o <> OutOfFuel -> m2 i t = o) ->
  forall i error o,
    try_members m1 i error members = o -> o <> OutOfFuel ->
    try_members m2 i error members = o.
Proof.
  intro H. induction members as [|t members IH]; intros i error o Ho Hne;
    simpl in *; auto.
  destruct (m1 i t) as [[]|e|] eqn:E.
  - rewrite (H i t (Return tt) E) by discriminate. exact Ho.
  - rewrite (H i t (Throw e) E) by discriminate.
    destruct e; auto.
  - congruence.
Qed.

(** A run that ends with some fuel ends the same way with more. *)
Lemma validator_more_fuel f :
  (forall scope t e path v o,
      generateTypeValidator f scope t e path v = o -> o <> OutOfFuel ->
      forall f', f <= f' -> generateTypeValidator f' scope t e path v = o)
  /\ (forall name v options r,
         validate f name v options = r -> fst r <> OutOfFuel ->
         forall f', f <= f' -> validate f' name v options = r).
Proof.
  induction f as [|f [IHg IHv]]; split.
  - intros scope t e path v o <- Hne. now elim Hne.
  - intros name v options r <- Hne. now elim Hne.
  - intros scope t e path v o Ho Hne f' Hf'.
    destruct f' as [|f']; [lia|]. apply le_S_n in Hf'.
    destruct t; simpl in *; auto.
    + destruct (lookup name types); auto.
      destruct scope as [a|]; simpl in *; auto.
      destruct (validate f name v _) as [ob c] eqn:E.
      assert (Hob : ob <> OutOfFuel).
      { intros ->. simpl in Ho. congruence. }
      rewrite (IHv _ _ _ _ E Hob f' Hf'). exact Ho.
    + destruct v; auto. destruct e; auto;
        (eapply for_of_more; [|exact Ho|exact Hne];
         intros x o' Hx Hne'; exact (IHg _ _ _ _ _ _ Hx Hne' f' Hf')).
    + destruct (negb (is_object v)); auto.
      destruct scope as [a|]; simpl in *; auto.
      destruct (check_keys a path properties v) as [[]| |]; simpl in *; auto.
      eapply for_of_more; [|exact Ho|exact Hne].
      intros p o' Hp Hne'. unfold check_property in *.
      destruct (get host v (fst p)) as [x| |]; simpl in *; auto.
      destruct (required (snd p));
        [exact (IHg _ _ _ _ _ _ Hp Hne' f' Hf')|].
      destruct (negb (is_undefined x));
        [exact (IHg _ _ _ _ _ _ Hp Hne' f' Hf') | exact Hp].
    + eapply try_members_more; [|exact Ho|exact Hne].
      intros i t o' Hm Hne'. exact (IHg _ _ _ _ _ _ Hm Hne' f' Hf').
  - intros name v options r Hr Hne f' Hf'.
    destruct f' as [|f']; [lia|]. apply le_S_n in Hf'.
    simpl in *. destruct (lookup name types) as [t|]; auto.
    destruct (generateTypeValidator f _ t EValue [name] v) as [u|e|] eqn:E.
    + now rewrite (IHg _ _ _ _ _ _ E ltac:(discriminate) f' Hf').
    + now rewrite (IHg _ _ _ _ _ _ E ltac:(discriminate) f' Hf').
    + subst r. simpl in Hne. now elim Hne.
Qed.

Lemma validate_true_any_catcher f name v options :
  fst (validate f name v options) = Return true ->
  fst (validate f name v
         {| errorCatcher := None;
            allowAdditionalProperties := allowAdditionalProperties options |})
  = Return true.
Proof.
  destruct f as [|f]; simpl; auto.
  destruct (lookup name types) as [t|]; auto.
  destruct (generateTypeValidator f _ t EValue [name] v) as [[]|[]|];
    simpl; auto.
  destruct (errorCatcher options); simpl; discriminate.
Qed.


(** ** What [create] returns validates with no options *)

Lemma for_of_clean {A} (f g : A -> outcome unit) xs :
  (forall x o, f x = o -> clean o -> g x = o) ->
  forall o, for_of f xs = o -> clean o -> for_of g xs = o.
Proof.
  intro H. induction xs as [|x xs IH]; intros o Ho Hc; simpl in *; auto.
  destruct (f x) as [[]|e|] eqn:E; simpl in Ho.
  - rewrite (H x (Return tt) E) by (now left). simpl. now apply IH.
  - subst o. rewrite (H x (Throw e) E Hc). reflexivity.
  - subst o. destruct Hc as [Hc | [m Hc]]; discriminate.
Qed.

Lemma try_members_clean (m1 m2 : nat -> Ty -> outcome unit) members :
  (forall i t o, m1 i t = o -> clean o -> m2 i t = o) ->
  forall i error o,
    try_members m1 i error members = o -> clean o ->
    try_members m2 i error members = o.
Proof.
  intro H. induction members as [|t members IH]; intros i error o Ho Hc;
    simpl in *; auto.
  destruct (m1 i t) as [[]|e|] eqn:E.
  - rewrite (H i t (Return tt) E) by (now left). exact Ho.
  - destruct e as [m| | |].
    + rewrite (H i t _ E) by (right; eauto). now apply IH.
    + subst o. destruct Hc as [Hc | [m Hc]]; discriminate.
    + subst o. destruct Hc as [Hc | [m Hc]]; discriminate.
    + subst o. destruct Hc as [Hc | [m Hc]]; discriminate.
  - subst o. destruct Hc as [Hc | [m Hc]]; discriminate.
Qed.

(** Checks that complete or fail inside [create] did not read
    [allowAdditionalProperties]: they end the same way inside [validate],
    whatever the option is. *)
Lemma create_scope_transfer f :
  forall t e path v o,
    generateTypeValidator f InCreate t e path v = o -> clean o ->
    forall a, generateTypeValidator f (InValidate a) t e path v = o.
Proof.
  induction f as [|f IH]; intros t e path v o Ho Hc a.
  - simpl in Ho. subst o. destruct Hc as [Hc | [m Hc]]; discriminate.
  - destruct t; simpl in *; auto.
    + destruct (lookup name types).
      * subst o. destruct Hc as [Hc | [m Hc]]; discriminate.
      * exfalso. destruct (call_unbound_Throw InCreate name) as (e0 & Hu & Hne).
        rewrite Hu in Ho. subst o.
        destruct Hc as [Hc | [m Hc]]; [discriminate|].
        inversion Hc. eapply Hne; eauto.
    + destruct v; auto. destruct e; auto;
        (eapply for_of_clean; [|exact Ho|exact Hc];
         intros x o' Hx Hc'; exact (IH _ _ _ _ _ Hx Hc' a)).
    + destruct (negb (is_object v)); auto.
      subst o. destruct Hc as [Hc | [m Hc]]; discriminate.
    + eapply try_members_clean; [|exact Ho|exact Hc].
      intros i t o' Hm Hc'. exact (IH _ _ _ _ _ Hm Hc' a).
Qed.

Lemma validator_object_Return_any f a properties e path v :
  generateTypeValidator (S f) (InValidate a) (TObject properties) e path v
  = Return tt
  <-> is_object v = true
      /\ check_keys a path properties v = Return tt
      /\ Forall (fun p => check_property
                            (generateTypeValidator f (InValidate a))
                            path v p = Return tt) properties.
Proof.
  simpl. destruct (is_object v); simpl.
  - destruct (check_keys a path properties v) as [[]| |]; simpl.
    + rewrite for_of_Return. tauto.
    + split; [discriminate | intros (_ & H & _); discriminate].
    + split; [discriminate | intros (_ & H & _); discriminate].
  - split; [discriminate | intros [H _]; discriminate].
Qed.

Lemma check_keys_declared a path properties id entries :
  String.eqb (variableNameFromPath (toLowerCase host) path) "key" = false ->
  (forall k, In k (map fst entries) -> In k (map fst properties)) ->
  check_keys a path properties (VObject id entries) = Return tt.
Proof.
  intros Hkey H. unfold check_keys. destruct (falsy a); auto. cbv zeta.
  rewrite Hkey. destruct (String.eqb _ "allowedKeys"); auto. cbn [keys bind].
  apply for_of_Return, Forall_forall. intros k Hk.
  apply (proj1 (ordered_keys_In _ _)) in Hk.
  assert (E : existsb (String.eqb k) (map fst properties) = true).
  { apply existsb_exists. exists k. split; auto. apply String.eqb_refl. }
  now rewrite E.
Qed.

(** ** Names that are not captured *)

Lemma mem_In name names : mem name names = true <-> In name names.
Proof.
  unfold mem. rewrite existsb_exists. split.
  - intros (x & Hx & E). apply String.eqb_eq in E. now subst.
  - intro H. exists name. split; auto. apply String.eqb_refl.
Qed.

Lemma keyless_object properties path :
  keyless (toLowerCase host) (TObject properties) path = true ->
  String.eqb (variableNameFromPath (toLowerCase host) path) "key" = false
  /\ forall p, In p properties ->
       keyless (toLowerCase host) (type (snd p)) (path ++ [fst p]) = true.
Proof.
  unfold keyless. simpl. rewrite andb_true_iff, negb_true_iff, forallb_forall.
  intros [Hk H]. split; auto. intros p Hp.
  apply forallb_forall. intros q Hq. apply H, in_flat_map. eauto.
Qed.

Lemma names_apart_keyless reads t path :
  names_apart (toLowerCase host) reads t path = true ->
  keyless (toLowerCase host) t path = true.
Proof.
  unfold names_apart, keyless, locals. rewrite !forallb_forall.
  intros H p Hp. apply negb_true_iff.
  destruct (String.eqb _ "key") eqn:E; auto.
  apply String.eqb_eq in E.
  assert (Hin : In "key" (flat_map
                            (fun p => let l := variableNameFromPath (toLowerCase host) p in
                                      [l; l ++ "_sanitized"])
                            (object_paths t path))).
  { apply in_flat_map. exists p. split; auto. rewrite <- E. now left. }
  specialize (H _ Hin). apply negb_true_iff in H.
  assert (mem "key" (emitted_names ++ reads) = true); [|congruence].
  apply mem_In, in_or_app. left. simpl. tauto.
Qed.

Lemma hygienic_keyless name t :
  hygienic (toLowerCase host) types = true ->
  lookup name types = Some t ->
  keyless (toLowerCase host) t [name] = true.
Proof.
  unfold hygienic. rewrite andb_true_iff, forallb_forall. intros [_ H] E.
  apply lookup_In in E. specialize (H _ E). simpl in H.
  rewrite !andb_true_iff in H. destruct H as [[[[_ _] H] _] _].
  exact (names_apart_keyless _ _ _ H).
Qed.

(** The value the sanitizer of [t] makes of a value that passed the checks
    of [t] passes them under every setting of [allowAdditionalProperties]. *)
Lemma sanitized_strict :
  well_formed_types types = true ->
  own_names host types = true ->
  hygienic (toLowerCase host) types = true ->
  forall fs fv t e path v s r s',
    well_formed t = true ->
    names_own host t = true ->
    keyless (toLowerCase host) t path = true ->
    generateTypeValidator fv (InValidate (Some true)) t e path v = Return tt ->
    generateTypeSanitizer fs t e path v s = (Return r, s') ->
    forall a, generateTypeValidator fs (InValidate a) t e path r = Return tt.
Proof.
  intros Hwf Hown Hhyg.
  induction fs as [fs IH] using lt_wf_ind.
  intros fv t e path v s r s' Ht Hn Hk Hv Hs a.
  destruct fs as [|fs]; [discriminate|].
  destruct fv as [|fv]; [discriminate|].
  destruct t;
    try (simpl in Hs; inversion Hs; subst r s'; simpl in *; exact Hv).
  - (* alias *)
    apply validator_alias_Return in Hv.
    apply validate_Return_true in Hv.
    destruct Hv as (fv0 & t & -> & Et & Hv0).
    change (create fs name v s = (Return r, s')) in Hs.
    apply create_Return in Hs.
    destruct Hs as (fs0 & t' & -> & Et' & _ & Hs).
    rewrite Et in Et'. inversion Et'; subst t'.
    pose proof (IH fs0 ltac:(lia) fv0 _ _ _ _ _ _ _
                   (well_formed_lookup _ _ Hwf Et) (names_own_lookup _ _ Hown Et)
                   (hygienic_keyless _ _ Hhyg Et) Hv0 Hs a) as H.
    apply validator_alias_Return, validate_Return_true. exists fs0, t. auto.
  - (* array *)
    apply validator_array_Return in Hv.
    destruct Hv as (id & items & -> & He & Hall).
    apply sanitizer_array_Return in Hs.
    destruct Hs as (id' & items0 & items' & Ev & -> & Hmap).
    inversion Ev; subst id' items0. clear Ev. simpl in Ht.
    pose proof (mapM_Return _ _ _ _ _ Hmap) as Hrel. clear Hmap.
    apply validator_array_Return. exists s, items'. repeat split; auto.
    revert Hall. induction Hrel as [|x y xs ys (sa & sb & Hxy) Hrel IHrel];
      intro Hall; constructor.
    + inversion Hall as [|? ? Hx Hxs]; subst.
      exact (IH fs ltac:(lia) fv _ _ _ _ _ _ _ Ht Hn Hk Hx Hxy a).
    + inversion Hall; subst. now apply IHrel.
  - (* object *)
    apply validator_object_Return in Hv. destruct Hv as [Hobj Hall].
    apply sanitizer_object_Return in Hs. destruct Hs as (final & -> & Hassign).
    apply well_formed_object in Ht. destruct Ht as [Hnd Hwp].
    pose proof (names_own_object _ Hn) as Hnp.
    apply keyless_object in Hk. destruct Hk as [Hkey Hkp].
    rewrite Forall_forall in Hall.
    apply validator_object_Return_any. split; [reflexivity|]. split.
    + apply check_keys_declared; auto. intros k Hk.
      apply (assign_properties_keys _ _ _ _ _ _ _ _ Hassign) in Hk.
      destruct Hk as [[] | (p & x & Hp & <- & _)]. now apply in_map.
    + apply Forall_forall. intros p Hp.
      apply check_property_Return. rewrite get_object by apply (Hnp p Hp).
      destruct (assign_properties_declared _ _ _ _ Hnd _ _ _ _ Hassign p Hp)
        as (x & Hx & Hcase).
      destruct (copied (snd p) x) eqn:Hc.
      * destruct Hcase as (x' & sa & sb & Hsan & ->).
        exists x'. split; auto. intros _.
        pose proof (Hall p Hp) as Hcheck.
        apply check_property_Return in Hcheck.
        destruct Hcheck as (y & Hy & Hcheck).
        rewrite Hx in Hy. inversion Hy; subst y.
        exact (IH fs ltac:(lia) fv _ _ _ _ _ _ _ (Hwp p Hp) (proj2 (Hnp p Hp))
                 (Hkp p Hp) (Hcheck Hc) Hsan a).
      * rewrite Hcase. simpl. exists VUndefined. split; auto.
        unfold copied in *. apply orb_false_iff in Hc. destruct Hc as [-> _].
        discriminate.
  - (* union *)
    simpl in Hs.
    apply (sanitize_members_trials
             (fun i u => generateTypeValidator fs InCreate u e (path ++ [toString i]) v)
             (fun i u => generateTypeSanitizer fs u e (path ++ [toString i]) v))
      in Hs.
    2: { intros i t s0 Hok.
         destruct (create_scope_sanitizer _ _ _ _ _ Hok s0) as (r0 & s0' & E & _).
         eauto. }
    destruct Hs as [(before & t & after & -> & Hfail & Hok & Hsan)
                   | (-> & -> & Hall)].
    + destruct (create_scope_sanitizer _ _ _ _ _ Hok s) as (r0 & s0 & E & Hsame).
      rewrite Hsan in E. inversion E; subst r0 s0.
      apply blur_Return.
      rewrite (validator_same (S fs) _ (TUnion (before ++ t :: after)) e path r v Hsame).
      apply blur_Return. simpl. apply try_members_first.
      * intros j u Hj. destruct (Hfail j u Hj) as [m Hm]. exists m.
        exact (create_scope_transfer _ _ _ _ _ _ Hm ltac:(right; eauto) a).
      * exact (create_scope_transfer _ _ _ _ _ _ Hok ltac:(now left) a).
    + exfalso. simpl in Hv. apply try_members_Return in Hv.
      destruct Hv as (before & t & after & -> & _ & Hok).
      destruct (Hall (length before) t) as (m & Hm).
      { rewrite nth_error_app2, Nat.sub_diag; auto. }
      exact (create_scope_failure _ _ _ _ _ _ Hm _ _ Hok).
Qed.

Lemma create_result_validates :
  well_formed_types types = true ->
  own_names host types = true ->
  hygienic (toLowerCase host) types = true ->
  forall fuel name v s r s',
    create fuel name v s = (Return r, s') ->
    forall options,
      validate fuel name r options = (Return true, errorCatcher options).
Proof.
  intros Hwf Hown Hhyg fuel name v s r s' H options.
  apply create_Return in H. destruct H as (f & t & -> & Et & Hval & Hs).
  apply validate_Return_true in Hval.
  destruct Hval as (f0 & t' & -> & Et' & Hv).
  rewrite Et in Et'. inversion Et'; subst t'.
  pose proof (sanitized_strict Hwf Hown Hhyg _ _ _ _ _ _ _ _ _
                (well_formed_lookup _ _ Hwf Et) (names_own_lookup _ _ Hown Et)
                (hygienic_keyless _ _ Hhyg Et) Hv Hs
                (allowAdditionalProperties options)) as Hr.
  exact (proj1 (validate_entrypoint (S f0) name t r options Et) Hr).
Qed.

(** ** The sanitizer against the reconstruction the specification
    describes *)

Lemma set_fresh name x entries :
  ~ In name (map fst entries) -> set name x entries = (entries ++ [(name, x)])%list.
Proof.
  induction entries as [|[k y] entries IH]; simpl; auto.
  intro H. destruct (String.eqb k name) eqn:E.
  - apply String.eqb_eq in E. tauto.
  - rewrite IH; tauto.
Qed.

Lemma mapM_bounds {A B} (f : A -> M B) (R : nat -> A -> B -> Prop) xs :
  (forall x sa y sb, In x xs -> f x sa = (Return y, sb) ->
                     sa <= sb /\ forall s0, s0 <= sa -> R s0 x y) ->
  forall s ys s',
    mapM f xs s = (Return ys, s') ->
    s <= s' /\ forall s0, s0 <= s -> Forall2 (R s0) xs ys.
Proof.
  induction xs as [|x xs IH]; intros Hf s ys s' H; simpl in H.
  - inversion H; subst. split; auto.
  - unfold bindM in H at 1.
    destruct (f x s) as [[y| |] s1] eqn:E; try discriminate.
    unfold bindM in H at 1.
    destruct (mapM f xs s1) as [[ys'| |] s2] eqn:E'; try discriminate.
    inversion H; subst.
    destruct (Hf x s y s1 (or_introl eq_refl) E) as [Hle Hx].
    destruct (IH (fun x0 sa y0 sb Hin => Hf x0 sa y0 sb (or_intror Hin))
                 _ _ _ E') as [Hle' Hxs].
    split; [lia|]. intros s0 Hs0. constructor; [now apply Hx|].
    apply Hxs. lia.
Qed.

Lemma well_formed_member members :
  well_formed (TUnion members) = true ->
  forall m, In m members -> well_formed m = true.
Proof. simpl. rewrite forallb_forall. auto. Qed.

(** What the sanitizer makes of a value that passed the checks is the
    reconstruction of the value along the type, and everything it builds
    is new. *)
Lemma sanitizer_spec :
  well_formed_types types = true ->
  forall fs fv t e path v s r s',
    well_formed t = true ->
    generateTypeValidator fv (InValidate (Some true)) t e path v = Return tt ->
    generateTypeSanitizer fs t e path v s = (Return r, s') ->
    s <= s' /\ forall s0, s0 <= s -> spec_sanitized s0 t v r.
Proof.
  intro Hwf.
  induction fs as [fs IH] using lt_wf_ind.
  intros fv t e path v s r s' Ht Hv Hs.
  destruct fs as [|fs]; [discriminate|].
  destruct fv as [|fv]; [discriminate|].
  destruct t;
    try (simpl in Hs; inversion Hs; subst r s'; split; [lia|];
         intros s0 _; constructor; fail).
  - (* alias *)
    apply validator_alias_Return in Hv.
    apply validate_Return_true in Hv.
    destruct Hv as (fv0 & t & -> & Et & Hv0).
    change (create fs name v s = (Return r, s')) in Hs.
    apply create_Return in Hs.
    destruct Hs as (fs0 & t' & -> & Et' & _ & Hs).
    rewrite Et in Et'. inversion Et'; subst t'.
    destruct (IH fs0 ltac:(lia) fv0 _ _ _ _ _ _ _
                 (well_formed_lookup _ _ Hwf Et) Hv0 Hs) as [Hle H].
    split; auto. intros s0 Hs0. apply spec_alias with t; auto.
  - (* array *)
    apply validator_array_Return in Hv.
    destruct Hv as (id & items & -> & He & Hall).
    apply sanitizer_array_Return in Hs.
    destruct Hs as (id' & items0 & items' & Ev & -> & Hmap).
    inversion Ev; subst id' items0. clear Ev. simpl in Ht.
    rewrite Forall_forall in Hall.
    destruct (mapM_bounds _ (fun s0 x y => spec_sanitized s0 t x y) items
                (fun x sa y sb Hin Hx =>
                   IH fs ltac:(lia) fv _ _ _ _ _ _ _ Ht (Hall x Hin) Hx)
                _ _ _ Hmap) as [Hle H].
    split; [lia|]. intros s0 Hs0. constructor; [lia|]. apply H. lia.
  - (* object *)
    apply validator_object_Return in Hv. destruct Hv as [Hobj Hall].
    apply sanitizer_object_Return in Hs. destruct Hs as (final & -> & Hassign).
    apply well_formed_object in Ht. destruct Ht as [Hnd Hwp].
    rewrite Forall_forall in Hall.
    assert (Hprops : forall props acc sa out sb,
               NoDup (map fst props) ->
               (forall p, In p props -> ~ In (fst p) (map fst acc)) ->
               (forall p, In p props -> In p properties) ->
               assign_properties
                 (assign_property (generateTypeSanitizer fs) path v)
                 props acc sa = (Return out, sb) ->
               sa <= sb
               /\ exists new,
                   out = (acc ++ new)%list
                   /\ forall s0, s0 <= sa ->
                        Forall2 (fun p kx =>
                                   fst kx = fst p
                                   /\ exists x,
                                       get host v (fst p) = Return x
                                       /\ spec_sanitized s0 (type (snd p)) x (snd kx))
                                (filter (kept v) props) new).
    { induction props as [|p props IHp]; intros acc sa out sb Hnd' Hfresh Hsub H.
      - simpl in H. inversion H; subst. split; auto.
        exists []. rewrite app_nil_r. split; auto.
      - apply assign_properties_cons in H. destruct H as (acc1 & s1 & H1 & H2).
        simpl in Hnd'. inversion Hnd' as [|? ? Hp Hnd'']; subst.
        apply assign_property_Return in H1.
        destruct H1 as (x & Hx & [(Hc & x' & Hsan & ->) | (Hc & -> & ->)]).
        + pose proof (Hall p (Hsub p (or_introl eq_refl))) as Hcheck.
          apply check_property_Return in Hcheck.
          destruct Hcheck as (y & Hy & Hcheck).
          rewrite Hx in Hy. inversion Hy; subst y.
          destruct (IH fs ltac:(lia) fv _ _ _ _ _ _ _
                       (Hwp p (Hsub p (or_introl eq_refl))) (Hcheck Hc) Hsan)
            as [Hle Hspec].
          rewrite set_fresh in H2 by (apply Hfresh; now left).
          assert (Hfresh' : forall q, In q props ->
                                      ~ In (fst q) (map fst (acc ++ [(fst p, x')]))).
          { intros q Hq. rewrite map_app, in_app_iff. simpl.
            intros [Hin | [E | []]].
            - exact (Hfresh q (or_intror Hq) Hin).
            - apply Hp. rewrite E. now apply in_map. }
          destruct (IHp _ _ _ _ Hnd'' Hfresh' (fun q Hq => Hsub q (or_intror Hq)) H2)
            as [Hle' (new & -> & Hnew)].
          split; [lia|]. exists ((fst p, x') :: new).
          rewrite <- app_assoc. split; auto.
          intros s0 Hs0. cbn [filter]. unfold kept at 1. rewrite Hx, Hc.
          constructor.
          * simpl. split; auto. exists x. split; auto.
          * apply Hnew. lia.
        + destruct (IHp _ _ _ _ Hnd'' (fun q Hq => Hfresh q (or_intror Hq))
                        (fun q Hq => Hsub q (or_intror Hq)) H2)
            as [Hle' (new & -> & Hnew)].
          split; auto. exists new. split; auto.
          intros s0 Hs0. cbn [filter]. unfold kept at 1. rewrite Hx, Hc.
          now apply Hnew. }
    destruct (Hprops properties [] (S s) final s' Hnd
                (fun p _ Hin => Hin) (fun p Hp => Hp) Hassign)
      as [Hle (new & -> & Hnew)].
    split; [lia|]. intros s0 Hs0. simpl. constructor; [lia|]. apply Hnew. lia.
  - (* union *)
    simpl in Hs.
    apply (sanitize_members_trials
             (fun i u => generateTypeValidator fs InCreate u e (path ++ [toString i]) v)
             (fun i u => generateTypeSanitizer fs u e (path ++ [toString i]) v))
      in Hs.
    2: { intros i t s0 Hok.
         destruct (create_scope_sanitizer _ _ _ _ _ Hok s0) as (r0 & s0' & E & _).
         eauto. }
    destruct Hs as [(before & t & after & -> & Hfail & Hok & Hsan)
                   | (-> & -> & Hall)].
    + pose proof (create_scope_transfer _ _ _ _ _ _ Hok ltac:(now left) (Some true))
        as Hok'.
      destruct (IH fs ltac:(lia) fs _ _ _ _ _ _ _
                   (well_formed_member _ Ht t ltac:(apply in_or_app; right; now left))
                   Hok' Hsan) as [Hle Hspec].
      split; auto. intros s0 Hs0.
      apply spec_union with t; auto. apply in_or_app. right. now left.
    + exfalso. simpl in Hv. apply try_members_Return in Hv.
      destruct Hv as (before & t & after & -> & _ & Hok).
      destruct (Hall (length before) t) as (m & Hm).
      { rewrite nth_error_app2, Nat.sub_diag; auto. }
      exact (create_scope_failure _ _ _ _ _ _ Hm _ _ Hok).
Qed.

Lemma create_spec :
  well_formed_types types = true ->
  forall fuel name t v s r s',
    lookup name types = Some t ->
    create fuel name v s = (Return r, s') ->
    spec_sanitized s t v r.
Proof.
  intros Hwf fuel name t v s r s' Et H.
  apply create_Return in H. destruct H as (f & t' & -> & Et' & Hval & Hs).
  rewrite Et in Et'. inversion Et'; subst t'.
  apply validate_Return_true in Hval.
  destruct Hval as (f0 & t' & -> & Et'' & Hv).
  rewrite Et in Et''. inversion Et''; subst t'.
  exact (proj2 (sanitizer_spec Hwf _ _ _ _ _ _ _ _ _
                  (well_formed_lookup _ _ Hwf Et) Hv Hs) s (le_n s)).
Qed.

(** ** [create] on a union, on an alias, on an array *)



Lemma create_unfold fuel name v s :
  create (S fuel) name v s
  = match lookup name types with
    | None => (unbound name, s)
    | Some t =>
        match fst (validate fuel name v allowing) with
        | Return true => generateTypeSanitizer fuel t EValue [name] v s
        | Return false => (Throw (ValidationError EmptyString), s)
        | Throw e => (Throw e, s)
        | OutOfFuel => (OutOfFuel, s)
        end
    end.
Proof.
  simpl. destruct (lookup name types); auto. unfold bindM, lift.
  destruct (fst (validate fuel name v allowing)) as [[]| |]; reflexivity.
Qed.


(** ** The option [allowAdditionalProperties] *)

Lemma for_of_ext_in {A} (f g : A -> outcome unit) xs :
  (forall x, In x xs -> f x = g x) -> for_of f xs = for_of g xs.
Proof.
  induction xs as [|x xs IH]; intro H; simpl; auto.
  rewrite (H x (or_introl eq_refl)), IH; auto.
  intros y Hy. apply H. now right.
Qed.

Lemma try_members_ext (m1 m2 : nat -> Ty -> outcome unit) members :
  (forall i t, m1 i t = m2 i t) ->
  forall i error, try_members m1 i error members = try_members m2 i error members.
Proof.
  intro H. induction members as [|t members IH]; intros i error; simpl; auto.
  rewrite H. destruct (m2 i t) as [[]|[]|]; auto.
Qed.

(** [false] and [undefined] are the same setting. *)
Lemma strict_settings fuel :
  (forall t e path v,
      generateTypeValidator fuel (InValidate (Some false)) t e path v
      = generateTypeValidator fuel (InValidate None) t e path v)
  /\ (forall name v c,
         validate fuel name v
           {| errorCatcher := c; allowAdditionalProperties := Some false |}
         = validate fuel name v
             {| errorCatcher := c; allowAdditionalProperties := None |}).
Proof.
  induction fuel as [|fuel [IHg IHv]]; split; auto.
  - intros t e path v. destruct t; simpl; auto.
    + destruct (lookup name types); auto. now rewrite IHv.
    + destruct v; auto. destruct e; auto; apply for_of_ext; intro; apply IHg.
    + destruct (negb (is_object v)); auto.
      change (check_keys (Some false) path properties v)
        with (check_keys None path properties v).
      rewrite (for_of_ext
                 (check_property (generateTypeValidator fuel (InValidate (Some false))) path v)
                 (check_property (generateTypeValidator fuel (InValidate None)) path v));
        auto.
      intro p. unfold check_property.
      destruct (get host v (fst p)); simpl; auto. now rewrite !IHg.
    + apply try_members_ext. intros; apply IHg.
  - intros name v c. simpl. destruct (lookup name types); auto.
    now rewrite IHg.
Qed.

(** The local of the object at [path] is neither [key] nor [allowedKeys]. *)
Lemma names_apart_local reads properties path :
  names_apart (toLowerCase host) reads (TObject properties) path = true ->
  ~ In (variableNameFromPath (toLowerCase host) path) emitted_names.
Proof.
  unfold names_apart, locals. cbn [object_paths flat_map].
  rewrite forallb_app. cbn [forallb].
  rewrite !andb_true_iff. intros [[H _] _] Hin. apply negb_true_iff in H.
  assert (mem (variableNameFromPath (toLowerCase host) path)
              (emitted_names ++ reads) = true); [|congruence].
  apply mem_In, in_or_app. now left.
Qed.

Lemma hygienic_local name properties :
  hygienic (toLowerCase host) types = true ->
  lookup name types = Some (TObject properties) ->
  ~ In (variableNameFromPath (toLowerCase host) [name]) emitted_names.
Proof.
  unfold hygienic. rewrite andb_true_iff, forallb_forall. intros [_ H] E.
  apply lookup_In in E. specialize (H _ E). simpl fst in H. simpl snd in H.
  rewrite !andb_true_iff in H. destruct H as [[[[_ _] H] _] _].
  exact (names_apart_local _ _ _ H).
Qed.

Lemma plain_local l :
  ~ In l emitted_names ->
  String.eqb l "key" = false /\ String.eqb l "allowedKeys" = false
  /\ String.eqb l "item" = false.
Proof.
  intro H. repeat split; apply String.eqb_neq; intro E; apply H; subst l;
    simpl; tauto.
Qed.

Lemma check_keys_undeclared a path properties v ks k :
  ~ In (variableNameFromPath (toLowerCase host) path) emitted_names ->
  falsy a = true ->
  keys v = Return ks ->
  find (fun key => negb (existsb (String.eqb key) (map fst properties))) ks
  = Some k ->
  check_keys a path properties v
  = fail (join path ++ " does not allow key " ++ k) v.
Proof.
  intros Hl Ha Hks Hfind. unfold check_keys. cbv zeta.
  destruct (plain_local _ Hl) as (-> & -> & _).
  rewrite Ha, Hks. cbn [bind].
  clear Hks. induction ks as [|k0 ks IH]; [discriminate|].
  cbn [for_of find] in *.
  destruct (existsb (String.eqb k0) (map fst properties)); cbn [negb bind] in *.
  - now apply IH.
  - now inversion Hfind.
Qed.

(** Without [allowAdditionalProperties], the first key of the value that
    is not declared fails the checks of an object type, before any
    property is looked at. *)
Lemma undeclared_key_fails fuel a properties e path v ks k :
  ~ In (variableNameFromPath (toLowerCase host) path) emitted_names ->
  falsy a = true ->
  is_object v = true ->
  keys v = Return ks ->
  find (fun key => negb (existsb (String.eqb key) (map fst properties))) ks
  = Some k ->
  generateTypeValidator (S fuel) (InValidate a) (TObject properties) e path v
  = fail (join path ++ " does not allow key " ++ k) v.
Proof.
  intros Hl Ha Hobj Hks Hfind. cbn [generateTypeValidator]. rewrite Hobj.
  cbn [negb read_allowAdditionalProperties bind].
  now rewrite (check_keys_undeclared a path properties v ks k Hl Ha Hks Hfind).
Qed.

Lemma strict_keys_declared fuel a properties e path v ks :
  ~ In (variableNameFromPath (toLowerCase host) path) emitted_names ->
  falsy a = true ->
  keys v = Return ks ->
  generateTypeValidator fuel (InValidate a) (TObject properties) e path v
  = Return tt ->
  forall k, In k ks -> In k (map fst properties).
Proof.
  intros Hl Ha Hks H k Hk. destruct fuel as [|fuel]; [discriminate|].
  apply validator_object_Return_any in H. destruct H as (_ & Hkeys & _).
  unfold check_keys in Hkeys. cbv zeta in Hkeys.
  destruct (plain_local _ Hl) as (Ek & Ea & _).
  rewrite Ek, Ea, Ha, Hks in Hkeys. simpl in Hkeys.
  apply for_of_Return in Hkeys. rewrite Forall_forall in Hkeys.
  specialize (Hkeys k Hk).
  destruct (existsb (String.eqb k) (map fst properties)) eqn:E; [|discriminate].
  apply existsb_exists in E. destruct E as (k' & Hk' & Heq).
  apply String.eqb_eq in Heq. now subst.
Qed.

(** ** Faults that no catcher stops *)

Lemma validate_empty_union fuel name v options :
  lookup name types = Some (TUnion []) ->
  validate (S (S fuel)) name v options = (Throw ThrownNull, errorCatcher options).
Proof. intro Et. simpl. rewrite Et. reflexivity. Qed.

Lemma validate_missing_alias fuel name target v options :
  lookup name types = Some (TAlias target) ->
  lookup target types = None ->
  validate (S (S fuel)) name v options
  = (if bound_elsewhere target then Throw TypeError
     else Throw (ReferenceError target),
     errorCatcher options).
Proof.
  intros En Et. simpl. rewrite En. simpl. rewrite Et.
  unfold call_unbound. simpl.
  destruct (String.eqb target "undefined") eqn:E.
  - apply String.eqb_eq in E. subst target. reflexivity.
  - destruct (bound_elsewhere target); reflexivity.
Qed.

Lemma validate_same fuel name v v' options :
  same v v' ->
  (fst (validate fuel name v options) = Return true
   <-> fst (validate fuel name v' options) = Return true).
Proof.
  intro Hsame. destruct fuel as [|fuel]; simpl; [tauto|].
  destruct (lookup name types) as [t|]; [|tauto].
  pose proof (validator_same fuel (InValidate (allowAdditionalProperties options))
                t EValue [name] v v' Hsame) as Hb.
  destruct (generateTypeValidator fuel _ t EValue [name] v) as [[]|[]|];
  destruct (generateTypeValidator fuel _ t EValue [name] v') as [[]|[]|];
    simpl in *; try discriminate; try tauto;
    destruct (errorCatcher options); simpl; split; discriminate.
Qed.

Lemma Forall2_length_eq {A B} (R : A -> B -> Prop) xs ys :
  Forall2 R xs ys -> length xs = length ys.
Proof. induction 1; simpl; auto. Qed.

Lemma create_array fuel name elem v s r s' :
  lookup name types = Some (TArray elem) ->
  create fuel name v s = (Return r, s') ->
  exists id items items' f,
    v = VArray id items /\ r = VArray s items'
    /\ length items' = length items
    /\ Forall2 (fun x x' =>
                  exists sa sb,
                    generateTypeSanitizer f elem EItem [name; "__item__"] x sa
                    = (Return x', sb)) items items'
    /\ (allocated s v = true -> identity r <> identity v).
Proof.
  intros Et H. apply create_Return in H.
  destruct H as (f & t & -> & Et' & _ & Hs).
  rewrite Et in Et'. inversion Et'; subst t.
  destruct f as [|f]; [discriminate|].
  apply sanitizer_array_Return in Hs.
  destruct Hs as (id & items & items' & -> & -> & Hmap).
  pose proof (mapM_Return _ _ _ _ _ Hmap) as Hrel.
  exists id, items, items', f. repeat split; auto.
  - symmetry. exact (Forall2_length_eq _ _ _ Hrel).
  - intros Hv E. apply (allocated_identity s _ Hv). now rewrite <- E.
Qed.

(** ** Only the declared properties of the input count *)

Lemma assign_properties_ext_in
    (f g : string * ObjectProperty -> list (string * value) -> M (list (string * value)))
    properties :
  (forall p acc s, In p properties -> f p acc s = g p acc s) ->
  forall acc s, assign_properties f properties acc s
                = assign_properties g properties acc s.
Proof.
  induction properties as [|p properties IH]; intros H acc s; simpl; auto.
  unfold bindM. rewrite (H p acc s (or_introl eq_refl)).
  destruct (g p acc s) as [[acc'| |] s1]; auto.
  apply IH. intros q acc0 s0 Hq. apply H. now right.
Qed.

Lemma create_declared_only fuel name properties v v' s :
  lookup name types = Some (TObject properties) ->
  is_object v = true -> is_object v' = true ->
  (forall n, In n (map fst properties) -> get host v n = get host v' n) ->
  validate fuel name v allowing = validate fuel name v' allowing
  /\ create (S fuel) name v s = create (S fuel) name v' s.
Proof.
  intros Et Hv Hv' Hget.
  assert (Hval : forall f, validate f name v allowing = validate f name v' allowing).
  { intro f. destruct f as [|f]; auto. simpl. rewrite Et.
    destruct f as [|f]; auto. simpl. rewrite Hv, Hv'. simpl.
    rewrite (for_of_ext_in
               (check_property (generateTypeValidator f (InValidate (Some true))) [name] v)
               (check_property (generateTypeValidator f (InValidate (Some true))) [name] v'));
      auto.
    intros p Hp. unfold check_property. rewrite (Hget (fst p)); auto.
    now apply in_map. }
  split; [apply Hval|].
  rewrite !create_unfold, Et, Hval.
  destruct (fst (validate fuel name v' allowing)) as [[]| |]; auto.
  destruct fuel as [|fuel]; auto. simpl. unfold bindM, alloc.
  rewrite (assign_properties_ext_in
             (assign_property (generateTypeSanitizer fuel) [name] v)
             (assign_property (generateTypeSanitizer fuel) [name] v')); auto.
  intros p acc s0 Hp. unfold assign_property. rewrite (Hget (fst p)); auto.
  now apply in_map.
Qed.

(** A fault of a member that is not a [ValidationError] ends the checks of
    the union, whatever the later members are. *)
Lemma union_member_fault fuel scope e path v before t after err :
  (forall j u, nth_error before j = Some u ->
               exists m, generateTypeValidator fuel scope u e
                           (path ++ [toString j]) v = Throw (ValidationError m)) ->
  generateTypeValidator fuel scope t e (path ++ [toString (length before)]) v
  = Throw err ->
  (forall m, err <> ValidationError m) ->
  generateTypeValidator (S fuel) scope (TUnion (before ++ t :: after)) e path v
  = Throw err.
Proof.
  intros Hfail Hthrow Hne. simpl.
  now apply try_members_fault.
Qed.

(** ** The messages of failures *)

Lemma append_assoc (a b c : string) : (a ++ b) ++ c = a ++ (b ++ c).
Proof. induction a as [|x a IH]; simpl; auto. now rewrite IH. Qed.

Lemma begins_with_refl p : begins_with p p.
Proof. exists EmptyString. induction p; simpl; congruence. Qed.

Lemma begins_with_append p x : begins_with p (p ++ x).
Proof. now exists x. Qed.

Lemma begins_with_trans a b c :
  begins_with a b -> begins_with b c -> begins_with a c.
Proof.
  intros [x ->] [y ->]. exists (x ++ y). apply append_assoc.
Qed.

Lemma join_snoc path x : begins_with (join path) (join (path ++ [x])).
Proof.
  unfold join. induction path as [|a path IH].
  - exists x. reflexivity.
  - destruct path as [|b path].
    + exists ("." ++ x). reflexivity.
    + destruct IH as [rest IH].
      exists rest. change ((a :: b :: path) ++ [x])%list
        with (a :: (b :: path) ++ [x])%list.
      change (String.concat "." (a :: (b :: path) ++ [x]))
        with (a ++ "." ++ String.concat "." ((b :: path) ++ [x])).
      rewrite IH.
      change (String.concat "." (a :: b :: path))
        with (a ++ "." ++ String.concat "." (b :: path)).
      now rewrite !append_assoc.
Qed.

Lemma get_Throw v n e : get host v n = Throw e -> e = TypeError.
Proof.
  unfold get. destruct (class_of v) as [c|]; [|now inversion 1].
  destruct (own_property v n); [discriminate|].
  destruct (prototype host c n); discriminate.
Qed.

Lemma keys_Throw v e : keys v = Throw e -> e = TypeError.
Proof. destruct v; simpl; try discriminate; now inversion 1. Qed.

Lemma fail_message {A} text v m :
  @fail A text v = Throw (ValidationError m) ->
  m = text ++ ":" ++ newline ++ debugValue v.
Proof. unfold fail. now inversion 1. Qed.

Lemma try_members_message (member : nat -> Ty -> outcome unit) members :
  forall i error m,
    try_members member i error members = Throw (ValidationError m) ->
    error = Some m
    \/ exists j t, In t members /\ member j t = Throw (ValidationError m).
Proof.
  induction members as [|t members IH]; intros i error m H; simpl in H.
  - destruct error; inversion H. now left.
  - destruct (member i t) as [[]|[m0| | |]|] eqn:E; try discriminate.
    destruct (IH _ _ _ H) as [Hm | (j & u & Hu & Hj)].
    + inversion Hm; subst. right. exists i, t. split; auto. now left.
    + right. exists j, u. split; auto. now right.
Qed.

(** What a [ValidationError] of the checks says: a text, a colon, a line
    break and the rendering of the value at fault; the text begins with
    the path, or, when the failure lies behind an alias, with the name of
    a type of the map. *)
Lemma validator_message f :
  forall scope t e path v m,
    generateTypeValidator f scope t e path v = Throw (ValidationError m) ->
    (exists text x, m = text ++ ":" ++ newline ++ debugValue x)
    /\ (begins_with (join path) m
        \/ exists n t', lookup n types = Some t' /\ begins_with n m).
Proof.
  induction f as [f IH] using lt_wf_ind.
  intros scope t e path v m H.
  destruct f as [|f]; [discriminate|].
  assert (Hfail : forall text x,
             @fail unit (join path ++ text) x = Throw (ValidationError m) ->
             (exists text x, m = text ++ ":" ++ newline ++ debugValue x)
             /\ (begins_with (join path) m
                 \/ exists n t', lookup n types = Some t' /\ begins_with n m)).
  { intros text x Hf. apply fail_message in Hf. split; [eauto|].
    left. rewrite Hf, append_assoc. apply begins_with_append. }
  assert (Hsub : forall x scope' t' e' v',
             generateTypeValidator f scope' t' e' (path ++ [x]) v'
             = Throw (ValidationError m) ->
             (exists text x, m = text ++ ":" ++ newline ++ debugValue x)
             /\ (begins_with (join path) m
                 \/ exists n t', lookup n types = Some t' /\ begins_with n m)).
  { intros x scope' t' e' v' Hx.
    destruct (IH f ltac:(lia) _ _ _ _ _ _ Hx) as [Hform [Hp | Hn]].
    - split; auto. left. eapply begins_with_trans; [apply join_snoc | exact Hp].
    - split; auto. }
  destruct t; cbn [generateTypeValidator] in H; try discriminate.
  - (* alias *)
    destruct (lookup name types) as [t|] eqn:Et; [|unbound_fault].
    destruct scope as [a|]; [|discriminate].
    cbn [read_allowAdditionalProperties bind] in H.
    destruct f as [|f]; [discriminate|].
    cbn [validate] in H. rewrite Et in H.
    cbn [errorCatcher allowAdditionalProperties] in H.
    destruct (generateTypeValidator f (InValidate a) t EValue [name] v)
      as [[]|[m0| | |]|] eqn:E; try discriminate.
    simpl in H. inversion H; subst m0.
    destruct (IH f ltac:(lia) _ _ _ _ _ _ E) as [Hform [Hp | Hn]].
    + split; auto. right. exists name, t. split; auto.
    + split; auto.
  - (* array *)
    destruct v; try (now apply (Hfail _ _ H)).
    destruct e; try discriminate;
      apply for_of_Throw in H; destruct H as (x & _ & Hx);
      exact (Hsub _ _ _ _ _ Hx).
  - destruct v; try discriminate; now apply (Hfail _ _ H).
  - destruct (equals_literal v value0); [discriminate|].
    change (@fail unit (join path ++ (" must equal " ++ JSON_stringify value0)) v
            = Throw (ValidationError m)) in H.
    now apply (Hfail _ _ H).
  - destruct v; try discriminate; now apply (Hfail _ _ H).
  - destruct v; try discriminate; now apply (Hfail _ _ H).
  - (* object *)
    destruct (negb (is_object v)); [now apply (Hfail _ _ H)|].
    destruct scope as [a|]; [|discriminate].
    cbn [read_allowAdditionalProperties bind] in H.
    destruct (check_keys a path properties v) as [[]|err|] eqn:Ek;
      cbn [bind] in H; try discriminate.
    + apply for_of_Throw in H. destruct H as (p & _ & Hp).
      unfold check_property in Hp.
      destruct (get host v (fst p)) as [x|e0|] eqn:Eg; cbn [bind] in Hp;
        try discriminate.
      2: { apply get_Throw in Eg. subst e0. discriminate. }
      destruct (required (snd p)); [exact (Hsub _ _ _ _ _ Hp)|].
      destruct (negb (is_undefined x)); [exact (Hsub _ _ _ _ _ Hp)|discriminate].
    + inversion H; subst err. unfold check_keys in Ek.
      destruct (falsy a); [|discriminate]. cbv zeta in Ek.
      destruct (String.eqb _ "key"); [discriminate|].
      destruct (String.eqb _ "allowedKeys"); [discriminate|].
      destruct (keys v) as [ks|e0|] eqn:Eks; cbn [bind] in Ek; try discriminate.
      2: { apply keys_Throw in Eks. subst e0. discriminate. }
      apply for_of_Throw in Ek. destruct Ek as (k & _ & Hk).
      destruct (existsb (String.eqb k) (map fst properties)); [discriminate|].
      change (@fail unit (join path ++ (" does not allow key " ++ k)) v
              = Throw (ValidationError m)) in Hk.
      now apply (Hfail _ _ Hk).
  - destruct v; try discriminate; now apply (Hfail _ _ H).
  - destruct v; try discriminate; now apply (Hfail _ _ H).
  - (* union *)
    apply try_members_message in H.
    destruct H as [H | (j & u & _ & Hu)]; [discriminate|].
    exact (Hsub _ _ _ _ _ Hu).
Qed.

(** Without aliases the text begins with the path. *)
Lemma validator_message_path f :
  forall scope t e path v m,
    alias_free t = true ->
    generateTypeValidator f scope t e path v = Throw (ValidationError m) ->
    begins_with (join path) m.
Proof.
  induction f as [|f IH]; intros scope t e path v m Ht H; [discriminate|].
  assert (Hfail : forall text x,
             @fail unit (join path ++ text) x = Throw (ValidationError m) ->
             begins_with (join path) m).
  { intros text x Hf. apply fail_message in Hf.
    rewrite Hf, append_assoc. apply begins_with_append. }
  assert (Hsub : forall x scope' t' e' v',
             alias_free t' = true ->
             generateTypeValidator f scope' t' e' (path ++ [x]) v'
             = Throw (ValidationError m) ->
             begins_with (join path) m).
  { intros x scope' t' e' v' Ht' Hx.
    eapply begins_with_trans; [apply join_snoc | exact (IH _ _ _ _ _ _ Ht' Hx)]. }
  destruct t; cbn [generateTypeValidator] in H; try discriminate.
  - destruct v; try (now apply (Hfail _ _ H)).
    simpl in Ht.
    destruct e; try discriminate;
      apply for_of_Throw in H; destruct H as (x & _ & Hx);
      exact (Hsub _ _ _ _ _ Ht Hx).
  - destruct v; try discriminate; now apply (Hfail _ _ H).
  - destruct (equals_literal v value0); [discriminate|].
    change (@fail unit (join path ++ (" must equal " ++ JSON_stringify value0)) v
            = Throw (ValidationError m)) in H.
    now apply (Hfail _ _ H).
  - destruct v; try discriminate; now apply (Hfail _ _ H).
  - destruct v; try discriminate; now apply (Hfail _ _ H).
  - destruct (negb (is_object v)); [now apply (Hfail _ _ H)|].
    destruct scope as [a|]; [|discriminate].
    cbn [read_allowAdditionalProperties bind] in H.
    simpl in Ht. rewrite forallb_forall in Ht.
    destruct (check_keys a path properties v) as [[]|err|] eqn:Ek;
      cbn [bind] in H; try discriminate.
    + apply for_of_Throw in H. destruct H as (p & Hin & Hp).
      unfold check_property in Hp.
      destruct (get host v (fst p)) as [x|e0|] eqn:Eg; cbn [bind] in Hp;
        try discriminate.
      2: { apply get_Throw in Eg. subst e0. discriminate. }
      destruct (required (snd p)); [exact (Hsub _ _ _ _ _ (Ht p Hin) Hp)|].
      destruct (negb (is_undefined x));
        [exact (Hsub _ _ _ _ _ (Ht p Hin) Hp)|discriminate].
    + inversion H; subst err. unfold check_keys in Ek.
      destruct (falsy a); [|discriminate]. cbv zeta in Ek.
      destruct (String.eqb _ "key"); [discriminate|].
      destruct (String.eqb _ "allowedKeys"); [discriminate|].
      destruct (keys v) as [ks|e0|] eqn:Eks; cbn [bind] in Ek; try discriminate.
      2: { apply keys_Throw in Eks. subst e0. discriminate. }
      apply for_of_Throw in Ek. destruct Ek as (k & _ & Hk).
      destruct (existsb (String.eqb k) (map fst properties)); [discriminate|].
      change (@fail unit (join path ++ (" does not allow key " ++ k)) v
              = Throw (ValidationError m)) in Hk.
      now apply (Hfail _ _ Hk).
  - destruct v; try discriminate; now apply (Hfail _ _ H).
  - destruct v; try discriminate; now apply (Hfail _ _ H).
  - apply try_members_message in H.
    destruct H as [H | (j & u & Hin & Hu)]; [discriminate|].
    simpl in Ht. rewrite forallb_forall in Ht.
    exact (Hsub _ _ _ _ _ (Ht u Hin) Hu).
Qed.

Lemma validate_false fuel name v options c :
  validate fuel name v options = (Return false, c) ->
  exists f t m,
    fuel = S f /\ lookup name types = Some t
    /\ generateTypeValidator f (InValidate (allowAdditionalProperties options))
         t EValue [name] v = Throw (ValidationError m)
    /\ c = Some {| error := m |}
    /\ errorCatcher options <> None.
Proof.
  destruct fuel as [|fuel]; simpl; [discriminate|].
  destruct (lookup name types) as [t|]; [|intro; unbound_fault].
  destruct (generateTypeValidator fuel _ t EValue [name] v) as [[]|[m| | |]|] eqn:E;
    simpl; try discriminate.
  destruct (errorCatcher options); [|discriminate].
  intro H. inversion H; subst. exists fuel, t, m. repeat split; auto. discriminate.
Qed.

(** ** The checks end *)

Lemma resolves_union k members :
  resolves k (TUnion members) = forallb (resolves k) members.
Proof. destruct k; reflexivity. Qed.

Lemma grounded_resolves k t : grounded k t = true -> resolves k t = true.
Proof.
  destruct t; simpl; intro H; apply andb_true_iff in H; tauto.
Qed.

Lemma grounded_lookup k name t :
  grounded_types k = true -> lookup name types = Some t -> grounded k t = true.
Proof.
  unfold grounded_types. rewrite forallb_forall. intros H E.
  apply lookup_In in E. exact (H _ E).
Qed.

Lemma for_of_ends {A} (body : A -> outcome unit) xs :
  (forall x, In x xs -> body x <> OutOfFuel) -> for_of body xs <> OutOfFuel.
Proof.
  induction xs as [|x xs IH]; intro H; simpl; [discriminate|].
  pose proof (H x (or_introl eq_refl)) as Hx.
  destruct (body x) as [[]| |]; simpl; try discriminate; try congruence.
  apply IH. intros y Hy. apply H. now right.
Qed.

Lemma try_members_ends (member : nat -> Ty -> outcome unit) members :
  (forall i t, In t members -> member i t <> OutOfFuel) ->
  forall i error, try_members member i error members <> OutOfFuel.
Proof.
  induction members as [|t members IH]; intros H i error; simpl.
  - destruct error; discriminate.
  - pose proof (H i t (or_introl eq_refl)) as Ht.
    destruct (member i t) as [[]|[]|]; try discriminate; try congruence.
    apply IH. intros j u Hu. apply H. now right.
Qed.

Lemma enough_for_all {A} (P : nat -> A -> Prop) xs :
  (forall f f' x, f <= f' -> P f x -> P f' x) ->
  (forall x, In x xs -> exists f, P f x) ->
  exists F, forall x, In x xs -> P F x.
Proof.
  intros Hmono. induction xs as [|x xs IH]; intro H.
  - exists 0. intros x [].
  - destruct (H x (or_introl eq_refl)) as [f Hf].
    destruct (IH (fun y Hy => H y (or_intror Hy))) as [F HF].
    exists (Nat.max f F). intros y [<- | Hy].
    + apply (Hmono f); auto. apply Nat.le_max_l.
    + apply (Hmono F); auto. apply Nat.le_max_r.
Qed.

Lemma validator_ends_more f f' scope t e path v :
  f <= f' ->
  generateTypeValidator f scope t e path v <> OutOfFuel ->
  generateTypeValidator f' scope t e path v <> OutOfFuel.
Proof.
  intros Hle H.
  now rewrite (proj1 (validator_more_fuel f) scope t e path v _ eq_refl H f' Hle).
Qed.

Lemma size_In x items : In x items -> size x <= list_sum (map size items).
Proof.
  induction items as [|y items IH]; simpl; [tauto|].
  intros [-> | H]; [lia|]. specialize (IH H). lia.
Qed.

Lemma size_lookup n entries x :
  lookup n entries = Some x ->
  size x <= list_sum (map (fun kv => size (snd kv)) entries).
Proof.
  induction entries as [|[k y] entries IH]; simpl; [discriminate|].
  destruct (String.eqb k n).
  - intro H. inversion H; subst. lia.
  - intro H. specialize (IH H). lia.
Qed.

Lemma own_property_size v n x :
  is_object v = true -> own_property v n = Some x -> size x < size v.
Proof.
  destruct v; try discriminate; intros _; simpl.
  - destruct (String.eqb n "length"); [intro H; inversion H; simpl; lia|].
    destruct (index_of_key n) as [i|]; [|discriminate].
    intro H. apply nth_error_In in H. pose proof (size_In _ _ H). lia.
  - intro H. pose proof (size_lookup _ _ _ H). lia.
Qed.

Lemma get_size v n :
  is_object v = true -> exists x, get host v n = Return x /\ size x < size v.
Proof.
  intro Hobj. unfold get.
  assert (exists c, class_of v = Some c /\ 0 < size v) as (c & -> & Hs).
  { destruct v; try discriminate; eexists; split; try reflexivity; simpl; lia. }
  destruct (own_property v n) as [x|] eqn:E.
  - exists x. split; auto. exact (own_property_size _ _ _ Hobj E).
  - destruct (prototype host c n); eexists; split; try reflexivity; simpl; lia.
Qed.

Lemma type_size_In (t : Ty) members :
  In t members -> type_size t <= list_sum (map type_size members).
Proof.
  induction members as [|y members IH]; simpl; [tauto|].
  intros [-> | H]; [lia|]. specialize (IH H). lia.
Qed.

Lemma check_keys_ends a path properties v :
  check_keys a path properties v <> OutOfFuel.
Proof.
  unfold check_keys. destruct (falsy a); [|discriminate]. cbv zeta.
  destruct (String.eqb _ "key"); [discriminate|].
  destruct (String.eqb _ "allowedKeys"); [discriminate|].
  destruct (keys v) as [ks| |] eqn:E; simpl; try discriminate.
  - apply for_of_ends. intros k _.
    destruct (existsb (String.eqb k) (map fst properties)); discriminate.
  - destruct v; discriminate.
Qed.

Section Ends.

Variable K : nat.
Hypothesis types_grounded : grounded_types K = true.

Lemma ends_step v k t :
  (forall x t', size x < size v -> grounded K t' = true -> ends x t') ->
  (forall t', type_size t' < type_size t ->
              grounded K t' = true -> resolves k t' = true -> ends v t') ->
  (forall name t', t = TAlias name -> lookup name types = Some t' -> ends v t') ->
  grounded K t = true -> resolves k t = true -> ends v t.
Proof.
  intros Hvalues Htypes Halias Hg Hr.
  destruct t;
    try (exists 1; intros scope e path; simpl; try discriminate;
         try (destruct v; discriminate);
         try (destruct (equals_literal v value0); discriminate); fail).
  - (* alias *)
    destruct (lookup name types) as [t'|] eqn:Et.
    + destruct (Halias name t' eq_refl Et) as [f Hf].
      exists (S (S f)). intros scope e path. cbn [generateTypeValidator].
      rewrite Et. destruct scope as [a|]; [|discriminate].
      cbn [read_allowAdditionalProperties bind validate]. rewrite Et.
      cbn [errorCatcher allowAdditionalProperties].
      specialize (Hf (InValidate a) EValue [name]).
      destruct (generateTypeValidator f (InValidate a) t' EValue [name] v)
        as [[]|[]|]; simpl; try discriminate. congruence.
    + exists 1. intros scope e path. simpl. rewrite Et.
      destruct (call_unbound_Throw scope name) as (e0 & -> & _). discriminate.
  - (* array *)
    destruct v; try (exists 1; intros scope e path; discriminate).
    simpl in Hg. apply andb_true_iff in Hg. destruct Hg as [_ Hg].
    destruct (enough_for_all
                (fun f x => forall scope e path,
                     generateTypeValidator f scope t e path x <> OutOfFuel) items)
      as [F HF].
    { intros f f' x Hle H scope e path.
      exact (validator_ends_more f f' scope t e path x Hle (H scope e path)). }
    { intros x Hx. apply Hvalues; auto. simpl.
      pose proof (size_In x items Hx). lia. }
    exists (S F). intros scope e path. cbn [generateTypeValidator].
    destruct e; try discriminate; apply for_of_ends; intros x Hx; now apply HF.
  - (* object *)
    destruct (is_object v) eqn:Hobj.
    2: { exists 1. intros scope e path. simpl. rewrite Hobj. discriminate. }
    simpl in Hg. apply andb_true_iff in Hg. destruct Hg as [_ Hg].
    rewrite forallb_forall in Hg.
    destruct (enough_for_all
                (fun f p => forall scope path,
                     check_property (generateTypeValidator f scope) path v p
                     <> OutOfFuel) properties)
      as [F HF].
    { intros f f' p Hle H scope path. specialize (H scope path).
      unfold check_property in *.
      destruct (get host v (fst p)) as [x| |]; simpl in *; auto.
      destruct (required (snd p));
        [exact (validator_ends_more f f' _ _ _ _ _ Hle H)|].
      destruct (negb (is_undefined x)); auto.
      exact (validator_ends_more f f' _ _ _ _ _ Hle H). }
    { intros p Hp.
      destruct (get_size v (fst p) Hobj) as (x & Hx & Hsize).
      destruct (Hvalues x (type (snd p)) Hsize (Hg p Hp)) as [f Hf].
      exists f. intros scope path. unfold check_property. rewrite Hx. simpl.
      destruct (required (snd p)); [apply Hf|].
      destruct (negb (is_undefined x)); [apply Hf|discriminate]. }
    exists (S F). intros scope e path. cbn [generateTypeValidator].
    rewrite Hobj. cbn [negb]. destruct scope as [a|]; [|discriminate].
    cbn [read_allowAdditionalProperties bind].
    pose proof (check_keys_ends a path properties v) as Hk.
    destruct (check_keys a path properties v) as [[]| |]; simpl;
      try discriminate; try congruence.
    apply for_of_ends. intros p Hp. now apply HF.
  - (* union *)
    simpl in Hg. apply andb_true_iff in Hg. destruct Hg as [_ Hg].
    rewrite forallb_forall in Hg.
    rewrite resolves_union, forallb_forall in Hr.
    destruct (enough_for_all
                (fun f u => forall scope e path,
                     generateTypeValidator f scope u e path v <> OutOfFuel) types0)
      as [F HF].
    { intros f f' u Hle H scope e path.
      exact (validator_ends_more f f' scope u e path v Hle (H scope e path)). }
    { intros u Hu. apply Htypes; auto. simpl.
      pose proof (type_size_In u types0 Hu). lia. }
    exists (S F). intros scope e path. cbn [generateTypeValidator].
    apply try_members_ends. intros i u Hu. now apply HF.
Qed.

Lemma ends_resolving v :
  (forall x t', size x < size v -> grounded K t' = true -> ends x t') ->
  forall k m t, type_size t <= m ->
    grounded K t = true -> resolves k t = true -> ends v t.
Proof.
  intro Hvalues. induction k as [|k IHk].
  - induction m as [|m IHm]; intros t Hm Hg Hr;
      apply (ends_step v 0 t); auto.
    + intros t' Hlt. lia.
    + intros name t' -> Et. discriminate.
    + intros t' Hlt. apply IHm. lia.
    + intros name t' -> Et. discriminate.
  - induction m as [|m IHm]; intros t Hm Hg Hr;
      apply (ends_step v (S k) t); auto.
    + intros t' Hlt. lia.
    + intros name t' -> Et. simpl in Hr. rewrite Et in Hr.
      apply (IHk (type_size t') t'); auto.
      exact (grounded_lookup K name t' types_grounded Et).
    + intros t' Hlt. apply IHm. lia.
    + intros name t' -> Et. simpl in Hr. rewrite Et in Hr.
      apply (IHk (type_size t') t'); auto.
      exact (grounded_lookup K name t' types_grounded Et).
Qed.

Lemma validator_ends n :
  forall v, size v <= n ->
  forall t, grounded K t = true -> ends v t.
Proof.
  induction n as [|n IHn]; intros v Hn t Hg;
    apply (ends_resolving v) with (k := K) (m := type_size t); auto;
    try (now apply grounded_resolves).
  - intros x t' Hlt. lia.
  - intros x t' Hlt Hg'. apply IHn; auto. lia.
Qed.

Lemma validate_ends name v :
  exists fuel, forall fuel' options,
    fuel <= fuel' -> fst (validate fuel' name v options) <> OutOfFuel.
Proof.
  destruct (lookup name types) as [t|] eqn:Et.
  - destruct (validator_ends (size v) v (le_n _) t
                (grounded_lookup K name t types_grounded Et)) as [f Hf].
    exists (S f). intros [|f'] options Hle; [lia|]. simpl. rewrite Et.
    pose proof (validator_ends_more f f'
                  (InValidate (allowAdditionalProperties options)) t EValue [name] v
                  (le_S_n _ _ Hle)
                  (Hf (InValidate (allowAdditionalProperties options)) EValue [name]))
      as H.
    destruct (generateTypeValidator f' _ t EValue [name] v) as [[]|[]|];
      simpl; try discriminate; try congruence.
    destruct (errorCatcher options); discriminate.
  - exists 1. intros [|f'] options Hle; [lia|]. simpl. rewrite Et.
    destruct (@unbound_Throw bool name) as (e0 & -> & _). discriminate.
Qed.

End Ends.


(** ** The names of the emitted local variables *)

Lemma concat_underscore path a b :
  String.concat "_" (path ++ [a ++ "_" ++ b])
  = String.concat "_" (path ++ [a; b]).
Proof.
  induction path as [|x path IH]; [reflexivity|].
  destruct path as [|y path]; [reflexivity|].
  change (String.concat "_" ((x :: y :: path) ++ [a ++ "_" ++ b]))
    with (x ++ "_" ++ String.concat "_" ((y :: path) ++ [a ++ "_" ++ b])).
  change (String.concat "_" ((x :: y :: path) ++ [a; b]))
    with (x ++ "_" ++ String.concat "_" ((y :: path) ++ [a; b])).
  now rewrite IH.
Qed.

(** ** What [validate] reports *)

Lemma validate_Throw fuel name v options c m :
  validate fuel name v options = (Throw (ValidationError m), c) ->
  exists f t,
    fuel = S f /\ lookup name types = Some t
    /\ generateTypeValidator f (InValidate (allowAdditionalProperties options))
         t EValue [name] v = Throw (ValidationError m)
    /\ errorCatcher options = None.
Proof.
  destruct fuel as [|fuel]; simpl; [discriminate|].
  destruct (lookup name types) as [t|]; [|intro; unbound_fault].
  destruct (generateTypeValidator fuel _ t EValue [name] v) as [[]|[m'| | |]|] eqn:E;
    simpl; try discriminate.
  destruct (errorCatcher options); [discriminate|].
  intro H. inversion H; subst. exists fuel, t. auto.
Qed.

Lemma validate_message fuel name v options c m :
  validate fuel name v options = (Return false, Some {| error := m |})
  \/ validate fuel name v options = (Throw (ValidationError m), c) ->
  exists t,
    lookup name types = Some t
    /\ (exists text x, m = text ++ ":" ++ newline ++ debugValue x)
    /\ (exists n t', lookup n types = Some t' /\ begins_with n m)
    /\ (alias_free t = true -> begins_with name m).
Proof.
  intro H.
  assert (exists f t,
             lookup name types = Some t
             /\ generateTypeValidator f
                  (InValidate (allowAdditionalProperties options))
                  t EValue [name] v = Throw (ValidationError m))
    as (f & t & Et & Ev).
  { destruct H as [H|H].
    - apply validate_false in H. destruct H as (f & t & m' & _ & Et & Ev & Hc & _).
      inversion Hc; subst. eauto.
    - apply validate_Throw in H. destruct H as (f & t & _ & Et & Ev & _). eauto. }
  exists t. split; [exact Et|].
  destruct (validator_message f _ t EValue [name] v m Ev) as [Hshape Hroot].
  split; [exact Hshape|]. split.
  - destruct Hroot as [Hpath|Hother]; [|exact Hother].
    exists name, t. split; [exact Et|exact Hpath].
  - intro Hfree. exact (validator_message_path f _ t EValue [name] v m Hfree Ev).
Qed.

Lemma validate_undeclared_key fuel name properties v ks k c a :
  hygienic (toLowerCase host) types = true ->
  lookup name types = Some (TObject properties) ->
  falsy a = true ->
  is_object v = true ->
  keys v = Return ks ->
  find (fun key => negb (existsb (String.eqb key) (map fst properties))) ks
  = Some k ->
  validate (S (S fuel)) name v
    {| errorCatcher := c; allowAdditionalProperties := a |}
  = validate_body (fail (name ++ " does not allow key " ++ k) v) c.
Proof.
  intros Hhyg Et Ha Hobj Hks Hfind.
  change (validate (S (S fuel)) name v
            {| errorCatcher := c; allowAdditionalProperties := a |})
    with (match lookup name types with
          | Some t =>
              validate_body
                (generateTypeValidator (S fuel) (InValidate a) t EValue [name] v) c
          | None => (unbound name, c)
          end).
  rewrite Et.
  now rewrite (undeclared_key_fails fuel a properties EValue [name] v ks k
                 (hygienic_local _ _ Hhyg Et) Ha Hobj Hks Hfind).
Qed.

Lemma validate_strict_keys fuel name properties v ks options :
  hygienic (toLowerCase host) types = true ->
  lookup name types = Some (TObject properties) ->
  falsy (allowAdditionalProperties options) = true ->
  keys v = Return ks ->
  fst (validate fuel name v options) = Return true ->
  forall k, In k ks -> In k (map fst properties).
Proof.
  intros Hhyg Et Ha Hks H.
  apply validate_true_any_catcher in H.
  apply validate_Return_true in H. destruct H as (f & t & -> & Et' & Ev).
  rewrite Et in Et'. inversion Et'; subst t.
  exact (strict_keys_declared f _ properties EValue [name] v ks
           (hygienic_local _ _ Hhyg Et) Ha Hks Ev).
Qed.

(** ** Types whose unions hold neither objects nor aliases *)

Lemma closed_lookup names name :
  closed types names = true -> In name names ->
  exists t, lookup name types = Some t /\ within names t = true.
Proof.
  unfold closed. rewrite forallb_forall. intros H Hn. specialize (H _ Hn).
  destruct (lookup name types) as [t|]; [|discriminate]. eauto.
Qed.

Lemma within_alias names name :
  within names (TAlias name) = true -> In name names.
Proof.
  unfold within. simpl. rewrite andb_true_r. apply mem_In.
Qed.

Lemma within_object names properties :
  within names (TObject properties) = true ->
  forall p, In p properties -> within names (type (snd p)) = true.
Proof.
  unfold within. simpl. rewrite andb_true_iff, !forallb_forall.
  intros [Hu Ha] p Hp. apply andb_true_iff. split; [exact (Hu p Hp)|].
  apply forallb_forall. intros a Hin. apply Ha, in_flat_map. eauto.
Qed.

Lemma within_union names members :
  within names (TUnion members) = true ->
  forall m, In m members -> scope_free m = true.
Proof.
  unfold within. simpl. rewrite andb_true_iff, forallb_forall. tauto.
Qed.

(** The checks of a type without objects and aliases do not depend on
    where they stand. *)
Lemma scope_free_scope f :
  forall scope scope' t e path v,
    scope_free t = true ->
    generateTypeValidator f scope t e path v
    = generateTypeValidator f scope' t e path v.
Proof.
  induction f as [|f IH]; intros scope scope' t e path v Ht; auto.
  destruct t; try discriminate; simpl in *; auto.
  - destruct v; auto. destruct e; auto; apply for_of_ext; intro; now apply IH.
  - rewrite forallb_forall in Ht. revert Ht.
    generalize 0 (@None string).
    induction types0 as [|m members IHm]; intros i error Ht; simpl; auto.
    rewrite (IH scope scope' m e _ v) by (apply Ht; now left).
    destruct (generateTypeValidator f scope' m e _ v) as [[]|[]|]; auto.
    apply IHm. intros x Hx. apply Ht. now right.
Qed.

(** Checks that complete under some setting of [allowAdditionalProperties]
    complete when it is [true]. *)
Lemma within_lenient names :
  closed types names = true ->
  forall f,
    (forall a t e path v,
        within names t = true ->
        generateTypeValidator f (InValidate a) t e path v = Return tt ->
        generateTypeValidator f (InValidate (Some true)) t e path v = Return tt)
    /\ (forall a name v,
           In name names ->
           fst (validate f name v
                  {| errorCatcher := None; allowAdditionalProperties := a |})
           = Return true ->
           fst (validate f name v allowing) = Return true).
Proof.
  intro Hclosed. induction f as [|f [IHg IHv]]; split; try discriminate.
  - intros a t e path v Ht H. destruct t; try exact H.
    + apply validator_alias_Return in H. apply validator_alias_Return.
      exact (IHv _ _ _ (within_alias _ _ Ht) H).
    + apply validator_array_Return in H. apply validator_array_Return.
      destruct H as (id & items & -> & He & Hall).
      exists id, items. repeat split; auto.
      eapply Forall_impl; [|exact Hall]. intros x Hx.
      change (within names t = true) in Ht.
      exact (IHg _ _ _ _ _ Ht Hx).
    + apply validator_object_Return. simpl in H.
      destruct (is_object v); [|discriminate]. split; auto. simpl in H.
      destruct (check_keys a path properties v) as [[]| |]; try discriminate.
      simpl in H. apply for_of_Return in H.
      pose proof (within_object _ _ Ht) as Hp. rewrite Forall_forall in *.
      intros p Hin. specialize (H p Hin). apply check_property_Return in H.
      apply check_property_Return. destruct H as (x & Hx & Hc).
      exists x. split; auto.
      intro Hcp. exact (IHg _ _ _ _ _ (Hp p Hin) (Hc Hcp)).
    + rewrite <- H. apply scope_free_scope. simpl.
      apply forallb_forall. exact (within_union _ _ Ht).
  - intros a name v Hn H. unfold allowing.
    apply validate_Return_true in H. apply validate_Return_true.
    destruct H as (f0 & t & E & Et & Hv). inversion E; subst f0.
    exists f, t. repeat split; auto.
    destruct (closed_lookup _ _ Hclosed Hn) as (t' & Et' & Hw).
    rewrite Et in Et'. inversion Et'; subst t'.
    eapply IHg; eauto.
Qed.

(** The sanitizer returns on every value that passed the checks, given
    twice the fuel the checks took. *)
Lemma within_sanitizer names :
  closed types names = true ->
  forall f t e path v,
    within names t = true ->
    generateTypeValidator f (InValidate (Some true)) t e path v = Return tt ->
    forall F, 2 * f <= F ->
    forall s, exists r s',
      generateTypeSanitizer F t e path v s = (Return r, s').
Proof.
  intro Hclosed.
  induction f as [f IH] using lt_wf_ind.
  intros t e path v Ht H F HF s.
  destruct f as [|f]; [discriminate|].
  destruct F as [|F]; [lia|].
  destruct t; try (exists v, s; reflexivity).
  - (* alias *)
    apply validator_alias_Return in H. pose proof H as H0.
    apply validate_Return_true in H0.
    destruct H0 as (f0 & t & -> & Et & Hv).
    destruct F as [|F]; [lia|]. destruct F as [|F]; [lia|].
    destruct (closed_lookup _ _ Hclosed (within_alias _ _ Ht)) as (t' & Et' & Hw).
    rewrite Et in Et'. inversion Et'; subst t'.
    destruct (IH f0 ltac:(lia) t EValue [name] v Hw Hv (S F) ltac:(lia) s)
      as (r & s' & E).
    exists r, s'. change (create (S (S F)) name v s = (Return r, s')).
    apply create_Return. exists (S F), t. repeat split; auto.
    apply validate_Return_true. exists F, t. repeat split; auto.
    exact (proj1 (validator_more_fuel f0) _ _ _ _ _ _ Hv ltac:(discriminate)
             F ltac:(lia)).
  - (* array *)
    apply validator_array_Return in H.
    destruct H as (id & items & -> & He & Hall).
    destruct (mapM_total
                (generateTypeSanitizer F t EItem (path ++ ["__item__"]))
                (fun _ _ => True) items)
      with (s := S s) as (ys & s' & E & _).
    { eapply Forall_impl; [|exact Hall]. intros x Hx s0.
      destruct (IH f ltac:(lia) t EItem _ x Ht Hx F ltac:(lia) s0)
        as (y & s1 & Ey).
      eauto. }
    exists (VArray s ys), s'. apply sanitizer_array_Return.
    exists id, items, ys. auto.
  - (* object *)
    apply validator_object_Return in H. destruct H as [_ Hall].
    pose proof (within_object _ _ Ht) as Hw. rewrite Forall_forall in Hall.
    assert (Hassign : forall acc s0, exists out s1,
               assign_properties
                 (assign_property (generateTypeSanitizer F) path v)
                 properties acc s0 = (Return out, s1)).
    { clear Ht. induction properties as [|p properties IHp]; intros acc s0.
      - exists acc, s0. reflexivity.
      - assert (Hp : exists acc1 s1,
                   assign_property (generateTypeSanitizer F) path v p acc s0
                   = (Return acc1, s1)).
        { pose proof (Hall p (or_introl eq_refl)) as Hc.
          apply check_property_Return in Hc. destruct Hc as (x & Hx & Hc).
          unfold assign_property, bindM, lift, ret. rewrite Hx.
          unfold copied in Hc.
          destruct (required (snd p)); simpl in *.
          - destruct (IH f ltac:(lia) _ _ _ x (Hw p (or_introl eq_refl))
                         (Hc eq_refl) F ltac:(lia) s0) as (x' & s1 & E).
            rewrite E. eauto.
          - destruct (is_undefined x); simpl in *; eauto.
            destruct (IH f ltac:(lia) _ _ _ x (Hw p (or_introl eq_refl))
                         (Hc eq_refl) F ltac:(lia) s0) as (x' & s1 & E).
            rewrite E. eauto. }
        destruct Hp as (acc1 & s1 & E1).
        destruct (IHp (fun q Hq => Hall q (or_intror Hq))
                      (fun q Hq => Hw q (or_intror Hq)) acc1 s1)
          as (out & s2 & E2).
        exists out, s2. simpl. unfold bindM at 1. now rewrite E1. }
    destruct (Hassign [] (S s)) as (out & s1 & E).
    exists (VObject s out), s1. apply sanitizer_object_Return. eauto.
  - (* union *)
    pose proof (within_union _ _ Ht) as Hfree.
    cbn [generateTypeValidator] in H. apply try_members_Return in H.
    destruct H as (before & t & after & -> & Hfail & Hok).
    assert (Hok' : generateTypeValidator F InCreate t e
                     (path ++ [toString (0 + length before)]) v = Return tt).
    { rewrite (scope_free_scope F InCreate (InValidate (Some true)))
        by (apply Hfree, in_or_app; right; now left).
      exact (proj1 (validator_more_fuel f) _ _ _ _ _ _ Hok ltac:(discriminate)
               F ltac:(lia)). }
    destruct (create_scope_sanitizer _ _ _ _ _ Hok' s) as (r & s' & E & _).
    exists r, s'. cbn [generateTypeSanitizer].
    apply sanitize_members_first.
    + intros j u sa Hj. destruct (Hfail j u Hj) as [m Hm].
      exists m. unfold sanitize_member, bindM, lift.
      rewrite (scope_free_scope F InCreate (InValidate (Some true)))
        by (apply Hfree, in_or_app; left; eapply nth_error_In; eauto).
      now rewrite (proj1 (validator_more_fuel f) _ _ _ _ _ _ Hm
                     ltac:(discriminate) F ltac:(lia)).
    + apply sanitize_member_Return. auto.
Qed.

(** For such types, [validate] returning [true], under any options, makes
    [create] return. *)
Lemma closed_create names :
  closed types names = true ->
  forall f name v options,
    In name names ->
    fst (validate f name v options) = Return true ->
    fst (validate f name v allowing) = Return true
    /\ forall s, exists r s', create (2 * f) name v s = (Return r, s').
Proof.
  intros Hclosed f name v options Hn H.
  apply validate_true_any_catcher in H.
  pose proof (proj2 (within_lenient _ Hclosed f) _ name v Hn H) as Hl.
  split; auto. intro s.
  pose proof Hl as Hl'. unfold allowing in Hl'.
  apply validate_Return_true in Hl'.
  destruct Hl' as (f0 & t & -> & Et & Hv).
  destruct (closed_lookup _ _ Hclosed Hn) as (t' & Et' & Hw).
  rewrite Et in Et'. inversion Et'; subst t'.
  destruct (within_sanitizer _ Hclosed f0 t EValue [name] v Hw Hv
              (S (2 * f0)) ltac:(lia) s)
    as (r & s' & E).
  exists r, s'. replace (2 * S f0) with (S (S (2 * f0))) by lia.
  apply create_Return. exists (S (2 * f0)), t. repeat split; auto.
  rewrite (proj2 (validator_more_fuel (S f0)) name v allowing _ eq_refl)
    with (f' := S (2 * f0)); auto; try lia.
  rewrite Hl. discriminate.
Qed.


Lemma create_empty_union fuel name v s :
  lookup name types = Some (TUnion []) ->
  create (S (S (S fuel))) name v s = (Throw ThrownNull, s).
Proof.
  intro En. apply create_validation_failure.
  now rewrite (validate_empty_union fuel name v allowing En).
Qed.

Lemma create_missing_alias fuel name target v s :
  lookup name types = Some (TAlias target) ->
  lookup target types = None ->
  create (S (S (S fuel))) name v s
  = (if bound_elsewhere target then Throw TypeError
     else Throw (ReferenceError target), s).
Proof.
  intros En Et.
  rewrite (create_validation_failure (S (S fuel)) name v s
             (if bound_elsewhere target then TypeError
              else ReferenceError target)).
  - now destruct (bound_elsewhere target).
  - rewrite (validate_missing_alias fuel name target v allowing En Et).
    now destruct (bound_elsewhere target).
Qed.

(** ** Unions that [create] cannot sanitize *)

(** Inside [create], the checks of an object type read
    [allowAdditionalProperties] as soon as the value is an object, and
    those of an alias as soon as they are run. *)
Lemma create_scope_object f properties e path v :
  is_object v = true ->
  generateTypeValidator (S f) InCreate (TObject properties) e path v
  = Throw (ReferenceError "allowAdditionalProperties").
Proof. intro H. simpl. now rewrite H. Qed.

Lemma create_scope_alias f name t e path v :
  lookup name types = Some t ->
  generateTypeValidator (S f) InCreate (TAlias name) e path v
  = Throw (ReferenceError "allowAdditionalProperties").
Proof. intro H. simpl. now rewrite H. Qed.

Lemma sanitize_members_fault (member : nat -> Ty -> M value) before :
  forall i t after s err,
    (forall j u sa, nth_error before j = Some u ->
                    exists m, member (i + j) u sa = (Throw (ValidationError m), sa)) ->
    member (i + length before) t s = (Throw err, s) ->
    (forall m, err <> ValidationError m) ->
    sanitize_members member i (before ++ t :: after) s = (Throw err, s).
Proof.
  induction before as [|b before IH]; intros i t after s err Hfail Hbad Hne;
    simpl in *.
  - rewrite Nat.add_0_r in Hbad. rewrite Hbad.
    destruct err; try reflexivity. now elim (Hne message).
  - destruct (Hfail 0 b s eq_refl) as [m Hm].
    rewrite Nat.add_0_r in Hm. rewrite Hm.
    apply IH; auto.
    + intros j u sa Hj. specialize (Hfail (S j) u sa Hj).
      now rewrite Nat.add_succ_r in Hfail.
    + now rewrite Nat.add_succ_r in Hbad.
Qed.

(** When the checks of a member, run inside [create], throw something
    that is not a [ValidationError] after the members before it failed,
    the sanitizer of the union throws it: no member is sanitized. *)
Lemma union_sanitizer_fault fuel e path v before t after s err :
  (forall j u, nth_error before j = Some u ->
               exists m, generateTypeValidator fuel InCreate u e
                           (path ++ [toString j]) v = Throw (ValidationError m)) ->
  generateTypeValidator fuel InCreate t e (path ++ [toString (length before)]) v
  = Throw err ->
  (forall m, err <> ValidationError m) ->
  generateTypeSanitizer (S fuel) (TUnion (before ++ t :: after)) e path v s
  = (Throw err, s).
Proof.
  intros Hfail Hbad Hne. cbn [generateTypeSanitizer].
  apply sanitize_members_fault; auto.
  - intros j u sa Hj. destruct (Hfail j u Hj) as [m Hm]. exists m.
    unfold sanitize_member, bindM, lift. cbn [Nat.add]. now rewrite Hm.
  - unfold sanitize_member, bindM, lift. cbn [Nat.add]. now rewrite Hbad.
Qed.

(** ** An array of an empty union *)



(** ** Sanitizing what validates, twice *)

Lemma create_twice names :
  well_formed_types types = true ->
  own_names host types = true ->
  closed types names = true ->
  forall fuel name v options,
    In name names ->
    fst (validate fuel name v options) = Return true ->
    forall s, exists r s',
      create (2 * fuel) name v s = (Return r, s')
      /\ forall s2, exists r' s2',
          create (2 * fuel) name r s2 = (Return r', s2') /\ same r' r.
Proof.
  intros Hwf Hown Hclosed fuel name v options Hn H s.
  destruct (proj2 (closed_create names Hclosed fuel name v options Hn H) s)
    as (r & s' & E).
  exists r, s'. split; auto.
  exact (create_again Hwf Hown _ _ _ _ _ _ E).
Qed.

(** ** What [create] makes of a value that validates *)









End Generated.

(** * The claims *)






(** C3.  [generator.ts] dispatches on the eleven kinds alias, any, array,
    boolean, literal, null, number, object, string, undefined, union, but
    the declaration [export type Type] in the types module lists only ten
    of them: it has no [array] variant.  The checks emitted for an array
    type fail with "<path> is not an array" on anything that is not an
    array and otherwise run the element checks on every element in turn;
    when the array is itself an element of an array, the emitted loop
    [for (const item of item)] throws a [ReferenceError] instead. *)
Theorem C3_array_kind :
  (forall t, In (kind t) generator_kinds)
  /\ kind (TArray TNumber) = KArray
  /\ ~ In KArray declared_kinds
  /\ (forall k, In k generator_kinds <-> k = KArray \/ In k declared_kinds)
  /\ (forall host JSON_stringify debugValue types fuel scope elem e path v,
         (isArray v = false ->
          generateTypeValidator host JSON_stringify debugValue types (S fuel) scope
            (TArray elem) e path v
          = fail debugValue (join path ++ " is not an array") v)
         /\ (forall id items, v = VArray id items -> e <> EItem ->
               generateTypeValidator host JSON_stringify debugValue types (S fuel) scope
                 (TArray elem) e path v
               = for_of (generateTypeValidator host JSON_stringify debugValue types
                           fuel scope elem EItem (path ++ ["__item__"])) items)
         /\ (forall id items, v = VArray id items -> e = EItem ->
               generateTypeValidator host JSON_stringify debugValue types (S fuel) scope
                 (TArray elem) e path v
               = Throw (ReferenceError "item")))
  /\ validate node render_literal render example_types 3 "Numbers" (VNumber 1)
       (with_catcher None)
     = (Return false,
        Some {| error := "Numbers is not an array:" ++ newline
                         ++ render (VNumber 1) |})
  /\ validate node render_literal render example_types 3 "Numbers"
       (VArray 0 [VNumber 1; VNumber 2]) no_options = (Return true, None)
  /\ validate node render_literal render example_types 3 "Numbers"
       (VArray 0 [VNumber 1; VString "x"]) (with_catcher None)
     = (Return false,
        Some {| error := "Numbers.__item__ is not a number:" ++ newline
                         ++ render (VString "x") |})
  /\ fst (validate node render_literal render example_types 4 "Grid"
            (VArray 0 [VArray 1 [VNumber 1]]) no_options)
     = Throw (ReferenceError "item").
Proof.
  split; [intro t; destruct t; simpl; tauto|].
  split; [reflexivity|].
  split; [simpl; intuition discriminate|].
  split; [intro k; destruct k; simpl; intuition discriminate|].
  split; [|repeat split].
  intros host js dbg types fuel scope elem e path v.
  exact (array_validation host js dbg types fuel scope elem e path v).
Qed.

(** C4.  [create] of an object type returns an object allocated by the
    call itself, hence not the input, which is the reconstruction of the
    input along the type: it holds, in declared order, the declared
    properties that are required or under whose name the input gives
    something other than [undefined], each with the value reconstructed
    along its own type, nested objects and arrays being new as well; so
    its keys are declared properties.
    [create({a: 1, b: 2, c: 3})] of [object{a: required, b: optional}] is
    [{a: 1, b: 2}].  But what the input gives under a name is read through
    the prototype chain: [create({})] of [object{constructor: optional}]
    returns an object with the key [constructor], which the input does
    not have. *)
Theorem C4_create_object :
  (forall host JSON_stringify debugValue types fuel name properties v s r s',
      lookup name types = Some (TObject properties) ->
      well_formed_types types = true ->
      hygienic (toLowerCase host) types = true ->
      create host JSON_stringify debugValue types fuel name v s = (Return r, s') ->
      spec_sanitized host types s (TObject properties) v r
      /\ (exists sanitized, r = VObject s sanitized)
      /\ (allocated s v = true -> identity r <> identity v)
      /\ (forall k, In k (own_keys r) -> In k (map fst properties))
      /\ (forall p, In p properties ->
            exists x, get host v (fst p) = Return x
              /\ (In (fst p) (own_keys r) <-> copied (snd p) x = true)))
  /\ create node render_literal render example_types 4 "AB" abc 1
     = (Return (VObject 1 [("a", VNumber 1); ("b", VNumber 2)]), 2)
  /\ own_keys empty = []
  /\ create node render_literal render inherited_types 4 "Made" empty 1
     = (Return (VObject 1 [("constructor",
                            VFunction "Object.prototype.constructor")]), 2).
Proof.
  split; [|repeat split].
  intros host js dbg types fuel name properties v s r s' Et Hwf _ H.
  split.
  - exact (create_spec host js dbg types Hwf fuel name _ v s r s' Et H).
  - apply (create_object_spec host js dbg types fuel name properties v s r s' Et);
      auto.
    exact (proj1 (well_formed_object _ (well_formed_lookup types name _ Hwf Et))).
Qed.

Lemma C4_create_object_witness :
  spec_sanitized node example_types 1
    (TObject [("a", required_ TNumber); ("b", optional_ TNumber)]) abc
    (VObject 1 [("a", VNumber 1); ("b", VNumber 2)])
  /\ identity (VObject 1 [("a", VNumber 1); ("b", VNumber 2)]) <> identity abc
  /\ forall k, In k (own_keys (VObject 1 [("a", VNumber 1); ("b", VNumber 2)])) ->
               In k ["a"; "b"].
Proof.
  destruct (proj1 C4_create_object node render_literal render example_types 4 "AB"
              [("a", required_ TNumber); ("b", optional_ TNumber)] abc 1
              (VObject 1 [("a", VNumber 1); ("b", VNumber 2)]) 2)
    as (Hspec & _ & Hfresh & Hkeys & _).
  - reflexivity.
  - reflexivity.
  - reflexivity.
  - reflexivity.
  - split; [exact Hspec|]. split; [apply Hfresh; reflexivity | exact Hkeys].
Defined.

(** C5.  When the check [create] runs first throws, [create] throws the
    same thing.  But for the union of an object type and [string], the
    value [{a: 1}] passes [validate] with [allowAdditionalProperties: true]
    and [create] throws a [ReferenceError] all the same: the checks the
    sanitizer repeats for the object member read
    [allowAdditionalProperties], which nothing binds inside [create].
    [create] never returns on this input. *)
Theorem C5_create_fails_after_validation :
  (forall host JSON_stringify debugValue types fuel name v s e,
      fst (validate host JSON_stringify debugValue types fuel name v allowing) = Throw e ->
      create host JSON_stringify debugValue types (S fuel) name v s = (Throw e, s))
  /\ validate node render_literal render example_types 5 "ObjectOrString" a_only allowing
     = (Return true, None)
  /\ create node render_literal render example_types 6 "ObjectOrString" a_only 1
     = (Throw (ReferenceError "allowAdditionalProperties"), 1)
  /\ (forall fuel s r s',
         create node render_literal render example_types fuel "ObjectOrString" a_only s
         <> (Return r, s')).
Proof.
  split.
  { intros host js dbg types fuel name v s e H.
    exact (create_validation_failure host js dbg types fuel name v s e H). }
  split; [reflexivity|]. split; [reflexivity|].
  intros [|[|[|[|[|[|fuel]]]]]] s r s'; simpl; discriminate.
Qed.

(** C6.  [validate] returns [true] when the checks complete; when they
    throw a [ValidationError] it stores the message in the error catcher
    and returns [false] if a catcher was given, and throws the same error
    again otherwise; anything else the checks throw leaves [validate] as
    it is, catcher or not. *)
Theorem C6_validate_entrypoint :
  forall host JSON_stringify debugValue types fuel name t v options,
    lookup name types = Some t ->
    let statements :=
      generateTypeValidator host JSON_stringify debugValue types fuel
        (InValidate (allowAdditionalProperties options)) t EValue [name] v in
    let result := validate host JSON_stringify debugValue types (S fuel) name v options in
    (statements = Return tt -> result = (Return true, errorCatcher options))
    /\ (forall m, statements = Throw (ValidationError m) ->
          match errorCatcher options with
          | Some _ => result = (Return false, Some {| error := m |})
          | None => result = (Throw (ValidationError m), None)
          end)
    /\ (forall e, statements = Throw e -> (forall m, e <> ValidationError m) ->
          result = (Throw e, errorCatcher options))
    /\ (statements = OutOfFuel -> result = (OutOfFuel, errorCatcher options)).
Proof.
  intros host js dbg types fuel name t v options Et.
  exact (validate_entrypoint host js dbg types fuel name t v options Et).
Qed.

Lemma C6_validate_entrypoint_witness :
  validate node render_literal render example_types 3 "BooleanOrNumber" (VString "x")
    (with_catcher None)
  = (Return false,
     Some {| error := "BooleanOrNumber.1 is not a number:" ++ newline
                      ++ render (VString "x") |}).
Proof.
  refine (proj1 (proj2 (C6_validate_entrypoint node render_literal render example_types
                          2 "BooleanOrNumber" (TUnion [TBoolean; TNumber])
                          (VString "x") (with_catcher None) _)) _ _);
    reflexivity.
Defined.

(** C7.  The sanitizer of a union runs the checks of each member again, in
    declared order and on its own (it is given the value only, not the
    member that matched before), and returns what the sanitizer of the
    first member whose checks complete returns; every value it returns
    arises this way, or is [undefined] when the checks of every member
    failed.  For [union(boolean, number)], [create(5)] is [5].  But the
    checks are run where they are pasted, inside [create], where nothing
    binds [allowAdditionalProperties]: when the members before it failed,
    a member that is an object type, met with an object, or an alias
    makes the sanitizer of the union throw a [ReferenceError], and no
    member is sanitized.  So it is for the union of an object type and
    [string] on [{a: 1}], on which the checks of the object member
    complete inside [validate]. *)
Theorem C7_union_sanitizer :
  (forall host JSON_stringify debugValue types fuel e path v,
      let trial i u :=
        generateTypeValidator host JSON_stringify debugValue types fuel InCreate u e
          (path ++ [toString i]) v in
      let sanitizer i u :=
        generateTypeSanitizer host JSON_stringify debugValue types fuel u e
          (path ++ [toString i]) v in
      (forall before t after s r s',
          (forall j u, nth_error before j = Some u ->
                       exists m, trial j u = Throw (ValidationError m)) ->
          trial (length before) t = Return tt ->
          sanitizer (length before) t s = (Return r, s') ->
          generateTypeSanitizer host JSON_stringify debugValue types (S fuel)
            (TUnion (before ++ t :: after)) e path v s = (Return r, s'))
      /\ (forall members s r s',
            generateTypeSanitizer host JSON_stringify debugValue types (S fuel)
              (TUnion members) e path v s = (Return r, s') ->
            (exists before t after,
                members = (before ++ t :: after)%list
                /\ (forall j u, nth_error before j = Some u ->
                                exists m, trial j u = Throw (ValidationError m))
                /\ trial (length before) t = Return tt
                /\ sanitizer (length before) t s = (Return r, s'))
            \/ (r = VUndefined /\ s' = s
                /\ forall j u, nth_error members j = Some u ->
                               exists m, trial j u = Throw (ValidationError m))))
  /\ (forall host JSON_stringify debugValue types fuel e path v before t after s,
         (forall j u, nth_error before j = Some u ->
                      exists m,
                        generateTypeValidator host JSON_stringify debugValue types
                          (S fuel) InCreate u e (path ++ [toString j]) v
                        = Throw (ValidationError m)) ->
         (exists properties, t = TObject properties /\ is_object v = true)
         \/ (exists name target, t = TAlias name
                                 /\ lookup name types = Some target) ->
         generateTypeSanitizer host JSON_stringify debugValue types (S (S fuel))
           (TUnion (before ++ t :: after)) e path v s
         = (Throw (ReferenceError "allowAdditionalProperties"), s))
  /\ create node render_literal render example_types 4 "BooleanOrNumber" (VNumber 5) 1
     = (Return (VNumber 5), 1)
  /\ generateTypeValidator node render_literal render example_types 2
       (InValidate (Some true)) (TObject [("a", required_ TNumber)]) EValue
       ["ObjectOrString"; "0"] a_only
     = Return tt
  /\ generateTypeSanitizer node render_literal render example_types 3
       (TUnion [TObject [("a", required_ TNumber)]; TString]) EValue
       ["ObjectOrString"] a_only 1
     = (Throw (ReferenceError "allowAdditionalProperties"), 1).
Proof.
  split; [|split; [|repeat split]].
  - intros host js dbg types fuel e path v.
    exact (union_sanitizer host js dbg types fuel e path v).
  - intros host js dbg types fuel e path v before t after s Hfail Ht.
    apply union_sanitizer_fault; auto; [|discriminate].
    destruct Ht as [(properties & -> & Hobj) | (name & target & -> & Et)].
    + now apply create_scope_object.
    + now apply create_scope_alias with target.
Qed.

Lemma C7_union_sanitizer_witness :
  generateTypeSanitizer node render_literal render example_types 2
    (TUnion ([TBoolean] ++ TNumber :: [TString])) EValue ["BooleanOrNumber"]
    (VNumber 5) 1 = (Return (VNumber 5), 1)
  /\ generateTypeSanitizer node render_literal render more_types 3
       (TUnion ([TNull] ++ TAlias "AB" :: [TAny])) EValue ["U"] a_only 1
     = (Throw (ReferenceError "allowAdditionalProperties"), 1).
Proof.
  split.
  - refine (proj1 (proj1 C7_union_sanitizer node render_literal render example_types
                     1 EValue ["BooleanOrNumber"] (VNumber 5))
              [TBoolean] TNumber [TString] 1 (VNumber 5) 1 _ _ _).
    + intros [|[|j]] u Hj; try discriminate.
      inversion Hj; subst. eexists. reflexivity.
    + reflexivity.
    + reflexivity.
  - refine (proj1 (proj2 C7_union_sanitizer) node render_literal render more_types
              1 EValue ["U"] a_only [TNull] (TAlias "AB") [TAny] 1 _ _).
    + intros [|[|j]] u Hj; try discriminate.
      inversion Hj; subst. eexists. reflexivity.
    + right. eexists. eexists. split; reflexivity.
Defined.

(** C8.  Whenever [T.create(v)] returns a value, [T.create] applied to
    that value returns a value deeply equal to it, and it does return,
    twice, for every [v] on which [T.validate] returns [true], provided
    that no declared property is named like a member that objects
    inherit, that the unions of the types concerned have members without
    object types and aliases, that each object type has its property
    names once and that no name is captured.  Without the first proviso
    sanitizing twice is not sanitizing once: for
    [object{toString: optional string}], [{toString: undefined}]
    validates and [create] turns it into [{}], on which [create] throws a
    [ValidationError], since [{}["toString"]] is the inherited
    function.  Without the second there may be nothing to sanitize
    twice: for the union of an object type and [string], [{a: 1}]
    validates and [create] throws on it. *)
Theorem C8_create_idempotent :
  (forall host JSON_stringify debugValue types,
      well_formed_types types = true ->
      own_names host types = true ->
      hygienic (toLowerCase host) types = true ->
      forall fuel name v s r s',
        create host JSON_stringify debugValue types fuel name v s = (Return r, s') ->
        forall s2, exists r' s2',
          create host JSON_stringify debugValue types fuel name r s2 = (Return r', s2')
          /\ same r' r)
  /\ (forall host JSON_stringify debugValue types names,
         well_formed_types types = true ->
         own_names host types = true ->
         hygienic (toLowerCase host) types = true ->
         closed types names = true ->
         forall fuel name v options,
           In name names ->
           fst (validate host JSON_stringify debugValue types fuel name v options)
           = Return true ->
           forall s, exists r s',
             create host JSON_stringify debugValue types (2 * fuel) name v s
             = (Return r, s')
             /\ forall s2, exists r' s2',
                 create host JSON_stringify debugValue types (2 * fuel) name r s2
                 = (Return r', s2')
                 /\ same r' r)
  /\ validate node render_literal render inherited_types 3 "Text" explicit no_options
     = (Return true, None)
  /\ create node render_literal render inherited_types 4 "Text" explicit 1
     = (Return (VObject 1 []), 2)
  /\ create node render_literal render inherited_types 4 "Text" (VObject 1 []) 2
     = (Throw (ValidationError
                 ("Text.toString is not a string:" ++ newline
                  ++ render (VFunction "Object.prototype.toString"))), 2)
  /\ (forall fuel s r s',
         create node render_literal render inherited_types fuel "Text" (VObject 1 []) s
         <> (Return r, s'))
  /\ validate node render_literal render example_types 5 "ObjectOrString" a_only
       no_options
     = (Return true, None)
  /\ (forall fuel s r s',
         create node render_literal render example_types fuel "ObjectOrString" a_only s
         <> (Return r, s')).
Proof.
  split; [|split; [|split; [|split; [|split; [|split; [|split]]]]]];
    try reflexivity.
  - intros host js dbg types Hwf Hown _ fuel name v s r s' H s2.
    exact (create_again host js dbg types Hwf Hown fuel name v s r s' H s2).
  - intros host js dbg types names Hwf Hown _ Hclosed fuel name v options Hn H s.
    exact (create_twice host js dbg types names Hwf Hown Hclosed fuel name v
             options Hn H s).
  - intros [|[|[|[|[|fuel]]]]] s r s'; simpl; discriminate.
  - intros [|[|[|[|[|[|fuel]]]]]] s r s'; simpl; discriminate.
Qed.

Lemma C8_create_idempotent_witness :
  (exists r' s2',
      create node render_literal render example_types 4 "AB"
        (VObject 1 [("a", VNumber 1); ("b", VNumber 2)]) 2 = (Return r', s2')
      /\ same r' (VObject 1 [("a", VNumber 1); ("b", VNumber 2)]))
  /\ exists r s',
      create node render_literal render example_types (2 * 3) "AB" a_only 1
      = (Return r, s')
      /\ forall s2, exists r' s2',
          create node render_literal render example_types (2 * 3) "AB" r s2
          = (Return r', s2')
          /\ same r' r.
Proof.
  split.
  - apply (proj1 C8_create_idempotent node render_literal render example_types
             eq_refl eq_refl eq_refl 4 "AB" abc 1 _ 2 eq_refl 2).
  - apply (proj1 (proj2 C8_create_idempotent) node render_literal render
             example_types ["BooleanOrNumber"; "AB"; "Numbers"; "Grid"]
             eq_refl eq_refl eq_refl eq_refl 3 "AB" a_only no_options).
    + simpl. tauto.
    + reflexivity.
Defined.

(** C9.  A declared optional property under which the input holds
    [undefined] has its checks skipped, whatever its type, and [create]
    leaves its key out.  When no member that objects inherit bears the
    name of the property, this is how an absent property is treated:
    [validate] and [create] end on the object that holds [undefined]
    explicitly as they do on the object without the key.  When one does,
    it is not: for [object{toString: optional string}],
    [{toString: undefined}] validates and [{}] does not, the inherited
    function being checked in the place of the absent property. *)
Theorem C9_optional_undefined :
  (forall host JSON_stringify debugValue types name properties p,
      lookup name types = Some (TObject properties) ->
      NoDup (map fst properties) ->
      hygienic (toLowerCase host) types = true ->
      In p properties -> required (snd p) = false ->
      (forall checks path v,
          get host v (fst p) = Return VUndefined ->
          check_property host checks path v p = Return tt)
      /\ (forall fuel v s r s',
             get host v (fst p) = Return VUndefined ->
             create host JSON_stringify debugValue types fuel name v s = (Return r, s') ->
             ~ In (fst p) (own_keys r))
      /\ (prototype host CObject (fst p) = None ->
          forall fuel id before after options,
            ~ In (fst p) (map fst after) ->
            let v := VObject id (before ++ (fst p, VUndefined) :: after) in
            let v' := VObject id (before ++ after) in
            (fst (validate host JSON_stringify debugValue types fuel name v options)
             = Return true
             <-> fst (validate host JSON_stringify debugValue types fuel name v' options)
                 = Return true)
            /\ forall s r s',
                create host JSON_stringify debugValue types fuel name v s = (Return r, s')
                <-> create host JSON_stringify debugValue types fuel name v' s
                    = (Return r, s')))
  /\ validate node render_literal render example_types 3 "AB" a_b_undefined no_options
     = (Return true, None)
  /\ create node render_literal render example_types 4 "AB" a_b_undefined 1
     = (Return (VObject 1 [("a", VNumber 1)]), 2)
  /\ validate node render_literal render inherited_types 3 "Text" explicit no_options
     = (Return true, None)
  /\ validate node render_literal render inherited_types 3 "Text" empty no_options
     = (Throw (ValidationError
                 ("Text.toString is not a string:" ++ newline
                  ++ render (VFunction "Object.prototype.toString"))), None)
  /\ create node render_literal render inherited_types 4 "Text" explicit 1
     = (Return (VObject 1 []), 2)
  /\ create node render_literal render inherited_types 4 "Text" empty 1
     = (Throw (ValidationError
                 ("Text.toString is not a string:" ++ newline
                  ++ render (VFunction "Object.prototype.toString"))), 1).
Proof.
  split; [|repeat split].
  intros host js dbg types name properties p Et Hnd _ Hp Hopt.
  split; [|split].
  - intros checks path v Hx. now apply optional_undefined_skipped.
  - intros fuel v s r s' Hx H.
    destruct (create_object_spec host js dbg types fuel name properties v s r s' Et Hnd H)
      as (_ & _ & _ & Hprops).
    destruct (Hprops p Hp) as (x & Hx' & Hcase).
    rewrite Hx in Hx'. inversion Hx'; subst x.
    unfold copied in Hcase. rewrite Hopt in Hcase. simpl in Hcase.
    intro Hin. apply Hcase in Hin. discriminate.
  - intros Hproto fuel id before after options Ha.
    apply (optional_undefined_absent host js dbg types fuel name properties id
             before (fst p) after options Et); auto.
    now apply in_map.
Qed.

Lemma C9_optional_undefined_witness :
  ~ In "b" (own_keys (VObject 1 [("a", VNumber 1)]))
  /\ (fst (validate node render_literal render example_types 3 "AB" a_b_undefined
             no_options) = Return true
      <-> fst (validate node render_literal render example_types 3 "AB" a_only
                 no_options) = Return true).
Proof.
  destruct (proj1 C9_optional_undefined node render_literal render example_types "AB"
              [("a", required_ TNumber); ("b", optional_ TNumber)]
              ("b", optional_ TNumber))
    as (_ & Homit & Habsent).
  - reflexivity.
  - repeat constructor; simpl; intuition discriminate.
  - reflexivity.
  - simpl. auto.
  - reflexivity.
  - split.
    + apply (Homit 4 a_b_undefined 1 _ 2); reflexivity.
    + refine (proj1 (Habsent eq_refl 3 0 [("a", VNumber 1)] [] no_options _)).
      simpl. tauto.
Defined.

(** C10.  When [validate] returns [true], the error catcher it was given
    is as it was. *)
Theorem C10_validate_true_leaves_catcher :
  forall host JSON_stringify debugValue types fuel name v options,
    fst (validate host JSON_stringify debugValue types fuel name v options) = Return true ->
    snd (validate host JSON_stringify debugValue types fuel name v options)
    = errorCatcher options.
Proof.
  intros host js dbg types fuel name v options H.
  exact (validate_true_catcher host js dbg types fuel name v options H).
Qed.

Lemma C10_validate_true_leaves_catcher_witness :
  snd (validate node render_literal render example_types 3 "BooleanOrNumber"
         (VNumber 5) (with_catcher None))
  = Some createErrorCatcher.
Proof.
  apply (C10_validate_true_leaves_catcher node render_literal render example_types
           3 "BooleanOrNumber" (VNumber 5) (with_catcher None)).
  reflexivity.
Defined.

(** * Further properties of the emitted code *)

(** X1.  Whatever [create] returns passes [validate], with any options:
    the sanitized value has no undeclared key left, so it is accepted as
    well when additional properties are not allowed.  Object types have
    distinct property names, none of them named like a member that
    objects inherit, and no name of the map is captured. *)
Theorem X1_create_result_validates :
  forall host JSON_stringify debugValue types fuel name v s r s' options,
    well_formed_types types = true ->
    own_names host types = true ->
    hygienic (toLowerCase host) types = true ->
    create host JSON_stringify debugValue types fuel name v s = (Return r, s') ->
    validate host JSON_stringify debugValue types fuel name r options
    = (Return true, errorCatcher options).
Proof.
  intros host js dbg types fuel name v s r s' options Hwf Hown Hhyg H.
  exact (create_result_validates host js dbg types Hwf Hown Hhyg fuel name v s r s'
           H options).
Qed.

Lemma X1_create_result_validates_witness :
  validate node render_literal render example_types 4 "AB"
    (VObject 1 [("a", VNumber 1); ("b", VNumber 2)]) no_options
  = (Return true, None).
Proof.
  apply (X1_create_result_validates node render_literal render example_types 4 "AB"
           abc 1 (VObject 1 [("a", VNumber 1); ("b", VNumber 2)]) 2 no_options);
    reflexivity.
Defined.





(** X4.  [allowAdditionalProperties: false] and leaving the option out are
    the same to [validate]. *)
Theorem X4_false_is_undefined :
  forall host JSON_stringify debugValue types fuel name v c,
    validate host JSON_stringify debugValue types fuel name v
      {| errorCatcher := c; allowAdditionalProperties := Some false |}
    = validate host JSON_stringify debugValue types fuel name v
        {| errorCatcher := c; allowAdditionalProperties := None |}.
Proof.
  intros host js dbg types fuel name v c.
  exact (proj2 (strict_settings host js dbg types fuel) name v c).
Qed.

(** X5.  Unless additional properties are allowed, [validate] of an object
    type fails on the first key of the value, in the order of
    [Object.keys], that is not declared, with the message
    [<name> does not allow key <key>], before any declared property is
    checked.  No name of the map is captured. *)
Theorem X5_undeclared_key :
  forall host JSON_stringify debugValue types fuel name properties v ks k c a,
    hygienic (toLowerCase host) types = true ->
    lookup name types = Some (TObject properties) ->
    falsy a = true ->
    is_object v = true ->
    keys v = Return ks ->
    find (fun key => negb (existsb (String.eqb key) (map fst properties))) ks
    = Some k ->
    let message :=
      (name ++ " does not allow key " ++ k) ++ ":" ++ newline ++ debugValue v in
    validate host JSON_stringify debugValue types (S (S fuel)) name v
      {| errorCatcher := c; allowAdditionalProperties := a |}
    = match c with
      | Some _ => (Return false, Some {| error := message |})
      | None => (Throw (ValidationError message), None)
      end.
Proof.
  intros host js dbg types fuel name properties v ks k c a Hhyg Et Ha Hobj Hks Hfind.
  exact (validate_undeclared_key host js dbg types fuel name properties v ks k c a
           Hhyg Et Ha Hobj Hks Hfind).
Qed.

Lemma X5_undeclared_key_witness :
  validate node render_literal render example_types 2 "AB"
    (VObject 0 [("a", VString "no"); ("c", VNumber 3); ("1", VNull)]) no_options
  = (Throw (ValidationError
              (("AB" ++ " does not allow key " ++ "1") ++ ":" ++ newline
               ++ render (VObject 0 [("a", VString "no"); ("c", VNumber 3);
                                     ("1", VNull)]))),
     None).
Proof.
  apply (X5_undeclared_key node render_literal render example_types 0 "AB"
           [("a", required_ TNumber); ("b", optional_ TNumber)]
           (VObject 0 [("a", VString "no"); ("c", VNumber 3); ("1", VNull)])
           ["1"; "a"; "c"] "1" None None);
    reflexivity.
Defined.

(** X6.  Unless additional properties are allowed, a value that an object
    type's [validate] accepts has declared keys only.  No name of the map
    is captured. *)
Theorem X6_strict_keys_declared :
  forall host JSON_stringify debugValue types fuel name properties v ks options,
    hygienic (toLowerCase host) types = true ->
    lookup name types = Some (TObject properties) ->
    falsy (allowAdditionalProperties options) = true ->
    keys v = Return ks ->
    fst (validate host JSON_stringify debugValue types fuel name v options)
    = Return true ->
    forall k, In k ks -> In k (map fst properties).
Proof.
  intros host js dbg types fuel name properties v ks options Hhyg Et Ha Hks H.
  exact (validate_strict_keys host js dbg types fuel name properties v ks options
           Hhyg Et Ha Hks H).
Qed.

Lemma X6_strict_keys_declared_witness :
  In "b" (map fst [("a", required_ TNumber); ("b", optional_ TNumber)]).
Proof.
  apply (X6_strict_keys_declared node render_literal render example_types 3 "AB"
           [("a", required_ TNumber); ("b", optional_ TNumber)]
           (VObject 0 [("a", VNumber 1); ("b", VNumber 2)]) ["a"; "b"]
           (with_catcher (Some false)));
    try reflexivity.
  right. left. reflexivity.
Defined.

(** X7.  The message of every [ValidationError] that [validate] stores in
    the error catcher or throws is a text, a colon, a line break and the
    printed value, and begins with the name of a type of the map; when the
    type holds no alias, it begins with the name of the type itself.
    [validate] returns [false] only when it was given an error catcher, and
    throws a [ValidationError] only when it was not. *)
Theorem X7_failure_message :
  forall host JSON_stringify debugValue types fuel name v options c m,
    validate host JSON_stringify debugValue types fuel name v options
    = (Return false, Some {| error := m |})
    \/ validate host JSON_stringify debugValue types fuel name v options
       = (Throw (ValidationError m), c) ->
    exists t,
      lookup name types = Some t
      /\ (exists text x, m = text ++ ":" ++ newline ++ debugValue x)
      /\ (exists n t', lookup n types = Some t' /\ begins_with n m)
      /\ (alias_free t = true -> begins_with name m).
Proof.
  intros host js dbg types fuel name v options c m H.
  exact (validate_message host js dbg types fuel name v options c m H).
Qed.

Lemma X7_failure_message_witness :
  exists t,
    lookup "BooleanOrNumber" example_types = Some t
    /\ (exists text x,
           "BooleanOrNumber.1 is not a number:" ++ newline ++ render (VString "x")
           = text ++ ":" ++ newline ++ render x)
    /\ (exists n t',
           lookup n example_types = Some t'
           /\ begins_with n
                ("BooleanOrNumber.1 is not a number:" ++ newline
                 ++ render (VString "x")))
    /\ (alias_free t = true ->
        begins_with "BooleanOrNumber"
          ("BooleanOrNumber.1 is not a number:" ++ newline
           ++ render (VString "x"))).
Proof.
  apply (X7_failure_message node render_literal render example_types 3
           "BooleanOrNumber" (VString "x") (with_catcher None) None).
  left. reflexivity.
Defined.



(** X9.  An alias of a name that the map does not hold makes [validate]
    and [create] throw on every value, with or without an error catcher:
    a [ReferenceError] when nothing binds the name, a [TypeError] when
    the emitted module or the host binds it (to something that has no
    method [validate]).  No name of the map is captured. *)
Theorem X9_missing_alias :
  forall host JSON_stringify debugValue types fuel name target v options s,
    hygienic (toLowerCase host) types = true ->
    lookup name types = Some (TAlias target) ->
    lookup target types = None ->
    let thrown :=
      if bound_elsewhere host target then TypeError else ReferenceError target in
    validate host JSON_stringify debugValue types (S (S fuel)) name v options
    = (Throw thrown, errorCatcher options)
    /\ create host JSON_stringify debugValue types (S (S (S fuel))) name v s
       = (Throw thrown, s).
Proof.
  intros host js dbg types fuel name target v options s _ En Et. cbv zeta. split.
  - rewrite (validate_missing_alias host js dbg types fuel name target v options
               En Et).
    now destruct (bound_elsewhere host target).
  - rewrite (create_missing_alias host js dbg types fuel name target v s En Et).
    now destruct (bound_elsewhere host target).
Qed.

Lemma X9_missing_alias_witness :
  (validate node render_literal render [("Dangling", TAlias "Missing")] 2 "Dangling"
     VNull (with_catcher None)
   = (Throw (ReferenceError "Missing"), Some createErrorCatcher)
   /\ create node render_literal render [("Dangling", TAlias "Missing")] 3 "Dangling"
        VNull 0
      = (Throw (ReferenceError "Missing"), 0))
  /\ validate node render_literal render [("Stamp", TAlias "Date")] 2 "Stamp"
       VNull (with_catcher None)
     = (Throw TypeError, Some createErrorCatcher)
  /\ create node render_literal render [("Stamp", TAlias "Date")] 3 "Stamp" VNull 0
     = (Throw TypeError, 0).
Proof.
  split.
  - exact (X9_missing_alias node render_literal render
             [("Dangling", TAlias "Missing")] 0 "Dangling" "Missing" VNull
             (with_catcher None) 0 eq_refl eq_refl eq_refl).
  - exact (X9_missing_alias node render_literal render [("Stamp", TAlias "Date")]
             0 "Stamp" "Date" VNull (with_catcher None) 0 eq_refl eq_refl eq_refl).
Defined.

(** X10.  When the checks of a member of a union throw something that is
    not a [ValidationError], after the members before it failed, the union
    throws it at once: the members after it are not tried, even if one of
    them accepts the value. *)
Theorem X10_union_member_fault :
  forall host JSON_stringify debugValue types fuel scope e path v before t after err,
    (forall j u, nth_error before j = Some u ->
                 exists m,
                   generateTypeValidator host JSON_stringify debugValue types fuel
                     scope u e (path ++ [toString j]) v
                   = Throw (ValidationError m)) ->
    generateTypeValidator host JSON_stringify debugValue types fuel scope t e
      (path ++ [toString (length before)]) v = Throw err ->
    (forall m, err <> ValidationError m) ->
    generateTypeValidator host JSON_stringify debugValue types (S fuel) scope
      (TUnion (before ++ t :: after)) e path v
    = Throw err.
Proof.
  intros host js dbg types fuel scope e path v before t after err Hb Ht Hne.
  exact (union_member_fault host js dbg types fuel scope e path v before t after err
           Hb Ht Hne).
Qed.

Lemma X10_union_member_fault_witness :
  generateTypeValidator node render_literal render more_types 2 (InValidate None)
    (TUnion [TBoolean; TAlias "Missing"; TNumber]) EValue ["U"] (VNumber 1)
  = Throw (ReferenceError "Missing").
Proof.
  apply (X10_union_member_fault node render_literal render more_types 1
           (InValidate None) EValue ["U"] (VNumber 1) [TBoolean]
           (TAlias "Missing") [TNumber] (ReferenceError "Missing")).
  - intros [|[|j]] u Hu; inversion Hu; subst. eexists. reflexivity.
  - reflexivity.
  - intros m. discriminate.
Defined.

(** X11.  The verdict of [validate] depends on the shape of the value only:
    two deeply equal values, whichever objects they are made of, are both
    accepted or both not. *)
Theorem X11_validate_same :
  forall host JSON_stringify debugValue types fuel name v v' options,
    same v v' ->
    (fst (validate host JSON_stringify debugValue types fuel name v options)
     = Return true
     <-> fst (validate host JSON_stringify debugValue types fuel name v' options)
         = Return true).
Proof.
  intros host js dbg types fuel name v v' options H.
  exact (validate_same host js dbg types fuel name v v' options H).
Qed.

Lemma X11_validate_same_witness :
  fst (validate node render_literal render example_types 3 "AB" a_only no_options)
  = Return true
  <-> fst (validate node render_literal render example_types 3 "AB"
             (VObject 7 [("a", VNumber 1)]) no_options)
      = Return true.
Proof.
  apply (X11_validate_same node render_literal render example_types 3 "AB" a_only
           (VObject 7 [("a", VNumber 1)]) no_options).
  reflexivity.
Defined.

(** X12.  [create] of an array type returns a new array of the same
    length, whose elements are the sanitized elements of the argument, in
    order. *)
Theorem X12_create_array :
  forall host JSON_stringify debugValue types fuel name elem v s r s',
    lookup name types = Some (TArray elem) ->
    create host JSON_stringify debugValue types fuel name v s = (Return r, s') ->
    exists id items items' f,
      v = VArray id items /\ r = VArray s items'
      /\ length items' = length items
      /\ Forall2 (fun x x' =>
                    exists sa sb,
                      generateTypeSanitizer host JSON_stringify debugValue types f
                        elem EItem [name; "__item__"] x sa
                      = (Return x', sb)) items items'
      /\ (allocated s v = true -> identity r <> identity v).
Proof.
  intros host js dbg types fuel name elem v s r s' Et H.
  exact (create_array host js dbg types fuel name elem v s r s' Et H).
Qed.

Lemma X12_create_array_witness :
  exists id items items' f,
    VArray 0 [VNumber 1; VNumber 2] = VArray id items
    /\ VArray 1 [VNumber 1; VNumber 2] = VArray 1 items'
    /\ length items' = length items
    /\ Forall2 (fun x x' =>
                  exists sa sb,
                    generateTypeSanitizer node render_literal render example_types f
                      TNumber EItem ["Numbers"; "__item__"] x sa
                    = (Return x', sb)) items items'
    /\ (allocated 1 (VArray 0 [VNumber 1; VNumber 2]) = true ->
        identity (VArray 1 [VNumber 1; VNumber 2])
        <> identity (VArray 0 [VNumber 1; VNumber 2])).
Proof.
  apply (X12_create_array node render_literal render example_types 4 "Numbers" TNumber
           (VArray 0 [VNumber 1; VNumber 2]) 1 (VArray 1 [VNumber 1; VNumber 2]) 2);
    reflexivity.
Defined.

(** X13.  For an object type, [validate] with additional properties
    allowed and [create] read the declared properties of their argument
    only: on two objects that hold the same values under the declared
    names they end the same way. *)
Theorem X13_create_declared_only :
  forall host JSON_stringify debugValue types fuel name properties v v' s,
    lookup name types = Some (TObject properties) ->
    is_object v = true -> is_object v' = true ->
    (forall n, In n (map fst properties) -> get host v n = get host v' n) ->
    validate host JSON_stringify debugValue types fuel name v allowing
    = validate host JSON_stringify debugValue types fuel name v' allowing
    /\ create host JSON_stringify debugValue types (S fuel) name v s
       = create host JSON_stringify debugValue types (S fuel) name v' s.
Proof.
  intros host js dbg types fuel name properties v v' s Et Hv Hv' Hget.
  exact (create_declared_only host js dbg types fuel name properties v v' s
           Et Hv Hv' Hget).
Qed.

Lemma X13_create_declared_only_witness :
  validate node render_literal render example_types 3 "AB" abc allowing
  = validate node render_literal render example_types 3 "AB"
      (VObject 5 [("z", VNull); ("b", VNumber 2); ("a", VNumber 1)]) allowing
  /\ create node render_literal render example_types 4 "AB" abc 6
     = create node render_literal render example_types 4 "AB"
         (VObject 5 [("z", VNull); ("b", VNumber 2); ("a", VNumber 1)]) 6.
Proof.
  apply (X13_create_declared_only node render_literal render example_types 3 "AB"
           [("a", required_ TNumber); ("b", optional_ TNumber)] abc
           (VObject 5 [("z", VNull); ("b", VNumber 2); ("a", VNumber 1)]) 6);
    try reflexivity.
  intros n [<-|[<-|[]]]; reflexivity.
Defined.

(** X14.  When every chain of aliases of the map reaches, within [k]
    steps, a type that is not an alias, [validate] ends on every value (a
    finite tree): it returns or throws, also for types that refer to
    themselves through the properties of an object or the elements of an
    array. *)
Theorem X14_validate_ends :
  forall host JSON_stringify debugValue types k name v,
    grounded_types types k = true ->
    exists fuel, forall fuel' options,
      fuel <= fuel' ->
      fst (validate host JSON_stringify debugValue types fuel' name v options)
      <> OutOfFuel.
Proof.
  intros host js dbg types k name v Hg.
  exact (validate_ends host js dbg types k Hg name v).
Qed.

Lemma X14_validate_ends_witness :
  exists fuel, forall fuel' options,
    fuel <= fuel' ->
    fst (validate node render_literal render more_types fuel' "List" one_two options)
    <> OutOfFuel.
Proof.
  apply (X14_validate_ends node render_literal render more_types 1 "List" one_two).
  reflexivity.
Defined.



(** X16.  [variableNameFromPath] gives the same local name to the path
    that ends in the one name [a_b] and to the path that ends in the two
    names [a], [b]. *)
Theorem X16_variable_name_collision :
  forall toLowerCase path a b,
    variableNameFromPath toLowerCase (path ++ [a ++ "_" ++ b])
    = variableNameFromPath toLowerCase (path ++ [a; b]).
Proof.
  intros lower path a b. unfold variableNameFromPath.
  now rewrite concat_underscore.
Qed.
